(** * plua2: the timer manager, the callback queue and the dispatch loop

    A shallow embedding of [src/plua2/runtime.py] (class [LuaAsyncRuntime])
    and of the entry points of [src/plua2/interpreter.py] (class
    [LuaInterpreter]) that the runtime calls.

    The runtime is an asyncio program: every coroutine runs on one event
    loop, and a coroutine is only ever interleaved with another one at an
    [await] that really suspends.  The embedding therefore has

    - the runtime object as a record, with the event loop's tasks in it
      (a task handle is its index in [all_tasks]);
    - every method as a computation in a small state-and-exception monad;
    - every coroutine as the function that resumes it from one suspension
      point to the next ([resume]), so that one [step] of the system is one
      atomic stretch of Python code.

    The script engine (lupa) is a black box: a parameter [lua_execute] says,
    for an engine state and a chunk of Lua, which host functions the chunk
    calls and how it ends.

    Left out: [debug_print] output (only written in debug mode), the
    timestamps of [curr_time], tracebacks, task names, [task_states] and the
    monitoring loops [run_for_duration] / [run_forever]. *)

From stdpp Require Import gmap list strings.

Set Default Proof Using "Type".

Declare Scope py_scope.
Delimit Scope py_scope with py.

Section plua2.

(** The state of the embedded Lua engine, and the payload of a callback
    (Python's [Any]). *)
Context {LuaState Any : Type}.

(** ** Exceptions and results *)

(** [CancelledError] derives from [BaseException] only: an
    [except Exception] clause does not catch it. *)
Inductive exception :=
| RuntimeError (msg : string)
| LuaError (msg : string)
| CancelledError.

Definition is_Exception (e : exception) : bool :=
  match e with
  | CancelledError => false
  | _ => true
  end.

Definition is_RuntimeError (e : exception) : bool :=
  match e with
  | RuntimeError _ => true
  | _ => false
  end.

(** [str(e)] *)
Definition exception_str (e : exception) : string :=
  match e with
  | RuntimeError msg => msg
  | LuaError msg => msg
  | CancelledError => EmptyString
  end.

Inductive pyresult (A : Type) :=
| Returned (a : A)
| Raised (e : exception).
Global Arguments Returned {A} a.
Global Arguments Raised {A} e.

(** ** Data model *)

(** [@dataclass CallbackData] *)
Record CallbackData := {
  type : string;            (* "timer" or "lua_callback" *)
  callback_id : Z;
  data : option Any;        (* None is Python's None *)
}.

(** The three coroutines of runtime.py that become asyncio tasks. *)
Inductive coroutine :=
| timer_task (timer_id delay_ms : Z)
| run_timer_callbacks_loop
| _queue_callback (callback_data : CallbackData).

Inductive await_point :=
| await_sleep        (* await asyncio.sleep(...)             line 60  *)
| await_acquire      (* await self.timer_semaphore.acquire() line 154 *)
| await_get.         (* await self.callback_queue.get()      line 165 *)

Inductive task_state :=
| Scheduled                       (* created, body not entered yet *)
| Suspended (p : await_point)
| Finished.

(** An [asyncio.Task]; [must_cancel] is set by [Task.cancel()] and makes
    the next resumption raise [CancelledError] inside the coroutine. *)
Record Task := {
  coro : coroutine;
  state : task_state;
  must_cancel : bool;
}.

Definition done (t : Task) : bool :=
  match state t with
  | Finished => true
  | _ => false
  end.

(** What [print] writes (the lines that are not debug output). *)
Inductive output :=
| out_callback_error (callback_id : Z) (e : exception)   (* line 180 *)
| out_runtime_stopped                                    (* line 295 *)
| out_text (s : string).

(** Ghost events, recorded newest first in [history]; they do not
    influence the behaviour. *)
Inductive event :=
| ev_create (timer_id : Z) (task : nat)
| ev_cancel (timer_id : Z) (found : option nat)
| ev_expire (task : nat) (timer_id : Z) (live : bool)
| ev_put (cb : CallbackData)
| ev_release
| ev_acquire
| ev_get (cb : CallbackData)
| ev_invoke (callback_id : Z)
| ev_invoke_end (callback_id : Z) (failure : option exception).

(** [class LuaInterpreter]: [lua] is None until [initialize]. *)
Record LuaInterpreter := {
  lua : option LuaState;
}.

(** [class LuaAsyncRuntime], together with the event loop's tasks, the
    standard output and the ghost history. *)
Record LuaAsyncRuntime := {
  interpreter : LuaInterpreter;
  timer_semaphore : nat;                 (* asyncio.Semaphore(0) *)
  callback_task : option nat;
  callback_queue : list CallbackData;    (* asyncio.Queue(), unbounded *)
  timer_tasks : gmap Z nat;              (* Dict[int, asyncio.Task] *)
  all_tasks : list Task;
  stdout : list output;                  (* newest first *)
  history : list event;                  (* newest first *)
}.

(** [__init__] *)
Definition init : LuaAsyncRuntime := {|
  interpreter := {| lua := None |};
  timer_semaphore := 0;
  callback_task := None;
  callback_queue := [];
  timer_tasks := ∅;
  all_tasks := [];
  stdout := [];
  history := [];
|}.

Definition set_lua (l : option LuaState) (rt : LuaAsyncRuntime) : LuaAsyncRuntime :=
  {| interpreter := {| lua := l |};
     timer_semaphore := timer_semaphore rt; callback_task := callback_task rt;
     callback_queue := callback_queue rt; timer_tasks := timer_tasks rt;
     all_tasks := all_tasks rt; stdout := stdout rt; history := history rt |}.

Definition set_timer_semaphore (n : nat) (rt : LuaAsyncRuntime) : LuaAsyncRuntime :=
  {| interpreter := interpreter rt;
     timer_semaphore := n; callback_task := callback_task rt;
     callback_queue := callback_queue rt; timer_tasks := timer_tasks rt;
     all_tasks := all_tasks rt; stdout := stdout rt; history := history rt |}.

Definition set_callback_task (t : option nat) (rt : LuaAsyncRuntime) : LuaAsyncRuntime :=
  {| interpreter := interpreter rt;
     timer_semaphore := timer_semaphore rt; callback_task := t;
     callback_queue := callback_queue rt; timer_tasks := timer_tasks rt;
     all_tasks := all_tasks rt; stdout := stdout rt; history := history rt |}.

Definition set_callback_queue (q : list CallbackData) (rt : LuaAsyncRuntime) : LuaAsyncRuntime :=
  {| interpreter := interpreter rt;
     timer_semaphore := timer_semaphore rt; callback_task := callback_task rt;
     callback_queue := q; timer_tasks := timer_tasks rt;
     all_tasks := all_tasks rt; stdout := stdout rt; history := history rt |}.

Definition set_timer_tasks (m : gmap Z nat) (rt : LuaAsyncRuntime) : LuaAsyncRuntime :=
  {| interpreter := interpreter rt;
     timer_semaphore := timer_semaphore rt; callback_task := callback_task rt;
     callback_queue := callback_queue rt; timer_tasks := m;
     all_tasks := all_tasks rt; stdout := stdout rt; history := history rt |}.

Definition set_all_tasks (ts : list Task) (rt : LuaAsyncRuntime) : LuaAsyncRuntime :=
  {| interpreter := interpreter rt;
     timer_semaphore := timer_semaphore rt; callback_task := callback_task rt;
     callback_queue := callback_queue rt; timer_tasks := timer_tasks rt;
     all_tasks := ts; stdout := stdout rt; history := history rt |}.

Definition set_stdout (o : list output) (rt : LuaAsyncRuntime) : LuaAsyncRuntime :=
  {| interpreter := interpreter rt;
     timer_semaphore := timer_semaphore rt; callback_task := callback_task rt;
     callback_queue := callback_queue rt; timer_tasks := timer_tasks rt;
     all_tasks := all_tasks rt; stdout := o; history := history rt |}.

Definition set_history (h : list event) (rt : LuaAsyncRuntime) : LuaAsyncRuntime :=
  {| interpreter := interpreter rt;
     timer_semaphore := timer_semaphore rt; callback_task := callback_task rt;
     callback_queue := callback_queue rt; timer_tasks := timer_tasks rt;
     all_tasks := all_tasks rt; stdout := stdout rt; history := h |}.

(** ** The monad of Python methods: state and exceptions *)

Definition py (A : Type) : Type := LuaAsyncRuntime → pyresult A * LuaAsyncRuntime.

Definition py_ret {A} (a : A) : py A := λ rt, (Returned a, rt).

Definition py_raise {A} (e : exception) : py A := λ rt, (Raised e, rt).

Definition py_bind {A B} (c : py A) (k : A → py B) : py B :=
  λ rt, match c rt with
        | (Returned a, rt') => k a rt'
        | (Raised e, rt') => (Raised e, rt')
        end.

Notation "x <- c ;; k" := (py_bind c (λ x, k))
  (at level 100, c at next level, right associativity) : py_scope.
Notation "c ;; k" := (py_bind c (λ _, k))
  (at level 100, right associativity) : py_scope.
Local Open Scope py_scope.

Definition py_get : py LuaAsyncRuntime := λ rt, (Returned rt, rt).

Definition py_modify (f : LuaAsyncRuntime → LuaAsyncRuntime) : py unit :=
  λ rt, (Returned tt, f rt).

(** [try: c  except <class>: handler]; the handler runs when [catches e]. *)
Definition py_try {A} (c : py A) (catches : exception → bool)
    (handler : exception → py A) : py A :=
  λ rt, match c rt with
        | (Raised e, rt') => if catches e then handler e rt' else (Raised e, rt')
        | r => r
        end.

(** [try: c  finally: f] *)
Definition py_finally {A} (c : py A) (f : py unit) : py A :=
  λ rt, match c rt with
        | (r, rt') =>
            match f rt' with
            | (Returned _, rt'') => (r, rt'')
            | (Raised e, rt'') => (Raised e, rt'')
            end
        end.

Definition ghost (e : event) : py unit :=
  py_modify (λ rt, set_history (e :: history rt) rt).

Definition print (o : output) : py unit :=
  py_modify (λ rt, set_stdout (o :: stdout rt) rt).

(** ** asyncio primitives *)

(** [asyncio.create_task(coro)]: needs a running event loop in the calling
    thread, otherwise RuntimeError. *)
Definition asyncio_create_task (running_loop : bool) (c : coroutine) : py nat :=
  if running_loop then
    rt <- py_get;;
    py_modify (set_all_tasks
      (all_tasks rt ++ [{| coro := c; state := Scheduled; must_cancel := false |}]));;
    py_ret (length (all_tasks rt))
  else py_raise (RuntimeError "no running event loop").

(** [asyncio.get_running_loop()] *)
Definition asyncio_get_running_loop (running_loop : bool) : py unit :=
  if running_loop then py_ret tt
  else py_raise (RuntimeError "no running event loop").

(** [task.done()] *)
Definition task_done (task : nat) (rt : LuaAsyncRuntime) : bool :=
  match all_tasks rt !! task with
  | Some t => done t
  | None => true
  end.

(** [task.cancel()]: a request; nothing happens to a task that is done. *)
Definition task_cancel (task : nat) : py unit :=
  rt <- py_get;;
  match all_tasks rt !! task with
  | Some t =>
      if done t then py_ret tt
      else py_modify (set_all_tasks
             (<[task := {| coro := coro t; state := state t; must_cancel := true |}]>
                (all_tasks rt)))
  | None => py_ret tt
  end.

(** [await self.callback_queue.put(x)]: the queue is unbounded, so the
    call never suspends. *)
Definition callback_queue_put (cb : CallbackData) : py unit :=
  py_modify (λ rt, set_callback_queue (callback_queue rt ++ [cb]) rt);;
  ghost (ev_put cb).

(** [self.timer_semaphore.release()] *)
Definition timer_semaphore_release : py unit :=
  py_modify (λ rt, set_timer_semaphore (S (timer_semaphore rt)) rt);;
  ghost ev_release.

(** ** The script engine *)

(** The Lua chunks that interpreter.py hands to the engine. *)
Inductive lua_chunk :=
| chunk_init                                                   (* lines 161-169 *)
| chunk_load_debug_main (script source : string) (debug : bool) (* lines 195-205 *)
| chunk_run_with_source (script source : string)               (* lines 208-215 *)
| chunk_run_wrapped (script : string)                          (* line 221 *)
| chunk_main_file_hook (filepath : string)                     (* line 239 *)
| chunk_check_debug_main                                       (* lines 253-256 *)
| chunk_execute_debug_main (debug : bool)                      (* lines 266-277 *)
| chunk_execute_callback (callback_id : Z) (data : option Any). (* lines 386-413 *)

(** One run of the engine on a chunk: the calls it makes to the two host
    functions of the runtime that [initialize] registers ([_PY.pythonTimer],
    [_PY.pythonCancelTimer]), then its end: a value (only its truthiness is
    used) or a Lua error; both leave a new engine state.  The other exported
    host functions do not touch the runtime; the network module, which is
    not part of these sources, submits its results through
    [queue_lua_callback], modelled below as a call from outside. *)
Inductive lua_run :=
| lua_return (s : LuaState) (truthy : bool)
| lua_error (s : LuaState) (msg : string)
| lua_pythonTimer (timer_id delay_ms : Z) (k : lua_run)
| lua_pythonCancelTimer (timer_id : Z) (k : bool → lua_run).

Context (lua_execute : LuaState → lua_chunk → lua_run).

(** ** Timer manager (runtime.py, lines 53-118) *)

(** The part of [create_timer] that runs at the call: lines 90-97. *)
Definition create_timer (running_loop : bool) (timer_id delay_ms : Z) : py nat :=
  task <- asyncio_create_task running_loop (timer_task timer_id delay_ms);;
  py_modify (λ rt, set_timer_tasks (<[timer_id := task]> (timer_tasks rt)) rt);;
  ghost (ev_create timer_id task);;
  py_ret task.

(** [_ensure_callback_loop_running], lines 209-221 *)
Definition _ensure_callback_loop_running (running_loop : bool) : py unit :=
  rt <- py_get;;
  let stale := match callback_task rt with
               | None => true
               | Some task => task_done task rt
               end in
  if stale then
    task <- asyncio_create_task running_loop run_timer_callbacks_loop;;
    py_modify (set_callback_task (Some task))
  else py_ret tt.

(** [python_timer], lines 99-103 *)
Definition python_timer (running_loop : bool) (timer_id delay_ms : Z) : py nat :=
  _ensure_callback_loop_running running_loop;;
  create_timer running_loop timer_id delay_ms.

(** [python_cancel_timer], lines 105-118 *)
Definition python_cancel_timer (timer_id : Z) : py bool :=
  rt <- py_get;;
  match timer_tasks rt !! timer_id with
  | Some task =>
      (if negb (task_done task rt) then task_cancel task else py_ret tt);;
      py_modify (λ rt, set_timer_tasks (delete timer_id (timer_tasks rt)) rt);;
      ghost (ev_cancel timer_id (Some task));;
      py_ret true
  | None =>
      ghost (ev_cancel timer_id None);;
      py_ret false
  end.

(** The body of [timer_task] from the end of its sleep on, lines 58-88.
    [cancelled] says how the sleep ended: with the delay (false) or with
    [CancelledError] thrown at the await (true). *)
Definition timer_task_wake (task : nat) (timer_id : Z) (cancelled : bool) : py unit :=
  py_finally
    (py_try
       (if cancelled then py_raise CancelledError
        else
          rt <- py_get;;
          match timer_tasks rt !! timer_id with
          | None =>
              ghost (ev_expire task timer_id false);;
              py_ret tt                                         (* line 67 *)
          | Some _ =>
              ghost (ev_expire task timer_id true);;
              callback_queue_put
                {| type := "timer"; callback_id := timer_id; data := None |};;
              timer_semaphore_release
          end)
       is_Exception
       (λ e, print (out_text ("Timer task error: " +:+ exception_str e))))
    (rt <- py_get;;
     match timer_tasks rt !! timer_id with
     | Some _ => py_modify (λ rt, set_timer_tasks (delete timer_id (timer_tasks rt)) rt)
     | None => py_ret tt
     end).

(** ** Interpreter entry points (interpreter.py) *)

(** The engine runs a chunk; host calls made by the script act on the
    runtime.  The engine is only ever entered from code running on the event
    loop, so these host calls see a running loop. *)
Fixpoint run_lua (r : lua_run) : py bool :=
  match r with
  | lua_return s v => py_modify (set_lua (Some s));; py_ret v
  | lua_error s msg => py_modify (set_lua (Some s));; py_raise (LuaError msg)
  | lua_pythonTimer timer_id delay_ms k =>
      python_timer true timer_id delay_ms;; run_lua k
  | lua_pythonCancelTimer timer_id k =>
      found <- python_cancel_timer timer_id;; run_lua (k found)
  end.

(** [self.lua.execute(chunk)] *)
Definition lua_runtime_execute (s : LuaState) (chunk : lua_chunk) : py bool :=
  run_lua (lua_execute s chunk).

(** [LuaInterpreter.initialize], lines 87-171; [s0] is the fresh
    [lupa.LuaRuntime] with the [_PY] table filled in (lines 102-153, not
    modelled further); then init.lua is run. *)
Definition initialize (s0 : LuaState) : py unit :=
  py_modify (set_lua (Some s0));;
  lua_runtime_execute s0 chunk_init;;
  py_ret tt.

Definition bool_str (b : bool) : string := if b then "True" else "False".

(** [execute_script], lines 173-221; [source_name] is None or a string,
    and the empty string is falsy. *)
Definition execute_script (script : string) (source_name : option string)
    (debugging debug : bool) : py unit :=
  rt <- py_get;;
  match lua (interpreter rt) with
  | None => py_raise (RuntimeError "Lua runtime not initialized. Call initialize() first.")
  | Some s =>
      match source_name with
      | Some (String c n) =>
          let debug_source := "@" +:+ String c n in
          (if debug then
             print (out_text ("LUA: Loading script with source: " +:+ debug_source
                              +:+ " (debugging=" +:+ bool_str debugging +:+ ")"))
           else py_ret tt);;
          lua_runtime_execute s
            (if debugging then chunk_load_debug_main script debug_source debug
             else chunk_run_with_source script debug_source);;
          py_ret tt
      | _ =>
          lua_runtime_execute s (chunk_run_wrapped script);;
          py_ret tt
      end
  end.

(** [execute_file], lines 223-241 *)
Definition execute_file (filepath : string) (debugging debug : bool) : py unit :=
  rt <- py_get;;
  match lua (interpreter rt) with
  | None => py_raise (RuntimeError "Lua runtime not initialized. Call initialize() first.")
  | Some s =>
      py_try
        (lua_runtime_execute s (chunk_main_file_hook filepath);; py_ret tt)
        is_Exception
        (λ e, py_raise (RuntimeError ("main_file_hook failed for " +:+ filepath
                                      +:+ ": " +:+ exception_str e)))
  end.

(** [execute_debug_main], lines 243-277 *)
Definition execute_debug_main (debug : bool) : py unit :=
  rt <- py_get;;
  match lua (interpreter rt) with
  | None => py_raise (RuntimeError "Lua runtime not initialized.")
  | Some s =>
      (if debug then print (out_text "Checking for debug main function...")
       else py_ret tt);;
      has_debug_main <- lua_runtime_execute s chunk_check_debug_main;;
      if negb has_debug_main then
        (if debug then print (out_text "No debug main function found, skipping...")
         else py_ret tt)
      else
        (if debug then print (out_text "Executing debug main function...")
         else py_ret tt);;
        rt <- py_get;;
        match lua (interpreter rt) with
        | Some s' => lua_runtime_execute s' (chunk_execute_debug_main debug);; py_ret tt
        | None => py_ret tt
        end
  end.

(** [execute_lua_callback], lines 380-413; converting [data] and storing
    it in a Lua global belong to the chunk. *)
Definition execute_lua_callback (callback_id : Z) (data : option Any) : py unit :=
  rt <- py_get;;
  match lua (interpreter rt) with
  | None => py_raise (RuntimeError "Lua runtime not initialized.")
  | Some s =>
      lua_runtime_execute s (chunk_execute_callback callback_id data);;
      py_ret tt
  end.

(** ** Dispatch loop (runtime.py, lines 142-184) *)

(** The call into the engine with its ghost bracket: [ev_invoke] when the
    call is made, [ev_invoke_end] when it comes back, with the exception if
    it raised one. *)
Definition invoke (callback_id : Z) (data : option Any) : py unit :=
  ghost (ev_invoke callback_id);;
  λ rt, match execute_lua_callback callback_id data rt with
        | (Returned _, rt') => ghost (ev_invoke_end callback_id None) rt'
        | (Raised e, rt') =>
            (Raised e, set_history (ev_invoke_end callback_id (Some e) :: history rt') rt')
        end.

(** Lines 167-182: the try block of one iteration. *)
Definition dispatch (callback_data : CallbackData) : py unit :=
  py_try
    (if String.eqb (type callback_data) "timer" then
       invoke (callback_id callback_data) None
     else if String.eqb (type callback_data) "lua_callback" then
       invoke (callback_id callback_data) (data callback_data)
     else py_ret tt)
    is_Exception
    (λ e, print (out_callback_error (callback_id callback_data) e)).

(** [_queue_callback], lines 364-367 *)
Definition queue_callback_body (callback_data : CallbackData) : py unit :=
  callback_queue_put callback_data;;
  timer_semaphore_release.

(** ** Cross-thread submission and lifecycle *)

(** [queue_lua_callback], lines 339-362.  [running_loop] says whether the
    calling thread has a running event loop. *)
Definition queue_lua_callback (running_loop : bool) (callback_id : Z)
    (result_data : option Any) : py unit :=
  _ensure_callback_loop_running running_loop;;
  let callback_data :=
    {| type := "lua_callback"; callback_id := callback_id; data := result_data |} in
  py_try
    (asyncio_get_running_loop running_loop;;
     asyncio_create_task true (_queue_callback callback_data);;   (* ensure_future *)
     py_ret tt)
    is_RuntimeError
    (λ _, py_try
            (asyncio_create_task running_loop (_queue_callback callback_data);;
             py_ret tt)
            is_Exception
            (λ _, py_ret tt)).

(** [start_callback_loop], lines 223-230 (a coroutine, so on the loop) *)
Definition start_callback_loop : py unit :=
  task <- asyncio_create_task true run_timer_callbacks_loop;;
  py_modify (set_callback_task (Some task)).

(** [initialize_lua], lines 186-195 *)
Definition initialize_lua (s0 : LuaState) : py unit := initialize s0.

(** [stop], lines 289-295 *)
Definition stop : py unit :=
  rt <- py_get;;
  match callback_task rt with
  | Some task => task_cancel task
  | None => py_ret tt
  end;;
  print out_runtime_stopped.

(** ** The event loop *)

Definition set_task_state (task : nat) (s : task_state) (rt : LuaAsyncRuntime)
    : LuaAsyncRuntime :=
  match all_tasks rt !! task with
  | Some t =>
      set_all_tasks
        (<[task := {| coro := coro t; state := s; must_cancel := must_cancel t |}]>
           (all_tasks rt)) rt
  | None => rt
  end.

(** One iteration of [run_timer_callbacks_loop] from the acquire on.  None:
    the semaphore is locked, the task stays suspended at line 154. *)
Definition loop_iteration (task : nat) (rt : LuaAsyncRuntime) : option LuaAsyncRuntime :=
  match timer_semaphore rt with
  | O => None
  | S n =>
      let rt := snd (ghost ev_acquire (set_timer_semaphore n rt)) in
      match callback_queue rt with
      | [] => Some (set_task_state task (Suspended await_get) rt)
      | callback_data :: q =>
          let rt := snd (ghost (ev_get callback_data) (set_callback_queue q rt)) in
          Some (set_task_state task (Suspended await_acquire)
                  (snd (dispatch callback_data rt)))
      end
  end.

(** The event loop resumes [task] and runs it to its next suspension.
    None: the task cannot run now (it is done, or it waits for something
    that has not happened). *)
Definition resume (task : nat) (rt : LuaAsyncRuntime) : option LuaAsyncRuntime :=
  match all_tasks rt !! task with
  | None => None
  | Some t =>
      match state t, coro t with
      | Finished, _ => None
      | Scheduled, _ =>
          if must_cancel t then Some (set_task_state task Finished rt)
          else
            match coro t with
            | timer_task _ _ => Some (set_task_state task (Suspended await_sleep) rt)
            | run_timer_callbacks_loop =>
                match loop_iteration task rt with
                | Some rt' => Some rt'
                | None => Some (set_task_state task (Suspended await_acquire) rt)
                end
            | _queue_callback callback_data =>
                Some (set_task_state task Finished
                        (snd (queue_callback_body callback_data rt)))
            end
      | Suspended _, timer_task timer_id _ =>
          Some (set_task_state task Finished
                  (snd (timer_task_wake task timer_id (must_cancel t) rt)))
      | Suspended p, run_timer_callbacks_loop =>
          if must_cancel t then Some (set_task_state task Finished rt)
          else
            match p with
            | await_get =>
                match callback_queue rt with
                | [] => None
                | callback_data :: q =>
                    let rt := snd (ghost (ev_get callback_data)
                                     (set_callback_queue q rt)) in
                    Some (set_task_state task (Suspended await_acquire)
                            (snd (dispatch callback_data rt)))
                end
            | _ => loop_iteration task rt
            end
      | Suspended _, _queue_callback _ => None
      end
  end.

(** What can happen next: the event loop resumes a task, or code outside
    the three coroutines calls a method of the runtime. *)
Inductive action :=
| run (task : nat)
| call_initialize_lua (s0 : LuaState)
| call_execute_script (script : string) (source_name : option string)
    (debugging debug : bool)
| call_execute_file (filepath : string) (debugging debug : bool)
| call_execute_debug_main (debug : bool)
| call_python_timer (running_loop : bool) (timer_id delay_ms : Z)
| call_python_cancel_timer (timer_id : Z)
| call_queue_lua_callback (running_loop : bool) (callback_id : Z)
    (result_data : option Any)
| call_start_callback_loop
| call_stop.

Definition step (a : action) (rt : LuaAsyncRuntime) : option LuaAsyncRuntime :=
  match a with
  | run task => resume task rt
  | call_initialize_lua s0 => Some (snd (initialize_lua s0 rt))
  | call_execute_script script source_name debugging debug =>
      Some (snd (execute_script script source_name debugging debug rt))
  | call_execute_file filepath debugging debug =>
      Some (snd (execute_file filepath debugging debug rt))
  | call_execute_debug_main debug => Some (snd (execute_debug_main debug rt))
  | call_python_timer running_loop timer_id delay_ms =>
      Some (snd (python_timer running_loop timer_id delay_ms rt))
  | call_python_cancel_timer timer_id => Some (snd (python_cancel_timer timer_id rt))
  | call_queue_lua_callback running_loop callback_id result_data =>
      Some (snd (queue_lua_callback running_loop callback_id result_data rt))
  | call_start_callback_loop => Some (snd (start_callback_loop rt))
  | call_stop => Some (snd (stop rt))
  end.

Fixpoint run_actions (acts : list action) (rt : LuaAsyncRuntime) : option LuaAsyncRuntime :=
  match acts with
  | [] => Some rt
  | a :: acts' =>
      match step a rt with
      | Some rt' => run_actions acts' rt'
      | None => None
      end
  end.

Inductive reachable : LuaAsyncRuntime → Prop :=
| reachable_init : reachable init
| reachable_step rt a rt' : reachable rt → step a rt = Some rt' → reachable rt'.

End plua2.

Global Arguments lua_run : clear implicits.
Global Arguments lua_chunk : clear implicits.
Global Arguments LuaAsyncRuntime : clear implicits.
Global Arguments LuaInterpreter : clear implicits.
Global Arguments CallbackData : clear implicits.
Global Arguments event : clear implicits.
Global Arguments coroutine : clear implicits.
Global Arguments Task : clear implicits.
Global Arguments action : clear implicits.
Global Arguments py : clear implicits.

(** ** Observations on the ghost history and on the output *)

Section observations.

Context {Any : Type}.

Implicit Types h : list (event Any).

(** The events of the two host functions a script can call. *)
Definition is_host_event (e : event Any) : bool :=
  match e with
  | ev_create _ _ | ev_cancel _ _ => true
  | _ => false
  end.

Definition host_events (evs : list (event Any)) : Prop :=
  Forall (λ e, is_host_event e = true) evs.

(** Enqueued and dequeued callbacks, newest first. *)
Definition puts h : list (CallbackData Any) :=
  omap (λ e, match e with ev_put cb => Some cb | _ => None end) h.

Definition gets h : list (CallbackData Any) :=
  omap (λ e, match e with ev_get cb => Some cb | _ => None end) h.

(** The ids the engine was invoked with, newest first. *)
Definition invoked h : list Z :=
  omap (λ e, match e with ev_invoke callback_id => Some callback_id | _ => None end) h.

(** The invocations that raised, and the errors that were printed. *)
Definition failures h : list (Z * exception) :=
  omap (λ e, match e with
             | ev_invoke_end callback_id (Some err) => Some (callback_id, err)
             | _ => None
             end) h.

Definition reported (o : list output) : list (Z * exception) :=
  omap (λ l, match l with
             | out_callback_error callback_id err => Some (callback_id, err)
             | _ => None
             end) o.

(** The number of engine invocations that have begun and not ended. *)
Fixpoint in_flight h : nat :=
  match h with
  | [] => 0
  | ev_invoke _ :: h' => S (in_flight h')
  | ev_invoke_end _ _ :: h' => pred (in_flight h')
  | _ :: h' => in_flight h'
  end.

(** At no moment of the history were two invocations in flight. *)
Fixpoint serial h : bool :=
  match h with
  | [] => true
  | e :: h' => (in_flight (e :: h') <=? 1) && serial h'
  end.

(** Releases and puts come in pairs, the release right after the put. *)
Inductive paired : list (event Any) → Prop :=
| paired_nil : paired []
| paired_put_release cb h : paired h → paired (ev_release :: ev_put cb :: h)
| paired_other e h :
    match e with ev_put _ | ev_release => False | _ => True end →
    paired h → paired (e :: h).

(** How often a timer id was registered, found by a cancel, and found
    registered by an expiry. *)
Fixpoint count (f : event Any → bool) h : nat :=
  match h with
  | [] => 0
  | e :: h' => (if f e then 1 else 0) + count f h'
  end.

Definition is_create (timer_id : Z) (e : event Any) : bool :=
  match e with
  | ev_create i _ => bool_decide (i = timer_id)
  | _ => false
  end.

Definition is_cancel_success (timer_id : Z) (e : event Any) : bool :=
  match e with
  | ev_cancel i (Some _) => bool_decide (i = timer_id)
  | _ => false
  end.

Definition is_expiry_dispatch (timer_id : Z) (e : event Any) : bool :=
  match e with
  | ev_expire _ i true => bool_decide (i = timer_id)
  | _ => false
  end.

Definition creates (timer_id : Z) h : nat := count (is_create timer_id) h.

Definition cancel_successes (timer_id : Z) h : nat :=
  count (is_cancel_success timer_id) h.

Definition expiry_dispatches (timer_id : Z) h : nat :=
  count (is_expiry_dispatch timer_id) h.

(** The tasks that [create_timer] made for a timer id, newest first. *)
Definition created_tasks (timer_id : Z) h : list nat :=
  omap (λ e, match e with
             | ev_create i task => if bool_decide (i = timer_id) then Some task else None
             | _ => None
             end) h.

(** The events that count for a timer id: its creations and its two
    outcomes. *)
Definition concerns (timer_id : Z) (e : event Any) : bool :=
  is_create timer_id e || is_cancel_success timer_id e
  || is_expiry_dispatch timer_id e.

Definition valid_type (cb : CallbackData Any) : Prop :=
  type cb = "timer" ∨ type cb = "lua_callback".

End observations.

(** ** Invariants *)

Section invariants.

Context {LuaState Any : Type}.

Implicit Types rt : LuaAsyncRuntime LuaState Any.

Definition new_task (c : coroutine Any) : Task Any :=
  {| coro := c; state := Scheduled; must_cancel := false |}.

Definition is_timer_task (c : coroutine Any) : bool :=
  match c with
  | timer_task _ _ => true
  | _ => false
  end.

(** A property of the state that survives what a script can make the
    runtime do: the engine state changes, text is printed, the callback
    loop is started, timers are created and cancelled. *)
Record host_stable (P : LuaAsyncRuntime LuaState Any → Prop) : Prop := {
  stable_set_lua l rt : P rt → P (set_lua l rt);
  stable_print_text s rt : P rt → P (set_stdout (out_text s :: stdout rt) rt);
  stable_start_loop rt :
    P rt →
    P (set_callback_task (Some (length (all_tasks rt)))
         (set_all_tasks (all_tasks rt ++ [new_task run_timer_callbacks_loop]) rt));
  stable_create_timer timer_id delay_ms rt :
    P rt → P (snd (create_timer true timer_id delay_ms rt));
  stable_cancel_timer timer_id rt :
    P rt → P (snd (python_cancel_timer timer_id rt));
}.

(** [rt] differs from [rt0] in nothing the dispatch protocol looks at: same
    semaphore, same queue, same reported errors, and a history that only
    gained events of the host functions. *)
Definition quiet rt0 rt : Prop :=
  timer_semaphore rt = timer_semaphore rt0
  ∧ callback_queue rt = callback_queue rt0
  ∧ reported (stdout rt) = reported (stdout rt0)
  ∧ ∃ evs, history rt = evs ++ history rt0 ∧ host_events evs.

(** No task waits in [callback_queue.get()], a task of [_queue_callback]
    carries a callback of one of the two kinds, and every registered timer
    id points to a task running [timer_task] for that id. *)
Definition task_ok (t : Task Any) : Prop :=
  state t ≠ Suspended await_get
  ∧ ∀ cb, coro t = _queue_callback cb → valid_type cb.

Definition tasks_ok rt : Prop :=
  (∀ task t, all_tasks rt !! task = Some t → task_ok t)
  ∧ (∀ timer_id task, timer_tasks rt !! timer_id = Some task →
       ∃ t delay_ms, all_tasks rt !! task = Some t
                     ∧ coro t = timer_task timer_id delay_ms).

(** The tasks of [rt0] that are not timer tasks are unchanged in [rt]. *)
Definition keeps rt0 rt : Prop :=
  ∀ task t, all_tasks rt0 !! task = Some t → is_timer_task (coro t) = false →
            all_tasks rt !! task = Some t.

(** The payload the dispatch loop hands to the engine for a callback:
    none for a timer. *)
Definition dispatched_data (cb : CallbackData Any) : option Any :=
  if String.eqb (type cb) "timer" then None else data cb.

(** The invariant of the dispatch protocol, at the points where the event
    loop switches tasks. *)
Record inv rt : Prop := {
  inv_semaphore : timer_semaphore rt = length (callback_queue rt);
  inv_tasks : tasks_ok rt;
  inv_types : Forall valid_type (callback_queue rt);
  inv_fifo : rev (puts (history rt)) = rev (gets (history rt)) ++ callback_queue rt;
  inv_paired : paired (history rt);
  inv_in_flight : in_flight (history rt) = 0;
  inv_serial : serial (history rt) = true;
  inv_invoked : invoked (history rt) = callback_id <$> gets (history rt);
  inv_reported : failures (history rt) = reported (stdout rt);
}.

(** The timer manager seen from outside: the registered ids and the
    history. *)
Definition timer_view rt : gmap Z nat * list (event Any) :=
  (timer_tasks rt, history rt).

Definition is_timer_event (e : event Any) : bool :=
  match e with
  | ev_create _ _ | ev_cancel _ _ | ev_expire _ _ _ => true
  | _ => false
  end.

(** 1 if the id is registered, 0 if not. *)
Definition live (m : gmap Z nat) (timer_id : Z) : nat :=
  match m !! timer_id with
  | Some _ => 1
  | None => 0
  end.

(** The ways in which the timer manager changes its view. *)
Inductive timer_change1 :
    gmap Z nat * list (event Any) → gmap Z nat * list (event Any) → Prop :=
| tc_create m h timer_id task :
    timer_change1 (m, h) (<[timer_id := task]> m, ev_create timer_id task :: h)
| tc_cancel_found m h timer_id task :
    m !! timer_id = Some task →
    timer_change1 (m, h) (delete timer_id m, ev_cancel timer_id (Some task) :: h)
| tc_cancel_missed m h timer_id :
    m !! timer_id = None →
    timer_change1 (m, h) (m, ev_cancel timer_id None :: h)
| tc_expire_live m h timer_id task owner :
    m !! timer_id = Some owner →
    timer_change1 (m, h) (delete timer_id m, ev_expire task timer_id true :: h)
| tc_expire_dead m h timer_id task :
    m !! timer_id = None →
    timer_change1 (m, h) (m, ev_expire task timer_id false :: h)
| tc_cleanup m h timer_id :
    timer_change1 (m, h) (delete timer_id m, h)
| tc_other m h e :
    is_timer_event e = false → timer_change1 (m, h) (m, e :: h).

Inductive timer_change :
    gmap Z nat * list (event Any) → gmap Z nat * list (event Any) → Prop :=
| tc_refl v : timer_change v v
| tc_step v1 v2 v3 : timer_change v1 v2 → timer_change1 v2 v3 → timer_change v1 v3.

(** The dispatch loop [task] is alive and at the top of its loop: not
    done, not cancelled, at (or about to reach) the acquire. *)
Definition loop_ready rt (task : nat) : Prop :=
  ∃ t, all_tasks rt !! task = Some t
       ∧ coro t = run_timer_callbacks_loop
       ∧ must_cancel t = false
       ∧ (state t = Scheduled ∨ state t = Suspended await_acquire).

Definition is_timer_for (timer_id : Z) (c : coroutine Any) : bool :=
  match c with
  | timer_task i _ => bool_decide (i = timer_id)
  | _ => false
  end.

(** A timer id whose timer is pending: the id is registered, its task has
    not finished and no cancellation was requested, and neither outcome has
    occurred. *)
Definition timer_pending (timer_id : Z) rt : Prop :=
  ∃ task t delay_ms,
    timer_tasks rt !! timer_id = Some task
    ∧ all_tasks rt !! task = Some t
    ∧ coro t = timer_task timer_id delay_ms
    ∧ state t ≠ Finished
    ∧ must_cancel t = false
    ∧ cancel_successes timer_id (history rt) = 0
    ∧ expiry_dispatches timer_id (history rt) = 0.

(** A timer id with nothing pending: the id is not registered, every
    creation of the id has had its outcome, and the tasks of the id are
    finished or cancelled. *)
Definition timer_settled (timer_id : Z) rt : Prop :=
  timer_tasks rt !! timer_id = None
  ∧ cancel_successes timer_id (history rt) + expiry_dispatches timer_id (history rt)
    = creates timer_id (history rt)
  ∧ ∀ task t, all_tasks rt !! task = Some t → is_timer_for timer_id (coro t) = true →
              state t = Finished ∨ must_cancel t = true.

(** The invariant behind the race property, for one timer id. *)
Record fresh_inv (timer_id : Z) rt : Prop := {
  fresh_created :
    ∀ task t, all_tasks rt !! task = Some t → is_timer_for timer_id (coro t) = true →
              task ∈ created_tasks timer_id (history rt);
  fresh_loop :
    ∀ c, callback_task rt = Some c →
         ∃ t, all_tasks rt !! c = Some t ∧ coro t = run_timer_callbacks_loop;
  fresh_once :
    creates timer_id (history rt) ≤ 1 →
    timer_pending timer_id rt ∨ timer_settled timer_id rt;
}.

(** What every step of the system keeps, seen from a state [rt0]. *)
Definition good rt0 rt : Prop :=
  inv rt ∧ timer_change (timer_view rt0) (timer_view rt).

End invariants.

(** ** Scenarios *)

Module Scenario.

(** An engine whose callbacks with a negative id fail and whose other
    chunks return; it never calls a host function. *)
Definition engine (s : nat) (c : lua_chunk nat) : lua_run nat :=
  match c with
  | chunk_execute_callback callback_id _ =>
      if (callback_id <? 0)%Z then lua_error (S s) "attempt to call a nil value"
      else lua_return (S s) true
  | _ => lua_return (S s) true
  end.

Definition start : LuaAsyncRuntime nat nat := @init nat nat.

(** The state after a run of actions from [start] ([start] itself if the
    run is not possible). *)
Definition after (acts : list (action nat nat)) : LuaAsyncRuntime nat nat :=
  default start (run_actions engine acts start).

(** Timer 1 was requested and its task (task 1; task 0 is the callback
    loop) has started to sleep. *)
Definition sleeping_trace : list (action nat nat) :=
  [call_python_timer true 1 50; run 1].

(** Two callbacks are queued for a callback loop that has not run yet; the
    first one, with id -7, fails in the engine. *)
Definition queued_trace : list (action nat nat) :=
  [call_initialize_lua 0;
   call_queue_lua_callback true (-7) None;
   call_queue_lua_callback true 8 (Some 3);
   run 1; run 2].

(** The runtime was started and stopped, and the cancellation has reached
    the callback loop. *)
Definition stopped_trace : list (action nat nat) :=
  [call_start_callback_loop; call_initialize_lua 0; run 0; call_stop; run 0].

(** After [stopped_trace]: a callback is submitted, its task (task 2) runs,
    and the callback loop started by the submission (task 1) runs. *)
Definition submit_after_stop : list (action nat nat) :=
  [call_queue_lua_callback true 7 (Some 3); run 2; run 1].

(** A timer sleeps and a callback is queued when [stop] is called. *)
Definition stop_with_pending_work : list (action nat nat) :=
  [call_python_timer true 1 50; run 1;
   call_queue_lua_callback true 7 None; run 2;
   call_stop].

(** Timer 1 is requested and sleeps (task 1); it is cancelled and requested
    again at once (task 2); the event loop then delivers the cancellation to
    task 1 and starts task 2; a later cancel of timer 1 finds nothing; the
    delay of task 2 ends. *)
Definition reuse_after_cancel : list (action nat nat) :=
  [call_python_timer true 1 50; run 1;
   call_python_cancel_timer 1; call_python_timer true 1 50;
   run 1; run 2;
   call_python_cancel_timer 1;
   run 2].

End Scenario.

(** * The rest of the runtime, and the library of exported functions

    The entry point [start] of runtime.py, the print function and the
    output buffer of interpreter.py, and from luafuns_lib.py the registry of
    exported functions, the buffer of refresh-state events and the
    conversion of Lua values for JSON. *)

From Stdlib Require Ascii.
From stdpp Require Import pretty sorting.

(** ** The registry of timers and the timer callbacks on the queue *)

Section registry.

Context {LuaState Any : Type}.

Implicit Types rt : LuaAsyncRuntime LuaState Any.

(** A timer callback of the id is put on the queue. *)
Definition is_timer_put (timer_id : Z) (e : event Any) : bool :=
  match e with
  | ev_put cb => bool_decide (type cb = "timer" ∧ callback_id cb = timer_id)
  | _ => false
  end.

(** How often that has happened. *)
Definition timer_puts (timer_id : Z) (h : list (event Any)) : nat :=
  count (is_timer_put timer_id) h.

(** An event that is neither the put of a timer callback nor an expiry
    that finds its id registered. *)
Definition silent (e : event Any) : Prop :=
  ∀ timer_id, is_timer_put timer_id e = false ∧ is_expiry_dispatch timer_id e = false.

(** No timer id is registered with this task. *)
Definition not_registered rt (task : nat) : Prop :=
  ∀ timer_id, timer_tasks rt !! timer_id ≠ Some task.

(** What the registry and the queue keep over the whole run: a registered
    id points to the task of a timer of this id that has not finished and
    whose cancellation was not requested; a task of [_queue_callback]
    carries a callback of type "lua_callback"; and the timer callbacks put
    on the queue for an id are as many as the expiries that found the id
    registered. *)
Record registry_inv rt : Prop := {
  reg_pending :
    ∀ timer_id task, timer_tasks rt !! timer_id = Some task →
      ∃ t delay_ms, all_tasks rt !! task = Some t
                    ∧ coro t = timer_task timer_id delay_ms
                    ∧ state t ≠ Finished
                    ∧ must_cancel t = false;
  reg_submitted :
    ∀ task t cb, all_tasks rt !! task = Some t → coro t = _queue_callback cb →
                 type cb = "lua_callback";
  reg_fired :
    ∀ timer_id, timer_puts timer_id (history rt) = expiry_dispatches timer_id (history rt);
}.

End registry.

(** ** The entry point of the runtime: [start] (runtime.py, lines 297-337
    and 369-470) *)

Section lifecycle.

Context {LuaState Any : Type}.
Context (lua_execute : LuaState → lua_chunk Any → lua_run LuaState).

(** The engine on the script that [start_debugger] builds for a host, a
    port and the debug flag (lines 310-329). *)
Context (lua_execute_debugger : LuaState → string → Z → bool → lua_run LuaState).

Notation "x <- c ;; k" := (py_bind c (λ x, k))
  (at level 100, c at next level, right associativity) : py_scope.
Notation "c ;; k" := (py_bind c (λ _, k))
  (at level 100, right associativity) : py_scope.
Local Open Scope py_scope.

(** The dict [debugger_config]: its keys 'host' and 'port', and the key
    'debug', False when absent.  None stands for None and for the empty
    dict, which is falsy too. *)
Record debugger_config := {
  host : string;
  port : Z;
  debug : bool;
}.

(** The task that [start] awaits at its end. *)
Inductive monitor :=
| duration_monitor (duration_seconds : Z)      (* lines 457-461 *)
| forever_monitor.                             (* lines 463-467 *)

(** Truthiness of a value that is None or a string, and of one that is
    None or a list. *)
Definition truthy_str (s : option string) : bool :=
  match s with
  | Some (String _ _) => true
  | _ => false
  end.

Definition truthy_list {A} (l : option (list A)) : bool :=
  match l with
  | Some (_ :: _) => true
  | _ => false
  end.

(** [start_debugger], lines 297-337 *)
Definition start_debugger (host : string) (port : Z) (debug : bool)
    : py LuaState Any unit :=
  py_try
    (rt <- py_get;;
     match lua (interpreter rt) with
     | Some s => run_lua (lua_execute_debugger s host port debug);; py_ret tt
     | None => py_ret tt
     end)
    is_Exception
    (λ _, py_ret tt).

(** The loop over the script fragments, lines 409-413 and 441-443: fragment
    number [i] of [total] is run under the source name "fragment_<i>".  In
    the branch without a debugger nothing is announced and [debug] is
    False. *)
Fixpoint execute_fragments (debug_enabled : bool) (total i : nat)
    (fragments : list string) : py LuaState Any unit :=
  match fragments with
  | [] => py_ret tt
  | fragment :: rest =>
      (if debug_enabled then
         print (out_text ("Executing script fragment " +:+ pretty i +:+ "/"
                          +:+ pretty total +:+ "..."))
       else py_ret tt);;
      execute_script lua_execute fragment (Some ("fragment_" +:+ pretty i))
        false debug_enabled;;
      execute_fragments debug_enabled total (S i) rest
  end.

(** Lines 399-453 of [start]: the debugger, the script fragments, the API
    endpoints and the main file or script.  [api_server] is None or what
    [api_server.check_and_register_fibaro_api()] does. *)
Definition run_scripts (script_fragments : option (list string))
    (main_script main_file : option string)
    (debugger : option debugger_config) (source_name : option string)
    (api_server : option (py LuaState Any unit)) : py LuaState Any unit :=
  let fragments := default [] script_fragments in
  let register_api := match api_server with
                      | Some check_and_register_fibaro_api =>
                          check_and_register_fibaro_api
                      | None => py_ret tt
                      end in
  match debugger with
  | Some cfg =>
      let debug_enabled := debug cfg in
      let announce text :=
        if debug_enabled then print (out_text text) else py_ret tt in
      start_debugger (host cfg) (port cfg) debug_enabled;;
      execute_fragments debug_enabled (length fragments) 1 fragments;;
      register_api;;
      if truthy_str main_file then
        announce "Loading main file for debugging...";;
        execute_file lua_execute (default "" main_file) true debug_enabled;;
        announce "Executing debug main function...";;
        execute_debug_main lua_execute debug_enabled
      else if truthy_str main_script then
        announce "Loading main script for debugging...";;
        execute_script lua_execute (default "" main_script) source_name
          true debug_enabled;;
        announce "Executing debug main function...";;
        execute_debug_main lua_execute debug_enabled
      else py_ret tt
  | None =>
      execute_fragments false (length fragments) 1 fragments;;
      register_api;;
      if truthy_str main_file then
        execute_file lua_execute (default "" main_file) false false
      else if truthy_str main_script then
        execute_script lua_execute (default "" main_script) source_name
          false false
      else py_ret tt
  end.

(** The monitor that [start] creates for [duration], lines 456-467: 0 is
    falsy, like None. *)
Definition monitor_for (duration : option Z) : monitor :=
  match duration with
  | Some d => if (d =? 0)%Z then forever_monitor else duration_monitor d
  | None => forever_monitor
  end.

(** [start] from its first line to the creation of the monitor task,
    lines 384-467.  The result is the monitor that [start] goes on to
    await, or None when it returns at line 388.  [s0] is the engine that
    [initialize_lua] makes. *)
Definition start_body (s0 : LuaState) (script_fragments : option (list string))
    (main_script main_file : option string) (duration : option Z)
    (debugger : option debugger_config) (source_name : option string)
    (api_server : option (py LuaState Any unit))
    : py LuaState Any (option monitor) :=
  if negb (truthy_list script_fragments) && negb (truthy_str main_script)
     && negb (truthy_str main_file) then
    print (out_text "No script provided to execute");;
    py_ret None
  else
    initialize_lua lua_execute s0;;
    start_callback_loop;;
    run_scripts script_fragments main_script main_file debugger source_name
      api_server;;
    py_ret (Some (monitor_for duration)).

(** [start]: the body under its [try ... finally: self.stop()], up to the
    await of the monitor task.  When the body returns or raises, [stop]
    runs; when it has reached the await, [start] is suspended and [stop]
    has not run yet.  The argument [debug] only sets the debug mode, which
    decides what [debug_print] writes; the monitor task is not one of the
    tasks of [all_tasks]. *)
Definition start (s0 : LuaState) (script_fragments : option (list string))
    (main_script main_file : option string) (duration : option Z)
    (debugger : option debugger_config) (source_name : option string)
    (api_server : option (py LuaState Any unit))
    : py LuaState Any (option monitor) :=
  λ rt,
    match start_body s0 script_fragments main_script main_file duration
            debugger source_name api_server rt with
    | (Returned (Some m), rt') => (Returned (Some m), rt')
    | (r, rt') =>
        match stop rt' with
        | (Returned _, rt'') => (r, rt'')
        | (Raised e, rt'') => (Raised e, rt'')
        end
    end.

(** The end of [start], line 470: the awaited monitor task has ended with
    [outcome] (or [start] was cancelled at the await), and the [finally]
    clause runs. *)
Definition start_end (outcome : pyresult unit) : py LuaState Any unit :=
  py_finally (λ rt, (outcome, rt)) stop.

(** [P] survives the computation [c], however [c] ends. *)
Definition kept_by {A} (P : LuaAsyncRuntime LuaState Any → Prop)
    (c : py LuaState Any A) : Prop :=
  ∀ rt, P rt → P (snd (c rt)).

(** The interpreter is initialized: [self.lua] is set. *)
Definition initialized (rt : LuaAsyncRuntime LuaState Any) : Prop :=
  is_Some (lua (interpreter rt)).

(** The callback task is a dispatch loop that is alive, and it is one of
    the tasks from number [n] on. *)
Definition loop_running (n : nat) (rt : LuaAsyncRuntime LuaState Any) : Prop :=
  ∃ c, callback_task rt = Some c ∧ loop_ready rt c ∧ n ≤ c.

End lifecycle.

(** ** luafuns_lib.py: the buffer of refresh-state events (lines 702-843) *)

Module Refresh.

Section events.

(** The payload of an event (a dict, or a string). *)
Context {Event : Type}.

(** [{'last': _event_count, 'event': event}], line 788 *)
Record event_with_counter := {
  key_last : Z;
  key_event : Event;
}.

(** The module globals [_events] (oldest first) and [_event_count]. *)
Record globals := {
  _events : list event_with_counter;
  _event_count : Z;
}.

Definition MAX_EVENTS : nat := 1000.

(** [deque.append] on a deque made with [maxlen]: the item is added on the
    right, and the leftmost item is discarded if the deque has grown beyond
    its bound. *)
Definition deque_append {A} (maxlen : nat) (d : list A) (x : A) : list A :=
  let d' := d ++ [x] in
  if decide (maxlen < length d') then drop 1 d' else d'.

(** The state when the module is loaded, lines 705-706. *)
Definition loaded : globals := {| _events := []; _event_count := 0 |}.

(** [addEvent], the block under [_events_lock], lines 786-789.  The Lua
    hook that is called after it runs outside the lock; a hook that adds
    events does so by further calls. *)
Definition addEvent (event : Event) (g : globals) : globals :=
  let n := (_event_count g + 1)%Z in
  {| _events := deque_append MAX_EVENTS (_events g) {| key_last := n; key_event := event |};
     _event_count := n |}.

(** The entries ['events'] and ['last'] of the result of [getEvents]. *)
Record events_result := {
  res_events : list Event;
  res_last : Z;
}.

(** [getEvents], the block under [_events_lock], lines 824-827, and the two
    entries of the result that depend on it, lines 834 and 839, before the
    result is made a Lua table. *)
Definition getEvents (counter : Z) (g : globals) : events_result :=
  let events := _events g in
  let count := match last events with
               | Some e => key_last e
               | None => 0%Z
               end in
  let evs := key_event <$> filter (λ e, (counter < key_last e)%Z) events in
  {| res_events := evs; res_last := count |}.

(** The events [evs] are added one after the other. *)
Definition add_all (evs : list Event) (g : globals) : globals :=
  foldl (λ g event, addEvent event g) g evs.

(** The events numbered from [n + 1] on. *)
Fixpoint numbered (n : Z) (evs : list Event) : list event_with_counter :=
  match evs with
  | [] => []
  | event :: evs' =>
      {| key_last := n + 1; key_event := event |} :: numbered (n + 1) evs'
  end.

End events.

Global Arguments event_with_counter : clear implicits.
Global Arguments globals : clear implicits.
Global Arguments events_result : clear implicits.

End Refresh.

(** ** Python dicts with string keys *)

Module Dict.

(** The items in insertion order.  An assignment to a key that is present
    replaces its value where it stands; a new key goes to the end. *)
Abbreviation dict V := (list (string * V)).

Fixpoint dict_get {V} (k : string) (d : dict V) : option V :=
  match d with
  | [] => None
  | (k', v) :: d' => if decide (k' = k) then Some v else dict_get k d'
  end.

Fixpoint dict_set {V} (k : string) (v : V) (d : dict V) : dict V :=
  match d with
  | [] => [(k, v)]
  | (k', v') :: d' =>
      if decide (k' = k) then (k, v) :: d' else (k', v') :: dict_set k v d'
  end.

Definition keys {V} (d : dict V) : list string := d.*1.

End Dict.

(** ** luafuns_lib.py: the registry of exported functions (class LuaExporter,
    lines 42-176) *)

Module Exporter.

Import Dict.

(** A Python function, as far as [export] looks at it. *)
Record function := {
  __name__ : string;
  __doc__ : option string;
}.

(** The metadata dict of one function, lines 79-83. *)
Record metadata := {
  description : string;
  category : string;
  inject_runtime : bool;
}.

(** The closure [wrapper] of lines 85-96: the function it calls and whether
    it passes the Lua runtime as first argument. *)
Record wrapper := {
  wrapped : function;
  injects_runtime : bool;
}.

Record LuaExporter := {
  exported_functions : dict wrapper;
  function_metadata : dict metadata;
}.

(** [__init__], lines 47-49 *)
Definition new : LuaExporter :=
  {| exported_functions := []; function_metadata := [] |}.

(** [a or b] where [a] is None or a string: the empty string is falsy. *)
Definition or_str (a : option string) (b : string) : string :=
  match a with
  | Some (String c s) => String c s
  | _ => b
  end.

(** [export(name, description, category, inject_runtime)(func)],
    lines 51-102 *)
Definition export (name description : option string) (category : string)
    (inject_runtime : bool) (func : function) (self : LuaExporter) : LuaExporter :=
  let lua_name := match name with Some n => n | None => __name__ func end in
  {| function_metadata :=
       dict_set lua_name
         {| description :=
              or_str description (or_str (__doc__ func) "No description available");
            category := category;
            inject_runtime := inject_runtime |}
         (function_metadata self);
     exported_functions :=
       dict_set lua_name {| wrapped := func; injects_runtime := inject_runtime |}
         (exported_functions self) |}.

(** [list_functions_by_category], lines 163-176 *)
Definition list_functions_by_category (self : LuaExporter) : dict (list string) :=
  foldl
    (λ categories '(func_name, metadata),
       let category := category metadata in
       let categories :=
         match dict_get category categories with
         | None => dict_set category [] categories
         | Some _ => categories
         end in
       dict_set category (default [] (dict_get category categories) ++ [func_name])
         categories)
    [] (function_metadata self).

(** One use of the decorator. *)
Record export_call := {
  call_name : option string;
  call_description : option string;
  call_category : string;
  call_inject_runtime : bool;
  call_func : function;
}.

Definition lua_name (c : export_call) : string :=
  match call_name c with Some n => n | None => __name__ (call_func c) end.

Definition run_export (self : LuaExporter) (c : export_call) : LuaExporter :=
  export (call_name c) (call_description c) (call_category c)
    (call_inject_runtime c) (call_func c) self.

(** The exporter after the decorators of a module were run in order. *)
Definition after_exports (calls : list export_call) : LuaExporter :=
  foldl run_export new calls.

(** The last call that exported under [name]. *)
Definition latest (name : string) (calls : list export_call) : option export_call :=
  last (filter (λ c, lua_name c = name) calls).

(** The names listed under a category: what the grouping loop has built
    after it has gone through the items [md]. *)
Definition grouped (md : dict metadata) : dict (list string) :=
  list_functions_by_category {| exported_functions := []; function_metadata := md |}.

End Exporter.

(** ** interpreter.py: the print function given to Lua and the output
    buffer (lines 53-85 and 415-427) *)

Module LuaPrint.

Import Stdlib.Strings.Ascii.

Section lua_print.

(** [html_extensions.html2console], which is not part of these sources:
    the converted text, or None when the conversion raises. *)
Context (html2console : string → option string).

(** The fields of [LuaInterpreter] that the print function uses, and the
    lines written to [sys.stdout] (oldest first). *)
Record state := {
  output_buffer : list string;
  web_mode : bool;
  printed : list string;
}.

Definition newline : string := String "010"%char EmptyString.

(** [re.search(r'<[^>]+>', output)], line 63: somewhere in the text there is
    a '<', then at least one character that is not '>', then a '>'. *)
Fixpoint contains_gt (s : string) : bool :=
  match s with
  | EmptyString => false
  | String c s' => Ascii.eqb c ">"%char || contains_gt s'
  end.

Definition tag_body (s : string) : bool :=
  match s with
  | EmptyString => false
  | String c s' => negb (Ascii.eqb c ">"%char) && contains_gt s'
  end.

Fixpoint has_html (s : string) : bool :=
  match s with
  | EmptyString => false
  | String c s' => (Ascii.eqb c "<"%char && tag_body s') || has_html s'
  end.

(** [lua_print], lines 53-85; [args] holds [str(arg)] of each
    argument. *)
Definition lua_print (args : list string) (self : state) : state :=
  let output := String.concat " " args in
  let self := {| output_buffer := output_buffer self ++ [output];
                 web_mode := web_mode self; printed := printed self |} in
  if web_mode self then self
  else
    let line := if has_html output then default output (html2console output)
                else output in
    {| output_buffer := output_buffer self; web_mode := web_mode self;
       printed := printed self ++ [line] |}.

(** [clear_output_buffer], lines 415-417 *)
Definition clear_output_buffer (self : state) : state :=
  {| output_buffer := []; web_mode := web_mode self; printed := printed self |}.

(** [get_output_buffer], lines 419-423 *)
Definition get_output_buffer (self : state) : string * state :=
  (String.concat newline (output_buffer self), clear_output_buffer self).

(** [set_web_mode], lines 425-427 *)
Definition set_web_mode (web_mode : bool) (self : state) : state :=
  {| output_buffer := output_buffer self; web_mode := web_mode;
     printed := printed self |}.

(** The calls of the print function [prints], one after the other. *)
Definition print_all (prints : list (list string)) (self : state) : state :=
  foldl (λ self args, lua_print args self) self prints.

(** The line that a call writes to the terminal. *)
Definition terminal_line (args : list string) : string :=
  let output := String.concat " " args in
  if has_html output then default output (html2console output) else output.

End lua_print.

End LuaPrint.

(** ** luafuns_lib.py: from Lua values to Python values ([_lua_to_python],
    lines 345-399) *)

Module LuaToPython.

Import Dict.

Section lua_to_python.

(** Python's floats, and the objects of any other kind that can come out of
    Lua (functions, userdata, ...), with what [str] makes of them.  The
    [str] of a table names its address. *)
Context {float other : Type}.
Context (float_str : float → string) (other_str : other → string)
  (table_str : N → string).

#[local] Unset Elimination Schemes.

(** A value as lupa hands it to Python.  A table is listed with its
    address and its items in the order in which [keys()] gives the keys;
    every key of the table is listed once, with the value that indexing the
    table with this key gives.  Tables are finite and not cyclic here. *)
Inductive lua_value :=
| LuaNone
| LuaBool (b : bool)
| LuaInt (n : Z)
| LuaFloat (x : float)
| LuaStr (s : string)
| LuaTable (address : N) (items : list (lua_value * lua_value))
| LuaOther (o : other).

(** What JSON serialization takes. *)
Inductive py_value :=
| PyNone
| PyBool (b : bool)
| PyInt (n : Z)
| PyFloat (x : float)
| PyStr (s : string)
| PyList (items : list py_value)
| PyDict (items : dict py_value).

#[local] Set Elimination Schemes.

(** [isinstance(k, int)], with the value of the int: [bool] is a subclass
    of [int], and True is 1. *)
Definition is_int (k : lua_value) : option Z :=
  match k with
  | LuaInt n => Some n
  | LuaBool b => Some (if b then 1 else 0)%Z
  | _ => None
  end.

(** [str(key) if not isinstance(key, str) else key], line 382 *)
Definition key_str (key : lua_value) : string :=
  match key with
  | LuaNone => "None"
  | LuaBool b => if b then "True" else "False"
  | LuaInt n => pretty n
  | LuaFloat x => float_str x
  | LuaStr s => s
  | LuaTable address _ => table_str address
  | LuaOther o => other_str o
  end.

(** The int keys with their values, if all keys are ints (line 371). *)
Fixpoint int_keys {V} (items : list (lua_value * V)) : option (list (Z * V)) :=
  match items with
  | [] => Some []
  | (key, value) :: rest =>
      match is_int key, int_keys rest with
      | Some n, Some r => Some ((n, value) :: r)
      | _, _ => None
      end
  end.

(** [sorted(keys)], line 373: the sort is stable. *)
Fixpoint insert_by_key {V} (x : Z * V) (l : list (Z * V)) : list (Z * V) :=
  match l with
  | [] => [x]
  | y :: l' => if decide (x.1 ≤ y.1)%Z then x :: y :: l' else y :: insert_by_key x l'
  end.

Fixpoint sorted {V} (l : list (Z * V)) : list (Z * V) :=
  match l with
  | [] => []
  | x :: l' => insert_by_key x (sorted l')
  end.

(** Lines 379-384: the table as a dict. *)
Definition as_dict (items : list (lua_value * py_value)) : dict py_value :=
  foldl (λ result '(key, value), dict_set (key_str key) value result) [] items.

(** Lines 366-384, on the items with their values already converted. *)
Definition table_to_python (items : list (lua_value * py_value)) : py_value :=
  match int_keys items with
  | Some (k :: ks) =>
      let sorted_keys := sorted (k :: ks) in
      if decide (sorted_keys.*1 = seqZ 1 (Z.of_nat (length sorted_keys)))
      then PyList sorted_keys.*2
      else PyDict (as_dict items)
  | _ => PyDict (as_dict items)
  end.

(** [_lua_to_python], lines 345-399.  The handlers of lines 386-396 are
    for a table interface that fails, which the tables here do not. *)
Fixpoint _lua_to_python (lua_value : lua_value) : py_value :=
  match lua_value with
  | LuaNone => PyNone
  | LuaBool b => PyBool b
  | LuaInt n => PyInt n
  | LuaFloat x => PyFloat x
  | LuaStr s => PyStr s
  | LuaTable _ items =>
      table_to_python
        ((fix convert items :=
            match items with
            | [] => []
            | (key, value) :: rest => (key, _lua_to_python value) :: convert rest
            end) items)
  | LuaOther o => PyStr (other_str o)
  end.

(** The keys of the table are, as ints, the numbers from 1 to the size of
    the table, in any order, and there is at least one. *)
Definition array_like (items : list (lua_value * lua_value)) : Prop :=
  items ≠ []
  ∧ is_int <$> items.*1 ≡ₚ Some <$> seqZ 1 (Z.of_nat (length items)).

End lua_to_python.

End LuaToPython.

(** ** A session for the entry point *)

Module Session.

(** The engine of [Scenario] on the debugger script: the debugger connects
    and the script returns. *)
Definition debugger_engine (s : nat) (debugger_host : string) (debugger_port : Z)
    (debug_logging : bool) : lua_run nat :=
  lua_return (S s) true.

(** The interpreter was initialized on a fresh runtime. *)
Definition initialized_trace : list (action nat nat) :=
  [call_initialize_lua 0].

(** After [Scenario.sleeping_trace]: the delay of timer 1 has ended. *)
Definition expired_trace : list (action nat nat) :=
  Scenario.sleeping_trace ++ [run 1].

(** After [Scenario.queued_trace]: the callback loop has taken both
    callbacks, the first of which failed. *)
Definition dispatched_trace : list (action nat nat) :=
  Scenario.queued_trace ++ [run 0; run 0].

(** The runtime was started and [stop] was called; the cancellation has not
    reached the callback loop (task 0) yet. *)
Definition stopping_trace : list (action nat nat) :=
  [call_start_callback_loop; call_initialize_lua 0; run 0; call_stop].

End Session.

(** * Properties *)

Ltac py_unfold :=
  unfold ghost, print in *;
  unfold py_bind, py_get, py_modify, py_ret, py_raise, py_try, py_finally in *.

Section properties.

Context {LuaState Any : Type}.
Context (lua_execute : LuaState → lua_chunk Any → lua_run LuaState).

Local Abbreviation runtime := (LuaAsyncRuntime LuaState Any).

Implicit Types rt : runtime.
Implicit Types t : Task Any.
Implicit Types h evs : list (event Any).

(** ** Entry points of an interpreter that was not initialized *)

(** C10: on an interpreter whose [lua] is still None, [execute_script],
    [execute_file], [execute_debug_main] and [execute_lua_callback] raise
    RuntimeError; the engine is not entered and nothing of the state
    changes (the state after the call is the state before it). *)
Theorem uninitialized_entry_points_raise rt :
  lua (interpreter rt) = None →
  (∀ script source_name debugging debug,
     execute_script lua_execute script source_name debugging debug rt
     = (Raised (RuntimeError "Lua runtime not initialized. Call initialize() first."), rt))
  ∧ (∀ filepath debugging debug,
       execute_file lua_execute filepath debugging debug rt
       = (Raised (RuntimeError "Lua runtime not initialized. Call initialize() first."), rt))
  ∧ (∀ debug,
       execute_debug_main lua_execute debug rt
       = (Raised (RuntimeError "Lua runtime not initialized."), rt))
  ∧ (∀ callback_id data,
       execute_lua_callback lua_execute callback_id data rt
       = (Raised (RuntimeError "Lua runtime not initialized."), rt)).
Proof.
  intros Hlua. repeat split; intros;
    unfold execute_script, execute_file, execute_debug_main, execute_lua_callback;
    py_unfold; rewrite Hlua; reflexivity.
Qed.

(** ** Timer expiry *)

(** The event loop resumes a sleeping timer task: the rest of its body
    runs and the task is done. *)
Lemma resume_sleeping_timer rt task t timer_id delay_ms p :
  all_tasks rt !! task = Some t →
  coro t = timer_task timer_id delay_ms →
  state t = Suspended p →
  resume lua_execute task rt
  = Some (set_task_state task Finished
            (snd (timer_task_wake task timer_id (must_cancel t) rt))).
Proof. intros Ht Hc Hs. unfold resume. by rewrite Ht, Hs, Hc. Qed.

(** C2: when the sleep of a timer task ends, the task runs on.  If the
    sleep ended with the delay (no cancellation was requested) and the id is
    registered in [timer_tasks], the id is removed, exactly one "timer"
    [CallbackData] with that id is appended to the queue and the semaphore is
    released exactly once.  Otherwise nothing is enqueued and nothing is
    released: that is so when the id is not registered any more, and when
    the sleep ended because [python_cancel_timer] cancelled the task (the
    task then only makes sure that the id is not registered).  Nothing is
    printed in any case. *)
Theorem timer_expiry rt task t timer_id delay_ms p :
  all_tasks rt !! task = Some t →
  coro t = timer_task timer_id delay_ms →
  state t = Suspended p →
  ∃ rt', resume lua_execute task rt = Some rt'
    ∧ stdout rt' = stdout rt
    ∧ if must_cancel t then
        timer_tasks rt' = delete timer_id (timer_tasks rt)
        ∧ callback_queue rt' = callback_queue rt
        ∧ timer_semaphore rt' = timer_semaphore rt
        ∧ history rt' = history rt
      else
        match timer_tasks rt !! timer_id with
        | Some _ =>
            let cb := {| type := "timer"; callback_id := timer_id; data := None |} in
            timer_tasks rt' = delete timer_id (timer_tasks rt)
            ∧ callback_queue rt' = callback_queue rt ++ [cb]
            ∧ timer_semaphore rt' = S (timer_semaphore rt)
            ∧ history rt'
              = ev_release :: ev_put cb :: ev_expire task timer_id true :: history rt
        | None =>
            timer_tasks rt' = timer_tasks rt
            ∧ callback_queue rt' = callback_queue rt
            ∧ timer_semaphore rt' = timer_semaphore rt
            ∧ history rt' = ev_expire task timer_id false :: history rt
        end.
Proof.
  intros Ht Hc Hs. unfold resume. rewrite Ht, Hs, Hc.
  eexists; split; [reflexivity|].
  unfold timer_task_wake, callback_queue_put, timer_semaphore_release, set_task_state.
  py_unfold; simpl.
  destruct (must_cancel t), (timer_tasks rt !! timer_id) as [owner|] eqn:Hlive; simpl;
    rewrite ?Hlive; simpl; rewrite Ht; simpl; auto.
  by rewrite delete_id.
Qed.

(** ** What the host functions do to the state *)

Lemma asyncio_create_task_on_loop (c : coroutine Any) rt :
  asyncio_create_task true c rt
  = (Returned (length (all_tasks rt)),
     set_all_tasks
       (all_tasks rt ++ [{| coro := c; state := Scheduled; must_cancel := false |}]) rt).
Proof. reflexivity. Qed.

Lemma create_timer_on_loop timer_id delay_ms rt :
  create_timer true timer_id delay_ms rt
  = (Returned (length (all_tasks rt)),
     set_history (ev_create timer_id (length (all_tasks rt)) :: history rt)
       (set_timer_tasks (<[timer_id := length (all_tasks rt)]> (timer_tasks rt))
          (set_all_tasks
             (all_tasks rt ++
                [{| coro := timer_task timer_id delay_ms; state := Scheduled;
                    must_cancel := false |}]) rt))).
Proof. reflexivity. Qed.

Lemma ensure_callback_loop_running_on_loop rt :
  _ensure_callback_loop_running true rt = (Returned tt, rt)
  ∨ _ensure_callback_loop_running true rt
    = (Returned tt,
       set_callback_task (Some (length (all_tasks rt)))
         (set_all_tasks
            (all_tasks rt ++
               [{| coro := run_timer_callbacks_loop; state := Scheduled;
                   must_cancel := false |}]) rt)).
Proof.
  unfold _ensure_callback_loop_running. py_unfold.
  destruct (callback_task rt) as [task|]; [destruct (task_done task rt)|]; auto.
Qed.

Lemma ensure_callback_loop_running_off_loop rt :
  snd (_ensure_callback_loop_running false rt) = rt.
Proof.
  unfold _ensure_callback_loop_running. py_unfold.
  destruct (callback_task rt) as [task|]; [destruct (task_done task rt)|]; auto.
Qed.

Lemma task_cancel_cases task rt :
  task_cancel task rt = (Returned tt, rt)
  ∨ ∃ t, all_tasks rt !! task = Some t ∧ done t = false
      ∧ task_cancel task rt
        = (Returned tt,
           set_all_tasks
             (<[task := {| coro := coro t; state := state t; must_cancel := true |}]>
                (all_tasks rt)) rt).
Proof.
  unfold task_cancel. py_unfold.
  destruct (all_tasks rt !! task) as [t|] eqn:Ht; auto.
  destruct (done t) eqn:Hd; eauto.
Qed.

Lemma python_cancel_timer_not_found timer_id rt :
  timer_tasks rt !! timer_id = None →
  python_cancel_timer timer_id rt
  = (Returned false, set_history (ev_cancel timer_id None :: history rt) rt).
Proof. intros H. unfold python_cancel_timer. py_unfold. by rewrite H. Qed.

Lemma python_cancel_timer_found_eq timer_id task rt :
  timer_tasks rt !! timer_id = Some task →
  python_cancel_timer timer_id rt
  = (Returned true,
     let rt1 := snd (task_cancel task rt) in
     set_history (ev_cancel timer_id (Some task) :: history rt1)
       (set_timer_tasks (delete timer_id (timer_tasks rt1)) rt1)).
Proof.
  intros H. unfold python_cancel_timer. py_unfold. rewrite H.
  unfold task_done, task_cancel. py_unfold.
  destruct (all_tasks rt !! task) as [t|] eqn:Ht; simpl; [|done].
  destruct (done t) eqn:Hd; simpl; [done|].
  by rewrite Ht, Hd.
Qed.

Lemma python_cancel_timer_returns timer_id rt :
  ∃ found, fst (python_cancel_timer timer_id rt) = Returned found.
Proof.
  destruct (timer_tasks rt !! timer_id) as [task|] eqn:H.
  - rewrite (python_cancel_timer_found_eq _ _ _ H). eauto.
  - rewrite (python_cancel_timer_not_found _ _ H). eauto.
Qed.

Lemma python_timer_on_loop timer_id delay_ms rt :
  python_timer true timer_id delay_ms rt
  = create_timer true timer_id delay_ms (snd (_ensure_callback_loop_running true rt)).
Proof.
  unfold python_timer, py_bind.
  by destruct (ensure_callback_loop_running_on_loop rt) as [-> | ->].
Qed.

(** ** Stability under script activity *)

Section stable.

Context (P : runtime → Prop) (HP : host_stable P).

Lemma python_timer_stable timer_id delay_ms rt :
  P rt → P (snd (python_timer true timer_id delay_ms rt)).
Proof using HP.
  intros H. rewrite python_timer_on_loop.
  apply (stable_create_timer P HP).
  destruct (ensure_callback_loop_running_on_loop rt) as [-> | ->]; simpl; [done|].
  by apply (stable_start_loop P HP).
Qed.

Lemma run_lua_stable r rt : P rt → P (snd (run_lua r rt)).
Proof using HP.
  revert rt. induction r as [s v|s msg|timer_id delay_ms k IH|timer_id k IH];
    intros rt H; simpl.
  - by apply (stable_set_lua P HP).
  - by apply (stable_set_lua P HP).
  - unfold py_bind.
    pose proof (python_timer_stable timer_id delay_ms rt H) as H'.
    rewrite python_timer_on_loop in *. rewrite create_timer_on_loop in *.
    simpl in *. by apply IH.
  - unfold py_bind.
    pose proof (stable_cancel_timer P HP timer_id rt H) as H'.
    destruct (python_cancel_timer_returns timer_id rt) as [found Hf].
    destruct (python_cancel_timer timer_id rt) as [res rt1]. simpl in *. subst res.
    by apply IH.
Qed.

Lemma run_lua_not_cancelled r rt : fst (run_lua r rt) ≠ Raised CancelledError.
Proof.
  revert rt. induction r as [s v|s msg|timer_id delay_ms k IH|timer_id k IH];
    intros rt; simpl; try done.
  - unfold py_bind. rewrite python_timer_on_loop, create_timer_on_loop. apply IH.
  - unfold py_bind.
    destruct (python_cancel_timer_returns timer_id rt) as [found Hf].
    destruct (python_cancel_timer timer_id rt) as [res rt1]. simpl in *. subst res.
    apply IH.
Qed.

Lemma lua_runtime_execute_stable s chunk rt :
  P rt → P (snd (lua_runtime_execute lua_execute s chunk rt)).
Proof using HP. apply run_lua_stable. Qed.

Lemma initialize_stable s0 rt : P rt → P (snd (initialize lua_execute s0 rt)).
Proof using HP.
  intros H. unfold initialize. py_unfold.
  pose proof (lua_runtime_execute_stable s0 chunk_init _ (stable_set_lua P HP (Some s0) rt H)).
  destruct (lua_runtime_execute _ _ _ _) as [[]]; done.
Qed.

Lemma execute_lua_callback_stable callback_id data rt :
  P rt → P (snd (execute_lua_callback lua_execute callback_id data rt)).
Proof using HP.
  intros H. unfold execute_lua_callback. py_unfold.
  destruct (lua (interpreter rt)) as [s|]; [|done].
  pose proof (lua_runtime_execute_stable s (chunk_execute_callback callback_id data) rt H).
  destruct (lua_runtime_execute _ _ _ _) as [[]]; done.
Qed.

Lemma execute_script_stable script source_name debugging debug rt :
  P rt → P (snd (execute_script lua_execute script source_name debugging debug rt)).
Proof using HP.
  intros H. unfold execute_script. py_unfold.
  destruct (lua (interpreter rt)) as [s|]; [|done].
  destruct source_name as [[|c n]|].
  - pose proof (lua_runtime_execute_stable s (chunk_run_wrapped script) rt H).
    destruct (lua_runtime_execute _ _ _ _) as [[]]; done.
  - destruct debug; simpl.
    + match goal with |- context [lua_runtime_execute _ _ ?c ?r] =>
        pose proof (lua_runtime_execute_stable s c r
                      (stable_print_text P HP _ rt H)) end.
      destruct (lua_runtime_execute _ _ _ _) as [[]]; done.
    + match goal with |- context [lua_runtime_execute _ _ ?c ?r] =>
        pose proof (lua_runtime_execute_stable s c r H) end.
      destruct (lua_runtime_execute _ _ _ _) as [[]]; done.
  - pose proof (lua_runtime_execute_stable s (chunk_run_wrapped script) rt H).
    destruct (lua_runtime_execute _ _ _ _) as [[]]; done.
Qed.

Lemma execute_file_stable filepath debugging debug rt :
  P rt → P (snd (execute_file lua_execute filepath debugging debug rt)).
Proof using HP.
  intros H. unfold execute_file. py_unfold.
  destruct (lua (interpreter rt)) as [s|]; [|done].
  pose proof (lua_runtime_execute_stable s (chunk_main_file_hook filepath) rt H).
  destruct (lua_runtime_execute _ _ _ _) as [[|e]]; simpl; [done|].
  destruct (is_Exception e); done.
Qed.

Lemma execute_debug_main_stable debug rt :
  P rt → P (snd (execute_debug_main lua_execute debug rt)).
Proof using HP.
  intros H. unfold execute_debug_main. py_unfold.
  destruct (lua (interpreter rt)) as [s|]; [|done].
  destruct debug; simpl.
  - pose proof (lua_runtime_execute_stable s chunk_check_debug_main _
                  (stable_print_text P HP "Checking for debug main function..." rt H))
      as H2.
    destruct (lua_runtime_execute _ _ _ _) as [[has|e] rt2]; simpl in *; [|done].
    destruct has; simpl; [|by apply (stable_print_text P HP)].
    destruct (lua rt2.(interpreter)) as [s'|]; [|by apply (stable_print_text P HP)].
    pose proof (lua_runtime_execute_stable s' (chunk_execute_debug_main true) _
                  (stable_print_text P HP "Executing debug main function..." rt2 H2)).
    destruct (lua_runtime_execute _ _ _ _) as [[]]; done.
  - pose proof (lua_runtime_execute_stable s chunk_check_debug_main rt H) as H2.
    destruct (lua_runtime_execute _ _ _ _) as [[has|e] rt2]; simpl in *; [|done].
    destruct has; simpl; [|done].
    destruct (lua rt2.(interpreter)) as [s'|]; [|done].
    pose proof (lua_runtime_execute_stable s' (chunk_execute_debug_main false) rt2 H2).
    destruct (lua_runtime_execute _ _ _ _) as [[]]; done.
Qed.

End stable.

(** ** Events of the host functions do not show in the observations *)

Lemma host_events_observed evs h :
  host_events evs →
  puts (evs ++ h) = puts h ∧ gets (evs ++ h) = gets h
  ∧ invoked (evs ++ h) = invoked h ∧ failures (evs ++ h) = failures h
  ∧ in_flight (evs ++ h) = in_flight h.
Proof.
  induction 1 as [|e evs He _ IH]; [done|].
  destruct IH as (?&?&?&?&?).
  destruct e; try discriminate He; simpl; auto.
Qed.

Lemma serial_in_flight h : serial h = true → in_flight h ≤ 1.
Proof.
  destruct h as [|e h]; simpl; [lia|].
  intros [H _]%andb_true_iff. by apply Nat.leb_le in H.
Qed.

Lemma host_events_serial evs h :
  host_events evs → serial h = true → serial (evs ++ h) = true.
Proof.
  intros Hevs Hs. induction Hevs as [|e evs He Hevs IH]; [done|].
  change ((in_flight ((e :: evs) ++ h) <=? 1) && serial (evs ++ h) = true).
  rewrite IH, andb_true_r. apply Nat.leb_le.
  destruct (host_events_observed (e :: evs) h) as (_&_&_&_&->); [by constructor|].
  by apply serial_in_flight.
Qed.

Lemma host_events_paired evs h : host_events evs → paired h → paired (evs ++ h).
Proof.
  intros Hevs Hp. induction Hevs as [|e evs He Hevs IH]; [done|].
  simpl. apply paired_other; [|done]. by destruct e.
Qed.

Lemma quiet_refl rt : quiet rt rt.
Proof. repeat split. exists []. split; [done|constructor]. Qed.

Lemma quiet_host_event rt0 rt rt' e :
  quiet rt0 rt →
  history rt' = e :: history rt →
  is_host_event e = true →
  timer_semaphore rt' = timer_semaphore rt →
  callback_queue rt' = callback_queue rt →
  stdout rt' = stdout rt →
  quiet rt0 rt'.
Proof.
  intros (Hs & Hq & Ho & evs & Hh & Hevs) Hh' He Hs' Hq' Ho'.
  repeat split; try congruence.
  exists (e :: evs). split; [by rewrite Hh', Hh|by constructor].
Qed.

Lemma quiet_same rt0 rt rt' :
  quiet rt0 rt →
  timer_semaphore rt' = timer_semaphore rt →
  callback_queue rt' = callback_queue rt →
  reported (stdout rt') = reported (stdout rt) →
  history rt' = history rt →
  quiet rt0 rt'.
Proof.
  intros (Hs & Hq & Ho & evs & Hh & Hevs) Hs' Hq' Ho' Hh'.
  repeat split; try congruence. exists evs. by rewrite Hh'.
Qed.

Lemma quiet_stable rt0 : host_stable (quiet rt0).
Proof.
  split.
  - intros l rt H. eapply quiet_same; [exact H|..]; done.
  - intros s rt H. eapply quiet_same; [exact H|..]; done.
  - intros rt H. eapply quiet_same; [exact H|..]; done.
  - intros timer_id delay_ms rt H. rewrite create_timer_on_loop. simpl.
    eapply quiet_host_event; [exact H|..]; done.
  - intros timer_id rt H.
    destruct (timer_tasks rt !! timer_id) as [task|] eqn:Hl.
    + rewrite (python_cancel_timer_found_eq _ _ _ Hl). simpl.
      destruct (task_cancel_cases task rt) as [-> | (t & _ & _ & ->)]; simpl;
        (eapply quiet_host_event; [exact H|..]; done).
    + rewrite (python_cancel_timer_not_found _ _ Hl). simpl.
      eapply quiet_host_event; [exact H|..]; done.
Qed.

Lemma task_ok_new (c : coroutine Any) :
  (∀ cb, c = _queue_callback cb → valid_type cb) → task_ok (new_task c).
Proof. by split. Qed.

Lemma task_ok_cancel t :
  task_ok t → task_ok {| coro := coro t; state := state t; must_cancel := true |}.
Proof. by intros []. Qed.

Lemma task_ok_state t s :
  task_ok t → s ≠ Suspended await_get →
  task_ok {| coro := coro t; state := s; must_cancel := must_cancel t |}.
Proof. by intros [] ?. Qed.

Lemma tasks_ok_keeps_stable rt0 : host_stable (λ rt, tasks_ok rt ∧ keeps rt0 rt).
Proof.
  split.
  - intros l rt H. exact H.
  - intros s rt H. exact H.
  - intros rt [[Hg Ht] Hk]. split; [split|]; simpl.
    + intros task t [H | [_ H]]%lookup_app_Some; [by eapply Hg|].
      apply list_lookup_singleton_Some in H as [_ <-]. by apply task_ok_new.
    + intros timer_id task (t & d & H & Hc)%Ht.
      exists t, d. split; [by apply lookup_app_l_Some|done].
    + intros task t H Hn. apply lookup_app_l_Some. by apply Hk.
  - intros timer_id delay_ms rt [[Hg Ht] Hk]. rewrite create_timer_on_loop.
    split; [split|]; simpl.
    + intros task t [H | [_ H]]%lookup_app_Some; [by eapply Hg|].
      apply list_lookup_singleton_Some in H as [_ <-]. by apply task_ok_new.
    + intros i task [[-> <-] | [Hne H]]%lookup_insert_Some.
      * exists (new_task (timer_task i delay_ms)), delay_ms. split; [|reflexivity].
        rewrite lookup_app_r by lia. by rewrite Nat.sub_diag.
      * apply Ht in H as (t & d & H & Hc).
        exists t, d. split; [by apply lookup_app_l_Some|done].
    + intros task t H Hn. apply lookup_app_l_Some. by apply Hk.
  - intros timer_id rt [[Hg Ht] Hk].
    destruct (timer_tasks rt !! timer_id) as [task|] eqn:Hl.
    + rewrite (python_cancel_timer_found_eq _ _ _ Hl). simpl.
      destruct (task_cancel_cases task rt) as [-> | (t & Htask & _ & ->)];
        unfold tasks_ok, keeps; simpl.
      * split; [split|]; [done| |done].
        intros i task' [_ H]%lookup_delete_Some. by apply Ht.
      * destruct (Ht _ _ Hl) as (t' & d & Ht' & Hc).
        assert (t' = t) as -> by congruence.
        split; [split|].
        -- intros i ti [(<- & <- & _) | [Hne H]]%list_lookup_insert_Some; simpl.
           ++ by eapply task_ok_cancel, Hg.
           ++ by eapply Hg.
        -- intros i task' [Hne H]%lookup_delete_Some.
           apply Ht in H as (ti & di & H & Hci).
           destruct (decide (task = task')) as [<- | Hne'].
           ++ eexists _, di. split.
              ** apply list_lookup_insert_eq. by eapply lookup_lt_Some.
              ** simpl. congruence.
           ++ exists ti, di. by rewrite list_lookup_insert_ne.
        -- intros i ti H Hn.
           destruct (decide (task = i)) as [<- | Hne'].
           ++ pose proof (Hk _ _ H Hn) as H'. assert (ti = t) as -> by congruence.
              rewrite Hc in Hn. done.
           ++ rewrite list_lookup_insert_ne by done. by apply Hk.
    + rewrite (python_cancel_timer_not_found _ _ Hl). simpl. done.
Qed.

Lemma keeps_refl rt : keeps rt rt.
Proof. by intros task t H _. Qed.

Lemma host_stable_and (P Q : runtime → Prop) :
  host_stable P → host_stable Q → host_stable (λ rt, P rt ∧ Q rt).
Proof.
  intros HP HQ. split.
  - intros l rt [??]. split; [by apply (stable_set_lua P)|by apply (stable_set_lua Q)].
  - intros s rt [??].
    split; [by apply (stable_print_text P)|by apply (stable_print_text Q)].
  - intros rt [??].
    split; [by apply (stable_start_loop P)|by apply (stable_start_loop Q)].
  - intros i d rt [??].
    split; [by apply (stable_create_timer P)|by apply (stable_create_timer Q)].
  - intros i rt [??].
    split; [by apply (stable_cancel_timer P)|by apply (stable_cancel_timer Q)].
Qed.

(** ** One engine invocation *)

Lemma execute_lua_callback_effect callback_id data rt :
  tasks_ok rt →
  let res := execute_lua_callback lua_execute callback_id data rt in
  quiet rt (snd res) ∧ tasks_ok (snd res) ∧ keeps rt (snd res)
  ∧ fst res ≠ Raised CancelledError.
Proof.
  intros Hok res. split; [|split; [|split]].
  - apply execute_lua_callback_stable; [apply quiet_stable|apply quiet_refl].
  - by apply (execute_lua_callback_stable _ (tasks_ok_keeps_stable rt) callback_id data rt
                (conj Hok (keeps_refl rt))).
  - by apply (execute_lua_callback_stable _ (tasks_ok_keeps_stable rt) callback_id data rt
                (conj Hok (keeps_refl rt))).
  - unfold res, execute_lua_callback. py_unfold.
    destruct (lua (interpreter rt)) as [s|]; [|done].
    pose proof (run_lua_not_cancelled (lua_execute s (chunk_execute_callback callback_id data)) rt).
    unfold lua_runtime_execute.
    destruct (run_lua _ _) as [[|e]]; simpl in *; [done|].
    intros [= ->]. done.
Qed.

Lemma invoke_effect callback_id data rt :
  tasks_ok rt →
  let rt0 := set_history (ev_invoke callback_id :: history rt) rt in
  let res := execute_lua_callback lua_execute callback_id data rt0 in
  let r := match fst res with Raised e => Some e | Returned _ => None end in
  ∃ evs,
    invoke lua_execute callback_id data rt
    = (fst res, set_history (ev_invoke_end callback_id r :: history (snd res)) (snd res))
    ∧ history (snd res) = evs ++ ev_invoke callback_id :: history rt
    ∧ host_events evs
    ∧ timer_semaphore (snd res) = timer_semaphore rt
    ∧ callback_queue (snd res) = callback_queue rt
    ∧ reported (stdout (snd res)) = reported (stdout rt)
    ∧ tasks_ok (snd res) ∧ keeps rt (snd res)
    ∧ fst res ≠ Raised CancelledError.
Proof.
  intros Hok rt0 res r.
  destruct (execute_lua_callback_effect callback_id data rt0 Hok)
    as ((Hs & Hq & Ho & evs & Hh & Hevs) & Hok' & Hk & Hne).
  exists evs. fold res in Hs, Hq, Ho, Hh, Hok', Hk, Hne |- *.
  split; [|done].
  unfold invoke. py_unfold. fold rt0. fold res. unfold r.
  by destruct res as [[[]|e] rt1].
Qed.

Lemma dispatch_effect cb rt :
  valid_type cb → tasks_ok rt →
  let rt0 := set_history (ev_invoke (callback_id cb) :: history rt) rt in
  let res := execute_lua_callback lua_execute (callback_id cb) (dispatched_data cb) rt0 in
  let r := match fst res with Raised e => Some e | Returned _ => None end in
  ∃ rt' evs,
    dispatch lua_execute cb rt = (Returned tt, rt')
    ∧ history rt' = ev_invoke_end (callback_id cb) r :: evs
                      ++ ev_invoke (callback_id cb) :: history rt
    ∧ host_events evs
    ∧ timer_semaphore rt' = timer_semaphore rt
    ∧ callback_queue rt' = callback_queue rt
    ∧ reported (stdout rt')
      = match r with Some e => [(callback_id cb, e)] | None => [] end
          ++ reported (stdout rt)
    ∧ tasks_ok rt' ∧ keeps rt rt'
    ∧ rt' = (let rt1 := set_history (ev_invoke_end (callback_id cb) r
                                       :: history (snd res)) (snd res) in
             match r with
             | Some e => set_stdout (out_callback_error (callback_id cb) e
                                       :: stdout rt1) rt1
             | None => rt1
             end).
Proof.
  intros Hty Hok rt0 res r.
  destruct (invoke_effect (callback_id cb) (dispatched_data cb) rt Hok)
    as (evs & Hinv & Hh & Hevs & Hs & Hq & Ho & Hok' & Hk & Hne).
  fold rt0 in Hinv, Hh, Hs, Hq, Ho, Hok', Hk, Hne.
  fold res in Hinv, Hh, Hs, Hq, Ho, Hok', Hk, Hne. fold r in Hinv.
  assert (dispatch lua_execute cb rt
          = py_try (invoke lua_execute (callback_id cb) (dispatched_data cb))
              is_Exception
              (λ e, print (out_callback_error (callback_id cb) e)) rt) as ->.
  { unfold dispatch, dispatched_data, py_try.
    destruct Hty as [-> | ->]; reflexivity. }
  unfold py_try. rewrite Hinv. unfold r in *.
  destruct res as [[[]|e] rt1]; simpl in *.
  - eexists _, evs. split; [reflexivity|]. simpl. by rewrite Hh.
  - destruct e; try done; simpl;
      (eexists _, evs; split; [reflexivity|]; simpl; rewrite Hh, Ho; done).
Qed.

(** ** The protocol invariant is kept by every step *)

Lemma inv_init : inv (@init LuaState Any).
Proof.
  split; try done; constructor; done.
Qed.

Lemma inv_quiet rt rt' : inv rt → quiet rt rt' → tasks_ok rt' → inv rt'.
Proof.
  intros [] (Hs & Hq & Ho & evs & Hh & Hevs) Hok.
  destruct (host_events_observed evs (history rt) Hevs) as (Hp & Hg & Hi & Hf & Hn).
  split; rewrite ?Hs, ?Hq, ?Ho, ?Hh, ?Hp, ?Hg, ?Hi, ?Hf, ?Hn; try done.
  - by apply host_events_paired.
  - by apply host_events_serial.
Qed.

Lemma inv_tasks_only rt rt' :
  inv rt →
  timer_semaphore rt' = timer_semaphore rt →
  callback_queue rt' = callback_queue rt →
  stdout rt' = stdout rt →
  history rt' = history rt →
  tasks_ok rt' →
  inv rt'.
Proof.
  intros Hinv Hs Hq Ho Hh Hok. apply (inv_quiet rt); [done| |done].
  repeat split; try congruence. exists []. split; [done|constructor].
Qed.

Lemma inv_stable : host_stable (inv : runtime → Prop).
Proof.
  pose proof (λ rt, host_stable_and _ _ (quiet_stable rt) (tasks_ok_keeps_stable rt)) as HS.
  assert (∀ rt, inv rt → quiet rt rt ∧ tasks_ok rt ∧ keeps rt rt) as Hstart.
  { intros rt []. split; [apply quiet_refl|split; [done|apply keeps_refl]]. }
  assert (∀ rt rt', inv rt → quiet rt rt' ∧ tasks_ok rt' ∧ keeps rt rt' → inv rt') as Hend.
  { intros rt rt' Hinv (? & ? & _). by apply (inv_quiet rt). }
  split.
  - intros l rt H. apply (Hend rt _ H), (stable_set_lua _ (HS rt)), Hstart, H.
  - intros s rt H. apply (Hend rt _ H), (stable_print_text _ (HS rt)), Hstart, H.
  - intros rt H. apply (Hend rt _ H), (stable_start_loop _ (HS rt)), Hstart, H.
  - intros i d rt H. apply (Hend rt _ H), (stable_create_timer _ (HS rt)), Hstart, H.
  - intros i rt H. apply (Hend rt _ H), (stable_cancel_timer _ (HS rt)), Hstart, H.
Qed.

Lemma tasks_ok_set_task_state task s rt :
  tasks_ok rt → s ≠ Suspended await_get → tasks_ok (set_task_state task s rt).
Proof.
  intros [Hg Ht] Hs. unfold set_task_state.
  destruct (all_tasks rt !! task) as [t|] eqn:Htask; [|done].
  split; simpl.
  - intros i ti [(<- & <- & _) | [Hne H]]%list_lookup_insert_Some;
      [|by eapply Hg].
    apply task_ok_state; [by eapply Hg|done].
  - intros timer_id i (ti & d & H & Hc)%Ht.
    destruct (decide (task = i)) as [<- | Hne].
    + eexists _, d. split.
      * apply list_lookup_insert_eq. by eapply lookup_lt_Some.
      * simpl. congruence.
    + exists ti, d. by rewrite list_lookup_insert_ne.
Qed.

Lemma inv_set_task_state task s rt :
  inv rt → s ≠ Suspended await_get → inv (set_task_state task s rt).
Proof.
  intros Hinv Hs. apply (inv_tasks_only rt); try done.
  1-4: unfold set_task_state; by destruct (all_tasks rt !! task).
  apply tasks_ok_set_task_state; [apply Hinv|done].
Qed.

Lemma inv_enqueue cb rt :
  inv rt → valid_type cb → inv (snd (queue_callback_body cb rt)).
Proof.
  intros [] Hty. unfold queue_callback_body, callback_queue_put, timer_semaphore_release.
  py_unfold. split; simpl; try done.
  - rewrite length_app. simpl. lia.
  - apply Forall_app. split; [done|by constructor].
  - rewrite inv_fifo0. by rewrite <-app_assoc.
  - by constructor.
  - by rewrite inv_in_flight0.
Qed.

Lemma inv_ghost_expire task timer_id live rt :
  inv rt → inv (set_history (ev_expire task timer_id live :: history rt) rt).
Proof.
  intros []. split; simpl; try done.
  - by apply paired_other.
  - by rewrite inv_in_flight0.
Qed.

Lemma inv_delete_timer timer_id rt :
  inv rt → inv (set_timer_tasks (delete timer_id (timer_tasks rt)) rt).
Proof.
  intros Hinv. apply (inv_tasks_only rt); try done.
  destruct Hinv as [_ [Hg Ht] _ _ _ _ _ _ _]. split; simpl; [done|].
  intros i task [_ H]%lookup_delete_Some. by apply Ht.
Qed.

Lemma inv_task_cancel task rt : inv rt → inv (snd (task_cancel task rt)).
Proof.
  intros Hinv.
  destruct (task_cancel_cases task rt) as [-> | (t & Htask & _ & ->)]; [done|].
  apply (inv_tasks_only rt); try done.
  destruct Hinv as [_ [Hg Ht] _ _ _ _ _ _ _]. split; simpl.
  - intros i ti [(<- & <- & _) | [Hne H]]%list_lookup_insert_Some;
      [by eapply task_ok_cancel, Hg|by eapply Hg].
  - intros timer_id i (ti & d & H & Hc)%Ht.
    destruct (decide (task = i)) as [<- | Hne].
    + eexists _, d. split.
      * apply list_lookup_insert_eq. by eapply lookup_lt_Some.
      * simpl. congruence.
    + exists ti, d. by rewrite list_lookup_insert_ne.
Qed.

Lemma inv_spawn c rt :
  inv rt → (∀ cb, c = _queue_callback cb → valid_type cb) →
  inv (set_all_tasks (all_tasks rt ++ [new_task c]) rt).
Proof.
  intros Hinv Hcb. apply (inv_tasks_only rt); try done.
  destruct Hinv as [_ [Hg Ht] _ _ _ _ _ _ _]. split; simpl.
  - intros task t [H | [_ H]]%lookup_app_Some; [by eapply Hg|].
    apply list_lookup_singleton_Some in H as [_ <-]. by apply task_ok_new.
  - intros timer_id task (t & d & H & Hc)%Ht.
    exists t, d. split; [by apply lookup_app_l_Some|done].
Qed.

(** ** Every step keeps the invariant and is a change of the timer view *)

Lemma timer_change_same rt0 rt rt' :
  timer_change (timer_view rt0) (timer_view rt) →
  timer_tasks rt' = timer_tasks rt → history rt' = history rt →
  timer_change (timer_view rt0) (timer_view rt').
Proof. unfold timer_view. by intros H -> ->. Qed.

Lemma timer_change_others evs rt0 rt rt' :
  timer_change (timer_view rt0) (timer_view rt) →
  Forall (λ e, is_timer_event e = false) evs →
  timer_tasks rt' = timer_tasks rt → history rt' = evs ++ history rt →
  timer_change (timer_view rt0) (timer_view rt').
Proof.
  unfold timer_view. intros H Hevs -> ->.
  induction Hevs as [|e evs He _ IH]; [done|].
  eapply tc_step; [exact IH|by constructor].
Qed.

Lemma timer_change_trans (v1 v2 v3 : gmap Z nat * list (event Any)) :
  timer_change v1 v2 → timer_change v2 v3 → timer_change v1 v3.
Proof.
  intros H12 H23. induction H23 as [|v2 v3 v4 _ IH Hstep]; [done|].
  eapply tc_step; [by apply IH|done].
Qed.

Lemma timer_change_stable rt0 :
  host_stable (λ rt, timer_change (timer_view rt0) (timer_view rt)).
Proof.
  split.
  - intros l rt H. by eapply timer_change_same.
  - intros s rt H. by eapply timer_change_same.
  - intros rt H. by eapply timer_change_same.
  - intros timer_id delay_ms rt H. rewrite create_timer_on_loop.
    eapply tc_step; [exact H|]. apply tc_create.
  - intros timer_id rt H.
    destruct (timer_tasks rt !! timer_id) as [task|] eqn:Hl.
    + rewrite (python_cancel_timer_found_eq _ _ _ Hl).
      eapply tc_step; [exact H|].
      destruct (task_cancel_cases task rt) as [-> | (t & _ & _ & ->)];
        unfold timer_view; simpl; by apply tc_cancel_found.
    + rewrite (python_cancel_timer_not_found _ _ Hl).
      eapply tc_step; [exact H|]. by apply tc_cancel_missed.
Qed.

Lemma good_stable rt0 : host_stable (good rt0).
Proof. apply host_stable_and; [apply inv_stable|apply timer_change_stable]. Qed.

Lemma good_set_task_state rt0 task s rt :
  good rt0 rt → s ≠ Suspended await_get → good rt0 (set_task_state task s rt).
Proof.
  intros [Hinv Htc] Hs. split; [by apply inv_set_task_state|].
  eapply timer_change_same; [exact Htc|..];
    unfold set_task_state; by destruct (all_tasks rt !! task).
Qed.

Lemma good_enqueue rt0 cb rt :
  good rt0 rt → valid_type cb → good rt0 (snd (queue_callback_body cb rt)).
Proof.
  intros [Hinv Htc] Hty. split; [by apply inv_enqueue|].
  eapply (timer_change_others [ev_release; ev_put cb]); [exact Htc| |done..].
  by repeat constructor.
Qed.

Lemma timer_task_wake_eq task timer_id cancelled rt :
  snd (timer_task_wake task timer_id cancelled rt)
  = if cancelled then
      match timer_tasks rt !! timer_id with
      | Some _ => set_timer_tasks (delete timer_id (timer_tasks rt)) rt
      | None => rt
      end
    else
      match timer_tasks rt !! timer_id with
      | Some _ =>
          let rt1 := snd (queue_callback_body
                            {| type := "timer"; callback_id := timer_id; data := None |}
                            (set_history (ev_expire task timer_id true :: history rt) rt)) in
          set_timer_tasks (delete timer_id (timer_tasks rt1)) rt1
      | None => set_history (ev_expire task timer_id false :: history rt) rt
      end.
Proof.
  unfold timer_task_wake, queue_callback_body, callback_queue_put,
    timer_semaphore_release. py_unfold.
  destruct cancelled; simpl; destruct (timer_tasks rt !! timer_id) eqn:Hl; simpl;
    rewrite ?Hl; done.
Qed.

Lemma good_timer_task_wake rt0 task timer_id cancelled rt :
  good rt0 rt → good rt0 (snd (timer_task_wake task timer_id cancelled rt)).
Proof.
  intros [Hinv Htc]. rewrite timer_task_wake_eq.
  destruct cancelled, (timer_tasks rt !! timer_id) as [owner|] eqn:Hl.
  - split; [by apply inv_delete_timer|]. eapply tc_step; [exact Htc|]. apply tc_cleanup.
  - done.
  - split.
    + apply inv_delete_timer, inv_enqueue; [by apply inv_ghost_expire|by left].
    + eapply (timer_change_others [ev_release; ev_put _] rt0
                (set_timer_tasks (delete timer_id (timer_tasks rt))
                   (set_history (ev_expire task timer_id true :: history rt) rt)));
        [|by repeat constructor|done..].
      eapply tc_step; [exact Htc|]. by eapply tc_expire_live.
  - split; [by apply inv_ghost_expire|].
    eapply tc_step; [exact Htc|]. by apply tc_expire_dead.
Qed.

Lemma dispatch_history_observed callback_id r evs cb h :
  host_events evs →
  let h' := ev_invoke_end callback_id r :: evs
              ++ ev_invoke callback_id :: ev_get cb :: ev_acquire :: h in
  puts h' = puts h ∧ gets h' = cb :: gets h
  ∧ invoked h' = callback_id :: invoked h
  ∧ failures h' = match r with Some e => [(callback_id, e)] | None => [] end ++ failures h
  ∧ in_flight h' = in_flight h
  ∧ (in_flight h = 0 → serial h = true → serial h' = true)
  ∧ (paired h → paired h').
Proof.
  intros Hevs h'.
  destruct (host_events_observed evs
              (ev_invoke callback_id :: ev_get cb :: ev_acquire :: h) Hevs)
    as (Hp & Hg & Hi & Hf & Hn).
  unfold h'. repeat split.
  - exact Hp.
  - exact Hg.
  - exact Hi.
  - destruct r; exact (f_equal _ Hf) || exact Hf.
  - simpl. by rewrite Hn.
  - intros H0 Hs.
    change (serial (ev_invoke_end callback_id r :: ?l))
      with ((in_flight (ev_invoke_end callback_id r :: l) <=? 1) && serial l).
    rewrite host_events_serial; [|done|]; simpl; rewrite ?Hn; simpl; by rewrite H0.
  - intros Hp'. apply paired_other; [done|].
    apply host_events_paired; [done|]. by repeat (apply paired_other; [done|]).
Qed.

(** One iteration of the dispatch loop, when the loop is at its acquire. *)
Lemma loop_iteration_good rt0 task rt :
  good rt0 rt →
  match callback_queue rt with
  | [] => loop_iteration lua_execute task rt = None
  | cb :: q =>
      let rt_invoke :=
        set_history (ev_invoke (callback_id cb) :: ev_get cb :: ev_acquire :: history rt)
          (set_callback_queue q (set_timer_semaphore (length q) rt)) in
      let res := execute_lua_callback lua_execute (callback_id cb)
                   (dispatched_data cb) rt_invoke in
      let r := match fst res with Raised e => Some e | Returned _ => None end in
      ∃ rt1,
        loop_iteration lua_execute task rt
        = Some (set_task_state task (Suspended await_acquire) rt1)
        ∧ good rt0 rt1
        ∧ callback_queue rt1 = q
        ∧ keeps rt rt1
        ∧ gets (history rt1) = cb :: gets (history rt)
        ∧ reported (stdout rt1)
          = match r with Some e => [(callback_id cb, e)] | None => [] end
              ++ reported (stdout rt)
  end.
Proof.
  intros [Hinv Htc]. pose proof Hinv as [Hsem Hok Hty Hfifo Hpair Hfl Hser Hinvk Hrep].
  destruct (callback_queue rt) as [|cb q] eqn:Hq.
  { unfold loop_iteration. by rewrite Hsem. }
  intros rt_invoke res r.
  apply Forall_cons in Hty as [Hcb Hty].
  set (rt2 := set_history (ev_get cb :: ev_acquire :: history rt)
                (set_callback_queue q (set_timer_semaphore (length q) rt))).
  assert (tasks_ok rt2) as Hok2 by exact Hok.
  destruct (dispatch_effect cb rt2 Hcb Hok2)
    as (rt1 & evs & Hd & Hh & Hevs & Hs1 & Hq1 & Ho1 & Hok1 & Hk1 & Heq).
  exists rt1.
  destruct (dispatch_history_observed (callback_id cb) r evs cb (history rt) Hevs)
    as (Hp & Hg & Hi & Hf & Hn & Hs & Hpa).
  change (set_history _ rt2) with rt_invoke in Hh, Heq. fold res in Hh, Heq. fold r in Hh, Heq.
  simpl in Hh, Hs1, Hq1, Ho1.
  split; [|split; [split|]].
  - unfold loop_iteration. rewrite Hsem. simpl. py_unfold. simpl. rewrite Hq.
    change (set_history _ _) with rt2. by rewrite Hd.
  - split; rewrite ?Hh, ?Hs1, ?Hq1, ?Ho1, ?Hp, ?Hg, ?Hi, ?Hf, ?Hn; try done.
    + rewrite Hfifo. simpl. by rewrite <-app_assoc.
    + by apply Hpa.
    + by apply Hs.
    + simpl. by rewrite Hinvk.
    + by rewrite Hrep.
  - assert (timer_change (timer_view rt0) (timer_view rt_invoke)) as Htc1.
    { eapply (timer_change_others [_; _; _]); [exact Htc| |done..].
      by repeat constructor. }
    pose proof (execute_lua_callback_stable _ (timer_change_stable rt0)
                  (callback_id cb) (dispatched_data cb) rt_invoke Htc1) as Htc2.
    fold res in Htc2. rewrite Heq.
    eapply (timer_change_others [ev_invoke_end (callback_id cb) r]);
      [exact Htc2|by repeat constructor|..]; by destruct r.
  - rewrite Hh, Hg, Ho1. done.
Qed.

Lemma loop_iteration_some_good rt0 task rt rt' :
  good rt0 rt → loop_iteration lua_execute task rt = Some rt' → good rt0 rt'.
Proof.
  intros Hgood Hit. pose proof (loop_iteration_good rt0 task rt Hgood) as H.
  destruct (callback_queue rt) as [|cb q]; [congruence|].
  destruct H as (rt1 & Heq & Hg1 & _). rewrite Heq in Hit. injection Hit as <-.
  by apply good_set_task_state.
Qed.

Lemma resume_good rt0 task rt rt' :
  good rt0 rt → resume lua_execute task rt = Some rt' → good rt0 rt'.
Proof.
  intros Hgood. unfold resume.
  destruct (all_tasks rt !! task) as [[c s m]|] eqn:Htask; [|done]. simpl.
  destruct s as [|p|]; [| |done].
  - destruct m.
    { destruct c; intros [= <-]; by apply good_set_task_state. }
    destruct c as [timer_id delay_ms| |cb].
    + intros [= <-]. by apply good_set_task_state.
    + destruct (loop_iteration lua_execute task rt) as [rt1|] eqn:Hit.
      * intros [= <-]. by eapply loop_iteration_some_good.
      * intros [= <-]. by apply good_set_task_state.
    + intros [= <-]. apply good_set_task_state; [|done].
      apply good_enqueue; [done|].
      destruct Hgood as [[_ [Hg _] _ _ _ _ _ _ _] _].
      by destruct (Hg _ _ Htask) as [_ Hcb]; apply Hcb.
  - destruct c as [timer_id delay_ms| |cb]; [| |done].
    + intros [= <-]. apply good_set_task_state; [|done].
      by apply good_timer_task_wake.
    + destruct m; [intros [= <-]; by apply good_set_task_state|].
      destruct p; try by apply loop_iteration_some_good.
      destruct Hgood as [[_ [Hg _] _ _ _ _ _ _ _] _].
      by destruct (Hg _ _ Htask).
Qed.

(** ** The calls from outside the coroutines *)

Lemma python_timer_off_loop timer_id delay_ms rt :
  ∃ msg, python_timer false timer_id delay_ms rt = (Raised (RuntimeError msg), rt).
Proof.
  unfold python_timer, _ensure_callback_loop_running, create_timer. py_unfold.
  destruct (callback_task rt) as [task|]; [destruct (task_done task rt)|];
    simpl; eauto.
Qed.

Lemma queue_lua_callback_on_loop callback_id result_data rt :
  queue_lua_callback true callback_id result_data rt
  = (Returned tt,
     let rt1 := snd (_ensure_callback_loop_running true rt) in
     set_all_tasks
       (all_tasks rt1 ++
          [new_task (_queue_callback
             {| type := "lua_callback"; callback_id := callback_id;
                data := result_data |})]) rt1).
Proof.
  unfold queue_lua_callback. py_unfold.
  by destruct (ensure_callback_loop_running_on_loop rt) as [-> | ->].
Qed.

Lemma queue_lua_callback_off_loop callback_id result_data rt :
  snd (queue_lua_callback false callback_id result_data rt) = rt.
Proof.
  unfold queue_lua_callback, _ensure_callback_loop_running. py_unfold.
  destruct (callback_task rt) as [task|]; [destruct (task_done task rt)|]; done.
Qed.

Lemma stop_eq rt :
  stop rt
  = (Returned tt,
     let rt1 := match callback_task rt with
                | Some task => snd (task_cancel task rt)
                | None => rt
                end in
     set_stdout (out_runtime_stopped :: stdout rt1) rt1).
Proof.
  unfold stop. py_unfold.
  destruct (callback_task rt) as [task|]; [|done].
  by destruct (task_cancel_cases task rt) as [-> | (t & _ & _ & ->)].
Qed.

Lemma good_task_cancel rt0 task rt :
  good rt0 rt → good rt0 (snd (task_cancel task rt)).
Proof.
  intros [Hinv Htc]. split; [by apply inv_task_cancel|].
  eapply timer_change_same; [exact Htc|..];
    by destruct (task_cancel_cases task rt) as [-> | (t & _ & _ & ->)].
Qed.

Lemma good_print_stopped rt0 rt :
  good rt0 rt → good rt0 (set_stdout (out_runtime_stopped :: stdout rt) rt).
Proof.
  intros [Hinv Htc]. split; [|by eapply timer_change_same].
  apply (inv_quiet rt); [done| |apply Hinv].
  repeat split. exists []. split; [done|constructor].
Qed.

Lemma step_good rt0 a rt rt' :
  good rt0 rt → step lua_execute a rt = Some rt' → good rt0 rt'.
Proof.
  intros Hgood. pose proof (good_stable rt0) as HS.
  destruct a as [task|s0|script source_name debugging debug|filepath debugging debug
                |debug|[] timer_id delay_ms|timer_id|[] callback_id result_data| |]; simpl.
  - by apply resume_good.
  - intros [= <-]. by apply initialize_stable.
  - intros [= <-]. by apply execute_script_stable.
  - intros [= <-]. by apply execute_file_stable.
  - intros [= <-]. by apply execute_debug_main_stable.
  - intros [= <-]. by apply python_timer_stable.
  - intros [= <-]. by destruct (python_timer_off_loop timer_id delay_ms rt) as [msg ->].
  - intros [= <-]. by apply (stable_cancel_timer _ HS).
  - intros [= <-]. rewrite queue_lua_callback_on_loop. simpl.
    assert (good rt0 (snd (_ensure_callback_loop_running true rt))) as [Hinv Htc].
    { destruct (ensure_callback_loop_running_on_loop rt) as [-> | ->]; [done|].
      by apply (stable_start_loop _ HS). }
    split.
    + apply inv_spawn; [done|]. intros cb [= <-]. by right.
    + by eapply timer_change_same.
  - intros [= <-]. by rewrite queue_lua_callback_off_loop.
  - intros [= <-]. by apply (stable_start_loop _ HS).
  - intros [= <-]. rewrite stop_eq. simpl. apply good_print_stopped.
    destruct (callback_task rt); [by apply good_task_cancel|done].
Qed.

Lemma good_refl rt : inv rt → good rt rt.
Proof. intros H. split; [done|constructor]. Qed.

Lemma run_actions_good rt0 acts rt rt' :
  good rt0 rt → run_actions lua_execute acts rt = Some rt' → good rt0 rt'.
Proof.
  revert rt. induction acts as [|a acts IH]; intros rt Hgood; simpl.
  - by intros [= <-].
  - destruct (step lua_execute a rt) as [rt1|] eqn:Hstep; [|done].
    apply IH. by eapply step_good.
Qed.

Lemma reachable_inv rt : reachable lua_execute rt → inv rt.
Proof.
  induction 1 as [|rt a rt' _ IH Hstep]; [apply inv_init|].
  by apply (step_good rt a rt rt' (good_refl rt IH)).
Qed.

Lemma run_actions_reachable acts rt rt' :
  reachable lua_execute rt → run_actions lua_execute acts rt = Some rt' →
  reachable lua_execute rt'.
Proof.
  revert rt. induction acts as [|a acts IH]; intros rt Hr; simpl.
  - by intros [= <-].
  - destruct (step lua_execute a rt) as [rt1|] eqn:Hstep; [|done].
    apply IH. by eapply reachable_step.
Qed.

(** ** The callback queue and the dispatch signal *)

Lemma paired_put h :
  paired h → ∀ later cb earlier,
    h = later ++ ev_put cb :: earlier → ∃ later', later = later' ++ [ev_release].
Proof.
  induction 1 as [|cb0 h0 _ IH|e h0 He _ IH]; intros later cb earlier Heq.
  - by destruct later.
  - destruct later as [|x [|y later]]; simplify_eq/=.
    + by exists [].
    + destruct (IH _ _ _ eq_refl) as [l' ->]. by exists (ev_release :: ev_put cb0 :: l').
  - destruct later as [|x later]; simplify_eq/=; [done|].
    destruct (IH _ _ _ eq_refl) as [l' ->]. by exists (x :: l').
Qed.

Lemma paired_release h :
  paired h → ∀ later earlier,
    h = later ++ ev_release :: earlier → ∃ cb earlier', earlier = ev_put cb :: earlier'.
Proof.
  induction 1 as [|cb0 h0 _ IH|e h0 He _ IH]; intros later earlier Heq.
  - by destruct later.
  - destruct later as [|x [|y later]]; simplify_eq/=; eauto.
  - destruct later as [|x later]; simplify_eq/=; [done|]. eauto.
Qed.

(** C4: in every state the system reaches, that is, at every point where
    the event loop can switch tasks, (1) each put on the callback queue
    recorded in the history is directly followed by a release of the
    semaphore, and (2) each release directly follows a put, so there is
    exactly one release per enqueue; (3) the semaphore count is at least
    (indeed exactly) the number of entries in the queue; (4) whenever the
    semaphore can be acquired the queue has an entry, so an iteration of the
    dispatch loop that passes the acquire finds its entry at once; and (5) no
    task is ever left waiting in [callback_queue.get()].  ([history] is
    newest first: "later" events stand in front.) *)
Theorem enqueue_is_followed_by_one_release rt :
  reachable lua_execute rt →
  (∀ later cb earlier,
     history rt = later ++ ev_put cb :: earlier →
     ∃ later', later = later' ++ [ev_release])
  ∧ (∀ later earlier,
       history rt = later ++ ev_release :: earlier →
       ∃ cb earlier', earlier = ev_put cb :: earlier')
  ∧ timer_semaphore rt ≥ length (callback_queue rt)
  ∧ timer_semaphore rt = length (callback_queue rt)
  ∧ (∀ task n, timer_semaphore rt = S n →
       ∃ cb q rt', callback_queue rt = cb :: q
                   ∧ loop_iteration lua_execute task rt = Some rt'
                   ∧ callback_queue rt' = q
                   ∧ gets (history rt') = cb :: gets (history rt))
  ∧ (∀ task t, all_tasks rt !! task = Some t → state t ≠ Suspended await_get).
Proof.
  intros Hr. pose proof (reachable_inv rt Hr) as Hinv.
  pose proof Hinv as [Hsem [Hg _] _ _ Hpair _ _ _ _].
  split; [by apply paired_put|]. split; [by apply paired_release|].
  split; [lia|]. split; [done|]. split.
  - intros task n Hn.
    pose proof (loop_iteration_good rt task rt (good_refl rt Hinv)) as H.
    destruct (callback_queue rt) as [|cb q]; [simpl in *; lia|].
    destruct H as (rt1 & Heq & _ & Hq & _ & Hgets & _).
    eexists cb, q, _. split; [done|]. split; [exact Heq|].
    unfold set_task_state. by destruct (all_tasks rt1 !! task).
  - intros task t H. by apply (Hg task t H).
Qed.

(** ** Order of dispatch *)

Lemma fmap_rev {A B} (f : A → B) (l : list A) : f <$> rev l = rev (f <$> l).
Proof.
  induction l as [|x l IH]; [done|]. simpl. by rewrite fmap_app, IH.
Qed.

(** C5: in every state the system reaches, the callbacks put on the queue,
    in the order of their puts, are the callbacks the dispatch loop has taken
    so far, in the order it took them, followed by the callbacks still
    queued: the loop consumes in enqueue order, nothing is reordered or
    skipped.  The engine was invoked for exactly the callbacks taken, in the
    same order, and at no moment of the history were two invocations in
    flight; between steps none is. *)
Theorem dispatch_is_fifo_and_serial rt :
  reachable lua_execute rt →
  rev (puts (history rt)) = rev (gets (history rt)) ++ callback_queue rt
  ∧ rev (invoked (history rt)) = callback_id <$> rev (gets (history rt))
  ∧ serial (history rt) = true
  ∧ in_flight (history rt) = 0.
Proof.
  intros Hr. destruct (reachable_inv rt Hr) as [_ _ _ Hfifo _ Hfl Hser Hinvk _].
  repeat split; try done. by rewrite Hinvk, fmap_rev.
Qed.

(** ** Failure isolation in the dispatch loop *)

Lemma resume_loop_ready task rt :
  loop_ready rt task →
  is_Some (loop_iteration lua_execute task rt) →
  resume lua_execute task rt = loop_iteration lua_execute task rt.
Proof.
  intros ([c s m] & Htask & Hc & Hm & Hs) [rt' Hit]. simpl in *. subst c m.
  unfold resume. rewrite Htask. simpl.
  destruct Hs as [-> | ->]; by rewrite ?Hit.
Qed.

Lemma loop_ready_after_iteration task rt rt1 :
  loop_ready rt task → keeps rt rt1 →
  loop_ready (set_task_state task (Suspended await_acquire) rt1) task.
Proof.
  intros (t & Htask & Hc & Hm & _) Hk.
  assert (all_tasks rt1 !! task = Some t) as Htask1.
  { apply Hk; [done|]. by rewrite Hc. }
  unfold set_task_state. rewrite Htask1.
  exists {| coro := coro t; state := Suspended await_acquire;
            must_cancel := must_cancel t |}.
  split; [|split; [done|split; [done|by right]]].
  simpl. apply list_lookup_insert_eq. by eapply lookup_lt_Some.
Qed.

(** One iteration of a ready loop on a queue that is not empty. *)
Lemma ready_loop_dispatches rt0 task rt cb q :
  good rt0 rt → loop_ready rt task → callback_queue rt = cb :: q →
  let rt_invoke :=
    set_history (ev_invoke (callback_id cb) :: ev_get cb :: ev_acquire :: history rt)
      (set_callback_queue q (set_timer_semaphore (length q) rt)) in
  let res := execute_lua_callback lua_execute (callback_id cb)
               (dispatched_data cb) rt_invoke in
  ∃ rt', step lua_execute (run task) rt = Some rt'
    ∧ good rt0 rt'
    ∧ loop_ready rt' task
    ∧ callback_queue rt' = q
    ∧ gets (history rt') = cb :: gets (history rt)
    ∧ reported (stdout rt')
      = match fst res with Raised e => [(callback_id cb, e)] | Returned _ => [] end
          ++ reported (stdout rt).
Proof.
  intros Hgood Hready Hq rt_invoke res.
  pose proof (loop_iteration_good rt0 task rt Hgood) as H. rewrite Hq in H.
  destruct H as (rt1 & Heq & Hg1 & Hq1 & Hk & Hgets & Hrep).
  exists (set_task_state task (Suspended await_acquire) rt1). simpl.
  split; [by rewrite resume_loop_ready; [|done|rewrite Heq]|].
  split; [by apply good_set_task_state|].
  split; [by eapply loop_ready_after_iteration|].
  fold rt_invoke in Hrep. fold res in Hrep.
  unfold set_task_state. destruct (all_tasks rt1 !! task); simpl;
    (split; [done|split; [done|]]); rewrite Hrep; by destruct res as [[]].
Qed.

Lemma ready_loop_drains rt0 task q :
  ∀ rt, good rt0 rt → loop_ready rt task → callback_queue rt = q →
  ∃ rt', run_actions lua_execute (repeat (run task) (length q)) rt = Some rt'
    ∧ good rt0 rt'
    ∧ loop_ready rt' task
    ∧ callback_queue rt' = []
    ∧ rev (gets (history rt')) = rev (gets (history rt)) ++ q.
Proof.
  induction q as [|cb q IH]; intros rt Hgood Hready Hq.
  - exists rt. by rewrite app_nil_r.
  - destruct (ready_loop_dispatches rt0 task rt cb q Hgood Hready Hq)
      as (rt1 & Hstep & Hg1 & Hr1 & Hq1 & Hgets & _).
    destruct (IH rt1 Hg1 Hr1 Hq1) as (rt' & Hrun & Hg' & Hr' & Hq' & Hgets').
    exists rt'. simpl in *. rewrite Hstep.
    split; [done|]. split; [done|]. split; [done|]. split; [done|].
    rewrite Hgets', Hgets. simpl. by rewrite <-app_assoc.
Qed.

(** C3: let the dispatch loop be alive in a state the system reaches.  (1)
    When it takes a callback from the queue, whatever the engine invocation
    does, the step completes, the loop is alive at the top of its loop again
    and the rest of the queue is untouched; if the invocation raised [e], the
    error is printed with the callback's id.  (2) Resumed once per queued
    callback, the loop takes every one of them, in order, and is still alive;
    and every invocation that raised has been printed with its id.  The
    engine [lua_execute] is arbitrary, so this holds whichever callbacks
    fail. *)
Theorem failing_callback_does_not_stop_the_loop rt task :
  reachable lua_execute rt → loop_ready rt task →
  (∀ cb q, callback_queue rt = cb :: q →
     let rt_invoke :=
       set_history (ev_invoke (callback_id cb) :: ev_get cb :: ev_acquire :: history rt)
         (set_callback_queue q (set_timer_semaphore (length q) rt)) in
     let res := execute_lua_callback lua_execute (callback_id cb)
                  (dispatched_data cb) rt_invoke in
     ∃ rt', step lua_execute (run task) rt = Some rt'
       ∧ loop_ready rt' task
       ∧ callback_queue rt' = q
       ∧ gets (history rt') = cb :: gets (history rt)
       ∧ reported (stdout rt')
         = match fst res with Raised e => [(callback_id cb, e)] | Returned _ => [] end
             ++ reported (stdout rt))
  ∧ ∃ rt', run_actions lua_execute
             (repeat (run task) (length (callback_queue rt))) rt = Some rt'
      ∧ loop_ready rt' task
      ∧ callback_queue rt' = []
      ∧ rev (gets (history rt')) = rev (gets (history rt)) ++ callback_queue rt
      ∧ invoked (history rt') = callback_id <$> gets (history rt')
      ∧ failures (history rt') = reported (stdout rt').
Proof.
  intros Hr Hready. pose proof (good_refl rt (reachable_inv rt Hr)) as Hgood.
  split.
  - intros cb q Hq rt_invoke res.
    destruct (ready_loop_dispatches rt task rt cb q Hgood Hready Hq)
      as (rt' & ? & _ & ? & ? & ? & ?). by exists rt'.
  - destruct (ready_loop_drains rt task (callback_queue rt) rt Hgood Hready eq_refl)
      as (rt' & ? & [[] _] & ? & ? & ?). by exists rt'.
Qed.

(** ** Cancellation *)

Lemma timer_change1_creates timer_id (v v' : gmap Z nat * list (event Any)) :
  timer_change1 v v' →
  creates timer_id v.2 ≤ creates timer_id v'.2
  ∧ (creates timer_id v'.2 = creates timer_id v.2 →
     v.1 !! timer_id = None → v'.1 !! timer_id = None).
Proof.
  unfold creates.
  destruct 1 as [m h i task|m h i task Hl|m h i Hl|m h i task owner Hl|m h i task Hl
                |m h i|m h e He]; simpl.
  - case_bool_decide as Hi; simpl; [lia|]. split; [lia|].
    intros _ Hn. by rewrite lookup_insert_ne.
  - split; [lia|]. intros _ Hn. apply lookup_delete_None. by right.
  - done.
  - split; [lia|]. intros _ Hn. apply lookup_delete_None. by right.
  - done.
  - split; [lia|]. intros _ Hn. apply lookup_delete_None. by right.
  - by destruct e.
Qed.

Lemma timer_change_creates timer_id (v v' : gmap Z nat * list (event Any)) :
  timer_change v v' →
  creates timer_id v.2 ≤ creates timer_id v'.2
  ∧ (creates timer_id v'.2 = creates timer_id v.2 →
     v.1 !! timer_id = None → v'.1 !! timer_id = None).
Proof.
  induction 1 as [|v1 v2 v3 _ [IHle IHn] Hstep]; [done|].
  destruct (timer_change1_creates timer_id _ _ Hstep) as [Hle Hn].
  split; [lia|]. intros Heq Hnone. apply Hn; [lia|]. apply IHn; [lia|done].
Qed.

Lemma timer_change1_counts timer_id (v v' : gmap Z nat * list (event Any)) :
  timer_change1 v v' →
  cancel_successes timer_id v.2 + expiry_dispatches timer_id v.2 + live v.1 timer_id
    ≤ creates timer_id v.2 →
  cancel_successes timer_id v'.2 + expiry_dispatches timer_id v'.2 + live v'.1 timer_id
    ≤ creates timer_id v'.2.
Proof.
  unfold creates, cancel_successes, expiry_dispatches, live.
  destruct 1 as [m h i task|m h i task Hl|m h i Hl|m h i task owner Hl|m h i task Hl
                |m h i|m h e He]; simpl.
  - case_bool_decide as Hi; simpl.
    + subst i. rewrite lookup_insert_eq. destruct (m !! timer_id); lia.
    + by rewrite lookup_insert_ne.
  - case_bool_decide as Hi; simpl.
    + subst i. rewrite lookup_delete_eq, Hl. lia.
    + by rewrite lookup_delete_ne.
  - done.
  - case_bool_decide as Hi; simpl.
    + subst i. rewrite lookup_delete_eq, Hl. lia.
    + by rewrite lookup_delete_ne.
  - done.
  - destruct (decide (i = timer_id)) as [-> | Hi].
    + rewrite lookup_delete_eq. destruct (m !! timer_id); lia.
    + by rewrite lookup_delete_ne.
  - by destruct e.
Qed.

Lemma timer_change_counts timer_id (v v' : gmap Z nat * list (event Any)) :
  timer_change v v' →
  cancel_successes timer_id v.2 + expiry_dispatches timer_id v.2 + live v.1 timer_id
    ≤ creates timer_id v.2 →
  cancel_successes timer_id v'.2 + expiry_dispatches timer_id v'.2 + live v'.1 timer_id
    ≤ creates timer_id v'.2.
Proof.
  induction 1 as [|v1 v2 v3 _ IH Hstep]; [done|].
  intros H. by apply (timer_change1_counts timer_id _ _ Hstep), IH.
Qed.

(** Once an id is not registered, it stays so until it is created again,
    and cancelling it returns False. *)
Lemma cancel_of_dead_id_returns_false timer_id acts rt rt' :
  reachable lua_execute rt →
  timer_tasks rt !! timer_id = None →
  run_actions lua_execute acts rt = Some rt' →
  creates timer_id (history rt') = creates timer_id (history rt) →
  timer_tasks rt' !! timer_id = None
  ∧ ∃ rt'', python_cancel_timer timer_id rt' = (Returned false, rt'').
Proof.
  intros Hr Hdead Hrun Hcreates.
  destruct (run_actions_good rt acts rt rt' (good_refl rt (reachable_inv rt Hr)) Hrun)
    as [_ Htc].
  destruct (timer_change_creates timer_id _ _ Htc) as [_ Hn].
  pose proof (Hn Hcreates Hdead) as Hdead'. simpl in Hdead'.
  split; [done|]. rewrite (python_cancel_timer_not_found _ _ Hdead'). eauto.
Qed.

(** C6: in a state the system reaches, [python_cancel_timer] returns True
    exactly when the id is registered in [timer_tasks] at the call; in any
    case the id is not registered afterwards, and the timer's task, if it
    was found and is not done, has its cancellation requested.  After the
    call, and likewise after the timer's own task has woken from its sleep
    (dispatched or not), every later cancel of the id returns False, as long
    as the id has not been created again in between. *)
Theorem python_cancel_timer_spec rt timer_id :
  reachable lua_execute rt →
  ∃ found rt',
    python_cancel_timer timer_id rt = (Returned found, rt')
    ∧ (found = true ↔ is_Some (timer_tasks rt !! timer_id))
    ∧ timer_tasks rt' = delete timer_id (timer_tasks rt)
    ∧ (∀ task t, timer_tasks rt !! timer_id = Some task →
         all_tasks rt !! task = Some t → done t = false →
         all_tasks rt' !! task
         = Some {| coro := coro t; state := state t; must_cancel := true |})
    ∧ (∀ acts rt'',
         run_actions lua_execute acts rt' = Some rt'' →
         creates timer_id (history rt'') = creates timer_id (history rt') →
         ∃ rt3, python_cancel_timer timer_id rt'' = (Returned false, rt3))
    ∧ (∀ task t delay_ms p rt1 acts rt'',
         all_tasks rt !! task = Some t →
         coro t = timer_task timer_id delay_ms →
         state t = Suspended p →
         step lua_execute (run task) rt = Some rt1 →
         run_actions lua_execute acts rt1 = Some rt'' →
         creates timer_id (history rt'') = creates timer_id (history rt1) →
         ∃ rt3, python_cancel_timer timer_id rt'' = (Returned false, rt3)).
Proof.
  intros Hr.
  assert (∀ task t delay_ms p rt1 acts rt'',
            all_tasks rt !! task = Some t →
            coro t = timer_task timer_id delay_ms →
            state t = Suspended p →
            step lua_execute (run task) rt = Some rt1 →
            run_actions lua_execute acts rt1 = Some rt'' →
            creates timer_id (history rt'') = creates timer_id (history rt1) →
            ∃ rt3, python_cancel_timer timer_id rt'' = (Returned false, rt3)) as Hwake.
  { intros task [c s m] delay_ms p rt1 acts rt'' Htask Hc Hs Hstep Hrun Hcr.
    simpl in *. subst c s.
    assert (timer_tasks rt1 !! timer_id = None) as Hdead.
    { unfold resume in Hstep. rewrite Htask in Hstep. simpl in Hstep.
      injection Hstep as <-. unfold set_task_state.
      rewrite timer_task_wake_eq.
      destruct m, (timer_tasks rt !! timer_id) eqn:Hl; simpl;
        match goal with
        | |- context [all_tasks ?r !! task] => destruct (all_tasks r !! task)
        end; simpl; by rewrite ?lookup_delete_eq. }
    eapply cancel_of_dead_id_returns_false; [|exact Hdead|exact Hrun|exact Hcr].
    by apply (reachable_step _ rt (run task)). }
  destruct (timer_tasks rt !! timer_id) as [task|] eqn:Hl.
  - eexists true, _. split; [by apply python_cancel_timer_found_eq|].
    split; [by split; eauto|]. simpl.
    assert (timer_tasks (snd (task_cancel task rt)) = timer_tasks rt) as Htt
      by by destruct (task_cancel_cases task rt) as [-> | (t & _ & _ & ->)].
    split; [by rewrite Htt|]. split; [|split; [|exact Hwake]].
    + intros task' t [= <-] Htask Hd. unfold task_cancel. py_unfold.
      rewrite Htask, Hd. simpl. apply list_lookup_insert_eq. by eapply lookup_lt_Some.
    + intros acts rt'' Hrun Hcr.
      eapply cancel_of_dead_id_returns_false; [| |exact Hrun|exact Hcr].
      * eapply (reachable_step _ rt (call_python_cancel_timer timer_id)); [done|].
        simpl. by rewrite (python_cancel_timer_found_eq _ _ _ Hl).
      * simpl. rewrite Htt. apply lookup_delete_eq.
  - eexists false, _. split; [by apply python_cancel_timer_not_found|].
    split; [by split; [|intros []]|]. simpl.
    split; [by rewrite delete_id|]. split; [done|]. split; [|exact Hwake].
    intros acts rt'' Hrun Hcr.
    eapply cancel_of_dead_id_returns_false; [| |exact Hrun|exact Hcr].
    + eapply (reachable_step _ rt (call_python_cancel_timer timer_id)); [done|].
      simpl. by rewrite (python_cancel_timer_not_found _ _ Hl).
    + done.
Qed.

(** In every reachable state, for every timer id: the successful cancels
    and the dispatching expiries, plus one if the id is registered, are at
    most the creations of the id.  So an id created once has at most one of
    the two outcomes, and none while it is registered. *)
Lemma outcomes_bounded_by_creations rt timer_id :
  reachable lua_execute rt →
  cancel_successes timer_id (history rt) + expiry_dispatches timer_id (history rt)
    + live (timer_tasks rt) timer_id
  ≤ creates timer_id (history rt).
Proof.
  induction 1 as [|rt a rt' Hr IH Hstep]; [done|].
  destruct (step_good rt a rt rt' (good_refl rt (reachable_inv rt Hr)) Hstep) as [_ Htc].
  by apply (timer_change_counts timer_id _ _ Htc).
Qed.

(** ** Shutdown *)

Lemma set_task_state_frame task s rt :
  callback_queue (set_task_state task s rt) = callback_queue rt
  ∧ history (set_task_state task s rt) = history rt
  ∧ timer_semaphore (set_task_state task s rt) = timer_semaphore rt
  ∧ timer_tasks (set_task_state task s rt) = timer_tasks rt
  ∧ stdout (set_task_state task s rt) = stdout rt.
Proof. unfold set_task_state. by destruct (all_tasks rt !! task). Qed.

(** C7 (as the code has it): [stop] requests the cancellation of the
    callback loop task, if there is one that is not done, and prints the
    stop message.  It does nothing else: the registered timers stay
    registered and their tasks are not cancelled, and the queue and the
    semaphore keep what they hold.  The cancelled loop task ends the next
    time the event loop resumes it, without taking a callback; [stop] is
    synchronous, so it never interrupts an engine invocation. *)
Theorem stop_only_cancels_the_callback_loop rt :
  ∃ rt', stop rt = (Returned tt, rt')
    ∧ timer_tasks rt' = timer_tasks rt
    ∧ callback_queue rt' = callback_queue rt
    ∧ timer_semaphore rt' = timer_semaphore rt
    ∧ callback_task rt' = callback_task rt
    ∧ history rt' = history rt
    ∧ stdout rt' = out_runtime_stopped :: stdout rt
    ∧ (∀ task t, all_tasks rt !! task = Some t →
         all_tasks rt' !! task
         = Some (if bool_decide (callback_task rt = Some task) && negb (done t)
                 then {| coro := coro t; state := state t; must_cancel := true |}
                 else t))
    ∧ (∀ task t, callback_task rt = Some task → all_tasks rt !! task = Some t →
         coro t = run_timer_callbacks_loop → done t = false →
         resume lua_execute task rt' = Some (set_task_state task Finished rt')
         ∧ callback_queue (set_task_state task Finished rt') = callback_queue rt
         ∧ history (set_task_state task Finished rt') = history rt).
Proof.
  eexists. split; [apply stop_eq|]. simpl.
  destruct (callback_task rt) as [task0|] eqn:Hct; [|by split_and!].
  destruct (task_cancel_cases task0 rt) as [Hno | (t0 & Ht0 & Hd0 & Heq)].
  - rewrite Hno. simpl. split_and!; try done.
    + intros task t Ht. case_bool_decide as Hb; simpl; [|done].
      injection Hb as <-. destruct (done t) eqn:Hd; [done|].
      unfold task_cancel in Hno. py_unfold. rewrite Ht, Hd in Hno. simpl in Hno.
      injection Hno as Hno. rewrite <-Hno at 1. simpl.
      apply list_lookup_insert_eq. by eapply lookup_lt_Some.
    + intros task t [= <-] Ht Hc Hd.
      unfold task_cancel in Hno. py_unfold. rewrite Ht, Hd in Hno. simpl in Hno.
      injection Hno as Hno.
      assert (all_tasks rt !! task0
              = Some {| coro := coro t; state := state t; must_cancel := true |}) as Ht'.
      { rewrite <-Hno at 1. simpl. apply list_lookup_insert_eq. by eapply lookup_lt_Some. }
      split_and!.
      * unfold resume. simpl. rewrite Ht'. simpl. rewrite Hc.
        unfold done in Hd. by destruct (state t).
      * by rewrite (proj1 (set_task_state_frame _ _ _)).
      * by rewrite (proj1 (proj2 (set_task_state_frame _ _ _))).
  - rewrite Heq. simpl. split_and!; try done.
    + intros task t Ht. case_bool_decide as Hb; simpl.
      * injection Hb as <-. assert (t = t0) as -> by congruence. rewrite Hd0. simpl.
        apply list_lookup_insert_eq. by eapply lookup_lt_Some.
      * rewrite list_lookup_insert_ne; [done|congruence].
    + intros task t [= <-] Ht Hc Hd. assert (t = t0) as -> by congruence.
      split_and!.
      * unfold resume. simpl.
        rewrite list_lookup_insert_eq; [|by eapply lookup_lt_Some]. simpl. rewrite Hc.
        unfold done in Hd. by destruct (state t0).
      * by rewrite (proj1 (set_task_state_frame _ _ _)).
      * by rewrite (proj1 (proj2 (set_task_state_frame _ _ _))).
Qed.

(** ** Submission after shutdown *)

(** C8 (as the code has it): the runtime has no stopped state.  Called on
    the event loop, [queue_lua_callback] and [python_timer] never raise.
    When the callback loop task is done (as it is once the cancellation of
    [stop] has been delivered) or was never started, they start a new
    callback loop; the callback gets its [_queue_callback] task, which will
    put it on the queue and release the semaphore, and the timer is
    registered: the submission is served like any other. *)
Theorem submission_after_stop_restarts_the_loop rt :
  match callback_task rt with
  | Some task => task_done task rt = true
  | None => True
  end →
  let loop := length (all_tasks rt) in
  (∀ callback_id result_data,
     ∃ rt', queue_lua_callback true callback_id result_data rt = (Returned tt, rt')
       ∧ callback_task rt' = Some loop
       ∧ all_tasks rt'
         = all_tasks rt ++
             [new_task run_timer_callbacks_loop;
              new_task (_queue_callback
                {| type := "lua_callback"; callback_id := callback_id;
                   data := result_data |})]
       ∧ resume lua_execute (S loop) rt'
         = Some (set_task_state (S loop) Finished
                   (snd (queue_callback_body
                      {| type := "lua_callback"; callback_id := callback_id;
                         data := result_data |} rt'))))
  ∧ (∀ timer_id delay_ms,
       ∃ rt', python_timer true timer_id delay_ms rt = (Returned (S loop), rt')
         ∧ callback_task rt' = Some loop
         ∧ all_tasks rt'
           = all_tasks rt ++
               [new_task run_timer_callbacks_loop;
                new_task (timer_task timer_id delay_ms)]
         ∧ timer_tasks rt' = <[timer_id := S loop]> (timer_tasks rt)).
Proof.
  intros Hstale loop.
  assert (_ensure_callback_loop_running true rt
          = (Returned tt,
             set_callback_task (Some loop)
               (set_all_tasks (all_tasks rt ++ [new_task run_timer_callbacks_loop]) rt)))
    as Hens.
  { unfold _ensure_callback_loop_running. py_unfold.
    destruct (callback_task rt) as [task|]; [by rewrite Hstale|done]. }
  split.
  - intros callback_id result_data. eexists.
    split; [apply queue_lua_callback_on_loop|]. rewrite Hens. simpl.
    split; [done|]. split; [by rewrite <-app_assoc|].
    unfold resume. simpl.
    rewrite lookup_app_r; rewrite length_app; simpl; [|lia].
    replace (S loop - (length (all_tasks rt) + 1)) with 0 by (unfold loop; lia).
    done.
  - intros timer_id delay_ms. eexists.
    split; [rewrite python_timer_on_loop, Hens, create_timer_on_loop; simpl|].
    + rewrite length_app. simpl. replace (length (all_tasks rt) + 1) with (S loop)
        by (unfold loop; lia). reflexivity.
    + simpl. split; [done|]. by rewrite <-app_assoc.
Qed.

(** ** Duplicate timer ids *)

(** C9 (as the code has it): [create_timer] does not look whether the id is
    registered.  Called on the event loop with an id that is registered, it
    returns the new task without an error and overwrites the entry of the
    id; the tasks that exist, the one registered before among them, are left
    as they are, and the entries of other ids are untouched.  [python_timer]
    does the same after making sure that the callback loop runs.  The
    registry is a dict, so it holds one task per id. *)
Theorem create_timer_overwrites_live_id rt timer_id delay_ms old :
  timer_tasks rt !! timer_id = Some old →
  (∃ rt', create_timer true timer_id delay_ms rt = (Returned (length (all_tasks rt)), rt')
     ∧ timer_tasks rt' = <[timer_id := length (all_tasks rt)]> (timer_tasks rt)
     ∧ timer_tasks rt' !! timer_id = Some (length (all_tasks rt))
     ∧ (∀ other, other ≠ timer_id → timer_tasks rt' !! other = timer_tasks rt !! other)
     ∧ all_tasks rt' = all_tasks rt ++ [new_task (timer_task timer_id delay_ms)]
     ∧ stdout rt' = stdout rt)
  ∧ (∃ task rt', python_timer true timer_id delay_ms rt = (Returned task, rt')
       ∧ timer_tasks rt' = <[timer_id := task]> (timer_tasks rt)
       ∧ (∀ i t, all_tasks rt !! i = Some t → all_tasks rt' !! i = Some t)
       ∧ stdout rt' = stdout rt).
Proof.
  intros Hold. split.
  - eexists. split; [apply create_timer_on_loop|]. simpl.
    split; [done|]. split; [apply lookup_insert_eq|].
    split; [|done]. intros other Hne. by rewrite lookup_insert_ne.
  - rewrite python_timer_on_loop, create_timer_on_loop.
    destruct (ensure_callback_loop_running_on_loop rt) as [-> | ->]; simpl;
      eexists _, _; (split; [reflexivity|]); simpl; (split; [done|]); (split; [|done]);
      intros i t Hi; rewrite ?app_assoc; by repeat apply lookup_app_l_Some.
Qed.

(** ** The race between expiry and cancel, for an id that is created once *)

Local Arguments creates : simpl never.
Local Arguments created_tasks : simpl never.
Local Arguments cancel_successes : simpl never.
Local Arguments expiry_dispatches : simpl never.

Lemma unconcerned_counts timer_id (e : event Any) h :
  concerns timer_id e = false →
  creates timer_id (e :: h) = creates timer_id h
  ∧ created_tasks timer_id (e :: h) = created_tasks timer_id h
  ∧ cancel_successes timer_id (e :: h) = cancel_successes timer_id h
  ∧ expiry_dispatches timer_id (e :: h) = expiry_dispatches timer_id h.
Proof.
  unfold creates, created_tasks, cancel_successes, expiry_dispatches, concerns.
  destruct e as [i task|i [task|]|task i []| | | | | |]; simpl; intros H;
    rewrite ?orb_false_r in H; rewrite ?H; done.
Qed.

Lemma creates_length timer_id h :
  creates timer_id h = length (created_tasks timer_id h).
Proof.
  unfold creates, created_tasks. induction h as [|e h IH]; [done|].
  destruct e; simpl; rewrite ?IH; try done. by case_bool_decide.
Qed.

Lemma created_once timer_id h task1 task2 :
  creates timer_id h ≤ 1 →
  task1 ∈ created_tasks timer_id h → task2 ∈ created_tasks timer_id h →
  task1 = task2.
Proof.
  rewrite creates_length.
  destruct (created_tasks timer_id h) as [|x [|y l]]; simpl; [| |lia].
  - by intros _ ?%elem_of_nil.
  - by intros _ ->%list_elem_of_singleton ->%list_elem_of_singleton.
Qed.

Lemma fresh_ghost timer_id e h rt :
  concerns timer_id e = false →
  h = history rt →
  fresh_inv timer_id rt → fresh_inv timer_id (set_history (e :: h) rt).
Proof.
  intros He -> [Hc Hl Ho].
  destruct (unconcerned_counts timer_id e (history rt) He) as (E1 & E2 & E3 & E4).
  split; simpl.
  - intros task t Ht Hf. rewrite E2. by eapply Hc.
  - done.
  - rewrite E1. intros Hle.
    destruct (Ho Hle) as [(task & t & d & ?) | (? & ? & ?)]; [left|right].
    + exists task, t, d. simpl. by rewrite E3, E4.
    + split; [done|]. simpl. by rewrite E1, E3, E4.
Qed.

Lemma fresh_spawn timer_id c rt :
  is_timer_for timer_id c = false →
  fresh_inv timer_id rt →
  fresh_inv timer_id (set_all_tasks (all_tasks rt ++ [new_task c]) rt).
Proof.
  intros Hc0 [Hc Hl Ho]. split; simpl.
  - intros task t [H | [_ H]]%lookup_app_Some Hf; [by eapply Hc|].
    apply list_lookup_singleton_Some in H as [_ <-]. simpl in Hf. congruence.
  - intros c0 (t & H & Hlo)%Hl. exists t. split; [by apply lookup_app_l_Some|done].
  - intros Hle.
    destruct (Ho Hle) as [(task & t & d & He & Ht & Hrest) | (He & Hn & Hts)];
      [left|right].
    + exists task, t, d. split; [done|]. split; [by apply lookup_app_l_Some|done].
    + split; [done|]. split; [done|].
      intros task t [H | [_ H]]%lookup_app_Some Hf; [by eapply Hts|].
      apply list_lookup_singleton_Some in H as [_ <-]. simpl in Hf. congruence.
Qed.

Lemma fresh_update_task timer_id task t t' rt :
  all_tasks rt !! task = Some t →
  coro t' = coro t →
  is_timer_for timer_id (coro t) = false →
  fresh_inv timer_id rt →
  fresh_inv timer_id (set_all_tasks (<[task := t']> (all_tasks rt)) rt).
Proof.
  intros Htask Hco Hnot [Hc Hl Ho]. split; simpl.
  - intros i ti [(<- & <- & _) | [Hne H]]%list_lookup_insert_Some Hf.
    + congruence.
    + by eapply Hc.
  - intros c (tc & H & Hlo)%Hl.
    destruct (decide (task = c)) as [<- | Hne].
    + exists t'. split; [apply list_lookup_insert_eq; by eapply lookup_lt_Some|].
      congruence.
    + exists tc. by rewrite list_lookup_insert_ne.
  - intros Hle.
    destruct (Ho Hle) as [(i & ti & d & He & Ht & Hci & Hrest) | (He & Hn & Hts)];
      [left|right].
    + exists i, ti, d. split; [done|]. split; [|done]. simpl.
      rewrite list_lookup_insert_ne; [done|]. intros <-.
      assert (ti = t) as -> by congruence. rewrite Hci in Hnot. simpl in Hnot.
      by case_bool_decide.
    + split; [done|]. split; [done|].
      intros i ti [(<- & <- & _) | [Hne H]]%list_lookup_insert_Some Hf.
      * congruence.
      * by eapply Hts.
Qed.

Lemma fresh_set_task_state timer_id task s rt :
  (∀ t, all_tasks rt !! task = Some t → is_timer_for timer_id (coro t) = false) →
  fresh_inv timer_id rt → fresh_inv timer_id (set_task_state task s rt).
Proof.
  intros Hnot H. unfold set_task_state.
  destruct (all_tasks rt !! task) as [t|] eqn:Ht; [|done].
  by apply (fresh_update_task timer_id task t); [| |apply Hnot|].
Qed.

Lemma fresh_task_cancel timer_id task rt :
  (∀ t, all_tasks rt !! task = Some t → is_timer_for timer_id (coro t) = false) →
  fresh_inv timer_id rt → fresh_inv timer_id (snd (task_cancel task rt)).
Proof.
  intros Hnot H.
  destruct (task_cancel_cases task rt) as [-> | (t & Ht & _ & ->)]; [done|].
  by apply (fresh_update_task timer_id task t); [| |apply Hnot|].
Qed.

Lemma fresh_timer_tasks timer_id (m : gmap Z nat) rt :
  m !! timer_id = timer_tasks rt !! timer_id →
  fresh_inv timer_id rt → fresh_inv timer_id (set_timer_tasks m rt).
Proof.
  intros Hm [Hc Hl Ho]. split; simpl; [done|done|].
  intros Hle.
  destruct (Ho Hle) as [(i & ti & d & He & Hrest) | (He & Hrest)]; [left|right].
  - exists i, ti, d. split; [simpl; congruence|done].
  - split; [simpl; congruence|done].
Qed.

Lemma fresh_set_callback_task timer_id c rt :
  (∃ t, all_tasks rt !! c = Some t ∧ coro t = run_timer_callbacks_loop) →
  fresh_inv timer_id rt → fresh_inv timer_id (set_callback_task (Some c) rt).
Proof.
  intros Hloop [Hc Hl Ho]. split; simpl; [done| |done].
  by intros c0 [= <-].
Qed.

Lemma created_tasks_create timer_id task h :
  created_tasks timer_id (ev_create timer_id task :: h) = task :: created_tasks timer_id h
  ∧ creates timer_id (ev_create timer_id task :: h) = S (creates timer_id h)
  ∧ cancel_successes timer_id (ev_create timer_id task :: h) = cancel_successes timer_id h
  ∧ expiry_dispatches timer_id (ev_create timer_id task :: h)
    = expiry_dispatches timer_id h.
Proof.
  unfold created_tasks, creates, cancel_successes, expiry_dispatches. simpl.
  by rewrite bool_decide_eq_true_2.
Qed.

Lemma created_nonempty timer_id task h :
  task ∈ created_tasks timer_id h → 1 ≤ creates timer_id h.
Proof.
  rewrite creates_length. destruct (created_tasks timer_id h); simpl; [|lia].
  by intros ?%elem_of_nil.
Qed.

Lemma is_timer_for_true timer_id (c : coroutine Any) :
  is_timer_for timer_id c = true ↔ ∃ delay_ms, c = timer_task timer_id delay_ms.
Proof.
  destruct c as [i d| |]; simpl; split; try done; try by intros [? [=]].
  - intros ->%bool_decide_eq_true. eauto.
  - intros [d' [= -> _]]. by apply bool_decide_eq_true.
Qed.

Lemma fresh_create_timer timer_id i delay_ms rt :
  tasks_ok rt → fresh_inv timer_id rt →
  fresh_inv timer_id (snd (create_timer true i delay_ms rt)).
Proof.
  intros Hok Hfresh. rewrite create_timer_on_loop. cbn [snd].
  destruct (decide (i = timer_id)) as [-> | Hne].
  - destruct Hfresh as [Hc Hl Ho].
    destruct (created_tasks_create timer_id (length (all_tasks rt)) (history rt))
      as (E1 & E2 & E3 & E4).
    split; simpl.
    + rewrite E1. intros task t [H | [Hlen H]]%lookup_app_Some Hf.
      * apply list_elem_of_further. by eapply Hc.
      * apply list_lookup_singleton_Some in H as [H0 _].
        assert (task = length (all_tasks rt)) as -> by lia. apply list_elem_of_here.
    + intros c (t & H & Hlo)%Hl. exists t. split; [by apply lookup_app_l_Some|done].
    + rewrite E2. intros Hle. assert (creates timer_id (history rt) = 0) as H0 by lia.
      unfold timer_pending, timer_settled. simpl.
      assert (creates timer_id (history rt) ≤ 1) as Hle' by lia.
      destruct (Ho Hle') as [(task & t & d & He & Ht & Hco & _) | (He & Hn & Hts)].
      * assert (task ∈ created_tasks timer_id (history rt)) as Hin.
        { apply (Hc task t Ht). apply is_timer_for_true. eauto. }
        apply created_nonempty in Hin. lia.
      * left. exists (length (all_tasks rt)), (new_task (timer_task timer_id delay_ms)),
          delay_ms.
        simpl. rewrite E3, E4. split; [apply lookup_insert_eq|].
        split; [by rewrite lookup_app_r, Nat.sub_diag|].
        split; [done|]. split; [done|]. split; [done|]. lia.
  - apply fresh_ghost; [|done|].
    { unfold concerns. simpl. rewrite bool_decide_eq_false_2; done. }
    apply fresh_timer_tasks; [simpl; by rewrite lookup_insert_ne|].
    apply fresh_spawn; [|done]. simpl. by rewrite bool_decide_eq_false_2.
Qed.

Lemma fresh_cancel_timer timer_id i rt :
  tasks_ok rt → fresh_inv timer_id rt →
  fresh_inv timer_id (snd (python_cancel_timer i rt)).
Proof.
  intros [_ Hreg] Hfresh.
  destruct (timer_tasks rt !! i) as [task|] eqn:Hl.
  2:{ rewrite (python_cancel_timer_not_found _ _ Hl). cbn [snd].
      by apply fresh_ghost. }
  rewrite (python_cancel_timer_found_eq _ _ _ Hl). cbn [snd]. cbv zeta.
  destruct (Hreg _ _ Hl) as (t0 & d0 & Ht0 & Hco0).
  destruct (decide (i = timer_id)) as [-> | Hne].
  - destruct Hfresh as [Hc Hlo Ho].
    assert (task ∈ created_tasks timer_id (history rt)) as Hin.
    { apply (Hc task t0 Ht0). apply is_timer_for_true. eauto. }
    assert (∀ task' t', all_tasks (snd (task_cancel task rt)) !! task' = Some t' →
              ∃ t, all_tasks rt !! task' = Some t ∧ coro t' = coro t
                   ∧ (task' = task → done t = false → must_cancel t' = true)
                   ∧ (task' ≠ task → t' = t)) as Hback.
    { intros task' t'.
      destruct (task_cancel_cases task rt) as [Hno | (t & Ht & Hd & ->)].
      - rewrite Hno. simpl. intros H. exists t'. split; [done|]. split; [done|].
        split; [|done]. intros -> Hd. unfold task_cancel in Hno. py_unfold.
        assert (t' = t0) as -> by congruence.
        rewrite Ht0, Hd in Hno. simpl in Hno. injection Hno as Hno.
        apply (f_equal (λ r, all_tasks r !! task)) in Hno. simpl in Hno.
        rewrite list_lookup_insert_eq, Ht0 in Hno; [|by eapply lookup_lt_Some].
        by injection Hno as <-.
      - simpl. intros [(<- & <- & _) | [Hne H]]%list_lookup_insert_Some.
        + exists t. by split_and!.
        + exists t'. by split_and!. }
    assert (history (snd (task_cancel task rt)) = history rt
            ∧ callback_task (snd (task_cancel task rt)) = callback_task rt) as [Hh Hct]
      by by destruct (task_cancel_cases task rt) as [-> | (t & _ & _ & ->)].
    assert (creates timer_id (ev_cancel timer_id (Some task) :: history rt)
              = creates timer_id (history rt)
            ∧ created_tasks timer_id (ev_cancel timer_id (Some task) :: history rt)
              = created_tasks timer_id (history rt)
            ∧ cancel_successes timer_id (ev_cancel timer_id (Some task) :: history rt)
              = S (cancel_successes timer_id (history rt))
            ∧ expiry_dispatches timer_id (ev_cancel timer_id (Some task) :: history rt)
              = expiry_dispatches timer_id (history rt)) as (E1 & E2 & E3 & E4).
    { unfold creates, created_tasks, cancel_successes, expiry_dispatches. simpl.
      by rewrite bool_decide_eq_true_2. }
    split; simpl; rewrite ?Hh.
    + rewrite E2. intros task' t' (t & Ht & Hco & _)%Hback Hf.
      apply (Hc task' t Ht). congruence.
    + rewrite Hct. intros c (t & Ht & Hcl)%Hlo.
      destruct (task_cancel_cases task rt) as [-> | (t1 & Ht1 & _ & ->)]; simpl; [eauto|].
      destruct (decide (task = c)) as [<- | Hnec].
      * eexists. split; [apply list_lookup_insert_eq; by eapply lookup_lt_Some|].
        simpl. congruence.
      * exists t. by rewrite list_lookup_insert_ne.
    + rewrite E1. intros Hle. right.
      destruct (Ho Hle) as [(T & t & d & He & Ht & Hco & Hst & Hmc & Hcs & Hed)
                           | (He & _)]; [|congruence].
      assert (T = task) as -> by congruence. assert (t = t0) as -> by congruence.
      unfold timer_settled. simpl. rewrite ?Hh, E1, E3, E4.
      split; [apply lookup_delete_eq|]. split.
      * apply created_nonempty in Hin. lia.
      * intros task' t' (t & Ht' & Hco' & Hsame & _)%Hback Hf. right.
        assert (task' = task) as ->.
        { eapply created_once; [exact Hle| |exact Hin]. apply (Hc task' t Ht'). congruence. }
        assert (t = t0) as -> by congruence.
        apply Hsame; [done|]. unfold done. by destruct (state t0).
  - assert (∀ t, all_tasks rt !! task = Some t → is_timer_for timer_id (coro t) = false)
      as Hnot.
    { intros t Ht. assert (t = t0) as -> by congruence. rewrite Hco0. simpl.
      by rewrite bool_decide_eq_false_2. }
    apply fresh_ghost; [|done|].
    { unfold concerns. simpl. rewrite bool_decide_eq_false_2; done. }
    apply fresh_timer_tasks; [simpl; by rewrite lookup_delete_ne|].
    by apply fresh_task_cancel.
Qed.

Lemma fresh_ext timer_id rt rt' :
  all_tasks rt' = all_tasks rt →
  timer_tasks rt' = timer_tasks rt →
  callback_task rt' = callback_task rt →
  history rt' = history rt →
  fresh_inv timer_id rt → fresh_inv timer_id rt'.
Proof.
  intros Ha Ht Hc Hh [Hcr Hl Ho].
  split; unfold timer_pending, timer_settled in *; rewrite ?Ha, ?Ht, ?Hc, ?Hh; done.
Qed.

Lemma fresh_events timer_id evs rt rt' :
  Forall (λ e, concerns timer_id e = false) evs →
  all_tasks rt' = all_tasks rt →
  timer_tasks rt' = timer_tasks rt →
  callback_task rt' = callback_task rt →
  history rt' = evs ++ history rt →
  fresh_inv timer_id rt → fresh_inv timer_id rt'.
Proof.
  intros Hevs Ha Ht Hc Hh Hfresh.
  apply (fresh_ext timer_id (set_history (evs ++ history rt) rt)); try done.
  clear Hh. induction Hevs as [|e evs He _ IH]; simpl.
  - by apply (fresh_ext timer_id rt).
  - by apply (fresh_ghost timer_id e (evs ++ history rt)
                (set_history (evs ++ history rt) rt)).
Qed.

Lemma fresh_enqueue timer_id cb rt :
  fresh_inv timer_id rt → fresh_inv timer_id (snd (queue_callback_body cb rt)).
Proof.
  apply (fresh_events timer_id [ev_release; ev_put cb]); try done.
  by repeat constructor.
Qed.

(** The task of the id itself takes a step that leaves the registry and
    the creations as they are. *)
Lemma fresh_own_task timer_id task t s rt rt' :
  fresh_inv timer_id rt →
  all_tasks rt !! task = Some t →
  all_tasks rt'
  = <[task := {| coro := coro t; state := s; must_cancel := must_cancel t |}]>
      (all_tasks rt) →
  callback_task rt' = callback_task rt →
  created_tasks timer_id (history rt') = created_tasks timer_id (history rt) →
  creates timer_id (history rt') = creates timer_id (history rt) →
  (creates timer_id (history rt) ≤ 1 →
   timer_pending timer_id rt' ∨ timer_settled timer_id rt') →
  fresh_inv timer_id rt'.
Proof.
  intros [Hc Hl Ho] Ht Ha Hct Hcr Hn Honce. split.
  - rewrite Ha, Hcr.
    intros i ti [(<- & <- & _) | [Hne H]]%list_lookup_insert_Some Hf; by eapply Hc.
  - rewrite Ha, Hct. intros c (tc & H & Hlo)%Hl.
    destruct (decide (task = c)) as [<- | Hne].
    + eexists. split; [apply list_lookup_insert_eq; by eapply lookup_lt_Some|].
      simpl. congruence.
    + exists tc. by rewrite list_lookup_insert_ne.
  - rewrite Hn. exact Honce.
Qed.

Lemma set_task_state_tasks task s rt t :
  all_tasks rt !! task = Some t →
  all_tasks (set_task_state task s rt)
  = <[task := {| coro := coro t; state := s; must_cancel := must_cancel t |}]>
      (all_tasks rt)
  ∧ callback_task (set_task_state task s rt) = callback_task rt.
Proof. intros H. unfold set_task_state. by rewrite H. Qed.

Lemma timer_task_wake_frame task timer_id cancelled rt :
  all_tasks (snd (timer_task_wake task timer_id cancelled rt)) = all_tasks rt
  ∧ callback_task (snd (timer_task_wake task timer_id cancelled rt)) = callback_task rt.
Proof.
  rewrite timer_task_wake_eq. by destruct cancelled, (timer_tasks rt !! timer_id).
Qed.

Lemma fresh_resume_own_timer timer_id task t delay_ms rt rt' :
  fresh_inv timer_id rt →
  all_tasks rt !! task = Some t →
  coro t = timer_task timer_id delay_ms →
  resume lua_execute task rt = Some rt' →
  fresh_inv timer_id rt'.
Proof.
  intros Hfresh Ht Hco. pose proof Hfresh as [Hc Hl Ho].
  assert (is_timer_for timer_id (coro t) = true) as Hfor.
  { apply is_timer_for_true. eauto. }
  assert (task ∈ created_tasks timer_id (history rt)) as Hin by by eapply Hc.
  assert (∀ T tT, creates timer_id (history rt) ≤ 1 →
            all_tasks rt !! T = Some tT → is_timer_for timer_id (coro tT) = true →
            T = task ∧ tT = t) as Huniq.
  { intros T tT Hle HT HfT.
    assert (T = task) as -> by (eapply created_once; [exact Hle|by eapply Hc|done]).
    split; [done|congruence]. }
  assert (∀ s rt1, all_tasks rt1 = all_tasks rt →
            all_tasks (set_task_state task s rt1) !! task
            = Some {| coro := coro t; state := s; must_cancel := must_cancel t |}) as Hnew.
  { intros s rt1 Ha. unfold set_task_state. rewrite Ha, Ht. simpl.
    apply list_lookup_insert_eq. by eapply lookup_lt_Some. }
  assert (∀ s rt1 T tT, all_tasks rt1 = all_tasks rt →
            all_tasks (set_task_state task s rt1) !! T = Some tT →
            T = task ∨ all_tasks rt !! T = Some tT) as Hold.
  { intros s rt1 T tT Ha. unfold set_task_state. rewrite Ha, Ht. simpl.
    intros [(<- & _) | [_ H]]%list_lookup_insert_Some; auto. }
  unfold resume. rewrite Ht. destruct t as [c s m]. simpl in *. subst c.
  destruct s as [|p|]; [| |done].
  - (* the task has not started *)
    intros Hres.
    assert (rt' = set_task_state task (if m then Finished else Suspended await_sleep) rt)
      as -> by (destruct m; congruence).
    destruct (set_task_state_tasks task (if m then Finished else Suspended await_sleep)
                rt _ Ht) as [Ha Hct].
    destruct (set_task_state_frame task (if m then Finished else Suspended await_sleep) rt)
      as (_ & Hh & _ & Htt & _).
    eapply fresh_own_task; [exact Hfresh|exact Ht|exact Ha|exact Hct|by rewrite Hh..|].
    intros Hle. unfold timer_pending, timer_settled. rewrite Hh, Htt.
    destruct (Ho Hle) as [(T & tT & dT & He & HtT & HcoT & Hst & Hmc & Hcs & Hed)
                         | (He & Hn & Hts)].
    + destruct (Huniq T tT Hle HtT) as [-> ->]; [apply is_timer_for_true; eauto|].
      simpl in Hmc. subst m. left. eexists task, _, delay_ms.
      split; [done|]. split; [by apply Hnew|]. by split_and!.
    + destruct (Hts task _ Ht Hfor) as [? | Hm]; [done|]. simpl in Hm. subst m.
      right. split; [done|]. split; [done|].
      intros T tT HT HfT. destruct (Hold _ rt T tT eq_refl HT) as [-> | HT'].
      * rewrite (Hnew _ rt eq_refl) in HT. injection HT as <-. by left.
      * by eapply Hts.
  - (* the task wakes from its sleep *)
    intros [= <-].
    destruct (timer_task_wake_frame task timer_id m rt) as [Haw Hctw].
    set (rtw := snd (timer_task_wake task timer_id m rt)) in *.
    assert (all_tasks rtw !! task
            = Some {| coro := timer_task timer_id delay_ms; state := Suspended p;
                      must_cancel := m |}) as Htw by by rewrite Haw.
    destruct (set_task_state_tasks task Finished rtw _ Htw) as [Ha Hct].
    destruct (set_task_state_frame task Finished rtw) as (_ & Hh & _ & Htt & _).
    rewrite Haw in Ha. rewrite Hctw in Hct.
    assert (created_tasks timer_id (history rtw) = created_tasks timer_id (history rt)
            ∧ creates timer_id (history rtw) = creates timer_id (history rt)) as [Ecr En].
    { unfold rtw. rewrite timer_task_wake_eq.
      by destruct m, (timer_tasks rt !! timer_id). }
    eapply fresh_own_task; [exact Hfresh|exact Ht|exact Ha|exact Hct
                           |by rewrite Hh..|].
    intros Hle. unfold timer_pending, timer_settled. rewrite Hh, Htt.
    destruct (Ho Hle) as [(T & tT & dT & He & HtT & HcoT & Hst & Hmc & Hcs & Hed)
                         | (He & Hn & Hts)].
    + destruct (Huniq T tT Hle HtT) as [-> ->]; [apply is_timer_for_true; eauto|].
      simpl in Hmc. subst m. right.
      assert (timer_tasks rtw = delete timer_id (timer_tasks rt)
              ∧ history rtw
                = ev_release
                  :: ev_put {| type := "timer"; callback_id := timer_id; data := None |}
                  :: ev_expire task timer_id true :: history rt) as [Etw Ehw].
      { unfold rtw. rewrite timer_task_wake_eq, He. done. }
      rewrite Etw, En. split; [apply lookup_delete_eq|]. split.
      * rewrite Ehw. unfold cancel_successes, expiry_dispatches in *. simpl.
        rewrite bool_decide_eq_true_2 by done. apply created_nonempty in Hin. lia.
      * intros T tT HT HfT. left.
        destruct (Hold Finished rtw T tT Haw HT) as [-> | HT'].
        -- rewrite (Hnew Finished rtw Haw) in HT. by injection HT as <-.
        -- destruct (Huniq T tT Hle HT' HfT) as [-> ->].
           rewrite (Hnew Finished rtw Haw) in HT. by injection HT.
    + destruct (Hts task _ Ht Hfor) as [? | Hm]; [done|]. simpl in Hm. subst m.
      assert (timer_tasks rtw = timer_tasks rt ∧ history rtw = history rt) as [Etw Ehw].
      { unfold rtw. rewrite timer_task_wake_eq, He. done. }
      rewrite Etw, Ehw. right. split; [done|]. split; [done|].
      intros T tT HT HfT. destruct (Hold Finished rtw T tT Haw HT) as [-> | HT'].
      * rewrite (Hnew Finished rtw Haw) in HT. injection HT as <-. by left.
      * by eapply Hts.
Qed.

Lemma fresh_resume_other_timer timer_id task t i delay_ms rt rt' :
  i ≠ timer_id →
  fresh_inv timer_id rt →
  all_tasks rt !! task = Some t →
  coro t = timer_task i delay_ms →
  resume lua_execute task rt = Some rt' →
  fresh_inv timer_id rt'.
Proof.
  intros Hne Hfresh Ht Hco.
  assert (∀ rt1 t1, all_tasks rt1 = all_tasks rt → all_tasks rt1 !! task = Some t1 →
            is_timer_for timer_id (coro t1) = false) as Hnot.
  { intros rt1 t1 -> Ht1. assert (t1 = t) as -> by congruence. rewrite Hco. simpl.
    by rewrite bool_decide_eq_false_2. }
  unfold resume. rewrite Ht. destruct t as [c s m]. simpl in *. subst c.
  destruct s as [|p|]; [| |done].
  - destruct m; intros [= <-];
      (apply fresh_set_task_state; [intros t1; by apply Hnot|done]).
  - intros [= <-]. destruct (timer_task_wake_frame task i m rt) as [Haw _].
    apply fresh_set_task_state; [intros t1; by apply Hnot|].
    rewrite timer_task_wake_eq.
    assert (∀ live, concerns timer_id (ev_expire task i live : event Any) = false)
      as Hexp.
    { intros live. unfold concerns. simpl. destruct live; [|done].
      by rewrite bool_decide_eq_false_2. }
    destruct m, (timer_tasks rt !! i) eqn:Hl; cbv zeta.
    + apply fresh_timer_tasks; [by rewrite lookup_delete_ne|done].
    + done.
    + apply fresh_timer_tasks; [simpl; by rewrite lookup_delete_ne|].
      apply fresh_enqueue. by apply fresh_ghost.
    + by apply fresh_ghost.
Qed.

Lemma fresh_host_stable timer_id rt0 :
  host_stable (λ rt, (tasks_ok rt ∧ keeps rt0 rt) ∧ fresh_inv timer_id rt).
Proof.
  pose proof (tasks_ok_keeps_stable rt0) as HS. split.
  - intros l rt [Hok Hf]. split; [by apply (stable_set_lua _ HS)|].
    by apply (fresh_ext timer_id rt).
  - intros s rt [Hok Hf]. split; [by apply (stable_print_text _ HS)|].
    by apply (fresh_ext timer_id rt).
  - intros rt [Hok Hf]. split; [by apply (stable_start_loop _ HS)|].
    apply fresh_set_callback_task; [|by apply fresh_spawn].
    exists (new_task run_timer_callbacks_loop). simpl.
    by rewrite lookup_app_r, Nat.sub_diag.
  - intros i d rt [Hok Hf]. split; [by apply (stable_create_timer _ HS)|].
    apply fresh_create_timer; [apply Hok|done].
  - intros i rt [Hok Hf]. split; [by apply (stable_cancel_timer _ HS)|].
    apply fresh_cancel_timer; [apply Hok|done].
Qed.

Lemma loop_iteration_eq task rt n cb q :
  timer_semaphore rt = S n → callback_queue rt = cb :: q →
  loop_iteration lua_execute task rt
  = Some (set_task_state task (Suspended await_acquire)
            (snd (dispatch lua_execute cb
                    (set_history (ev_get cb :: ev_acquire :: history rt)
                       (set_callback_queue q (set_timer_semaphore n rt)))))).
Proof.
  intros Hs Hq. unfold loop_iteration. rewrite Hs. py_unfold. simpl. by rewrite Hq.
Qed.

Lemma fresh_loop_iteration timer_id task t rt rt' :
  inv rt → fresh_inv timer_id rt →
  all_tasks rt !! task = Some t → coro t = run_timer_callbacks_loop →
  loop_iteration lua_execute task rt = Some rt' →
  fresh_inv timer_id rt'.
Proof.
  intros Hinv Hfresh Ht Hco. pose proof Hinv as [Hsem Hok Hty _ _ _ _ _ _].
  destruct (timer_semaphore rt) as [|n] eqn:Hn; [unfold loop_iteration; by rewrite Hn|].
  destruct (callback_queue rt) as [|cb q] eqn:Hq; [done|].
  rewrite (loop_iteration_eq task rt n cb q Hn Hq). intros [= <-].
  apply Forall_cons in Hty as [Hcb Hty].
  set (rt2 := set_history (ev_get cb :: ev_acquire :: history rt)
                (set_callback_queue q (set_timer_semaphore n rt))).
  assert (tasks_ok rt2) as Hok2 by exact Hok.
  destruct (dispatch_effect cb rt2 Hcb Hok2)
    as (rt1 & evs & Hd & _ & _ & _ & _ & _ & _ & Hk & Heq).
  fold rt2. rewrite Hd. cbn [snd].
  assert (fresh_inv timer_id rt1) as Hf1.
  { rewrite Heq. cbv zeta.
    set (rt_invoke := set_history (ev_invoke (callback_id cb) :: history rt2) rt2).
    assert ((tasks_ok rt_invoke ∧ keeps rt_invoke rt_invoke) ∧ fresh_inv timer_id rt_invoke)
      as Hstart.
    { split; [split; [exact Hok|apply keeps_refl]|].
      apply (fresh_events timer_id [ev_invoke (callback_id cb); ev_get cb; ev_acquire] rt);
        try done. by repeat constructor. }
    pose proof (execute_lua_callback_stable _ (fresh_host_stable timer_id rt_invoke)
                  (callback_id cb) (dispatched_data cb) rt_invoke Hstart) as [_ Hf].
    set (res := execute_lua_callback lua_execute (callback_id cb) (dispatched_data cb)
                  rt_invoke) in *.
    set (r := match fst res with Raised e => Some e | Returned _ => None end).
    assert (fresh_inv timer_id
              (set_history (ev_invoke_end (callback_id cb) r :: history (snd res)) (snd res)))
      as Hf'.
    { by apply (fresh_events timer_id [ev_invoke_end (callback_id cb) r] (snd res));
        [repeat constructor|..]. }
    destruct r; [|done]. by eapply fresh_ext; [..|exact Hf']. }
  apply fresh_set_task_state; [|done].
  intros t1 Ht1. assert (all_tasks rt1 !! task = Some t) as Ht'.
  { apply Hk; [done|]. by rewrite Hco. }
  assert (t1 = t) as -> by congruence. by rewrite Hco.
Qed.

Lemma fresh_resume timer_id task rt rt' :
  inv rt → fresh_inv timer_id rt →
  resume lua_execute task rt = Some rt' →
  fresh_inv timer_id rt'.
Proof.
  intros Hinv Hfresh Hres.
  destruct (all_tasks rt !! task) as [t|] eqn:Ht; [|unfold resume in Hres; by rewrite Ht in Hres].
  destruct (coro t) as [i d| |cb] eqn:Hco.
  - destruct (decide (i = timer_id)) as [-> | Hne].
    + by eapply fresh_resume_own_timer.
    + by eapply fresh_resume_other_timer.
  - assert (∀ s, fresh_inv timer_id (set_task_state task s rt)) as Hset.
    { intros s. apply fresh_set_task_state; [|done].
      intros t1 Ht1. assert (t1 = t) as -> by congruence. by rewrite Hco. }
    unfold resume in Hres. rewrite Ht, Hco in Hres.
    destruct (state t) as [|p|] eqn:Hst; [| |done].
    + destruct (must_cancel t); [by injection Hres as <-|].
      destruct (loop_iteration lua_execute task rt) as [rt1|] eqn:Hit.
      * injection Hres as <-. by eapply fresh_loop_iteration.
      * by injection Hres as <-.
    + destruct (must_cancel t); [by injection Hres as <-|].
      destruct p; try by eapply fresh_loop_iteration.
      destruct Hinv as [_ [Hg _] _ _ _ _ _ _ _]. by destruct (Hg _ _ Ht) as [Hne _].
  - unfold resume in Hres. rewrite Ht, Hco in Hres.
    destruct (state t); [|done|done].
    assert (∀ rt1 t1, all_tasks rt1 = all_tasks rt → all_tasks rt1 !! task = Some t1 →
              is_timer_for timer_id (coro t1) = false) as Hnot.
    { intros rt1 t1 -> Ht1. assert (t1 = t) as -> by congruence. by rewrite Hco. }
    destruct (must_cancel t); injection Hres as <-.
    + apply fresh_set_task_state; [intros t1; by apply Hnot|done].
    + apply fresh_set_task_state; [intros t1; by apply Hnot|]. by apply fresh_enqueue.
Qed.

Lemma fresh_step timer_id a rt rt' :
  inv rt → fresh_inv timer_id rt →
  step lua_execute a rt = Some rt' →
  fresh_inv timer_id rt'.
Proof.
  intros Hinv Hfresh.
  pose proof (fresh_host_stable timer_id rt) as HS.
  assert ((tasks_ok rt ∧ keeps rt rt) ∧ fresh_inv timer_id rt) as Hstart.
  { split; [split; [apply Hinv|apply keeps_refl]|done]. }
  destruct a as [task|s0|script source_name debugging debug|filepath debugging debug
                |debug|[] timer_id' delay_ms|timer_id'|[] callback_id result_data| |]; simpl.
  - by apply fresh_resume.
  - intros [= <-]. by apply (initialize_stable _ HS).
  - intros [= <-]. by apply (execute_script_stable _ HS).
  - intros [= <-]. by apply (execute_file_stable _ HS).
  - intros [= <-]. by apply (execute_debug_main_stable _ HS).
  - intros [= <-]. by apply (python_timer_stable _ HS).
  - intros [= <-]. by destruct (python_timer_off_loop timer_id' delay_ms rt) as [msg ->].
  - intros [= <-]. by apply (stable_cancel_timer _ HS).
  - intros [= <-]. rewrite queue_lua_callback_on_loop. cbn [snd]. cbv zeta.
    apply fresh_spawn; [done|].
    destruct (ensure_callback_loop_running_on_loop rt) as [-> | ->]; [done|].
    by apply (stable_start_loop _ HS).
  - intros [= <-]. by rewrite queue_lua_callback_off_loop.
  - intros [= <-]. by apply (stable_start_loop _ HS).
  - intros [= <-]. rewrite stop_eq. cbn [snd]. cbv zeta.
    destruct (callback_task rt) as [c|] eqn:Hc; [|by apply (fresh_ext timer_id rt)].
    apply (fresh_ext timer_id (snd (task_cancel c rt))); try done.
    apply fresh_task_cancel; [|done].
    intros t Ht. destruct (fresh_loop _ _ Hfresh c Hc) as (t' & Ht' & Hlo).
    assert (t = t') as -> by congruence. by rewrite Hlo.
Qed.

Lemma fresh_init timer_id : fresh_inv timer_id (@init LuaState Any).
Proof.
  split; try done. intros _. right. by split_and!.
Qed.

Lemma reachable_fresh timer_id rt :
  reachable lua_execute rt → fresh_inv timer_id rt.
Proof.
  induction 1 as [|rt a rt' Hr IH Hstep]; [apply fresh_init|].
  by apply (fresh_step timer_id a rt rt' (reachable_inv rt Hr)).
Qed.

(** X8: the race property for a timer id that is created once.  In every state
    the system reaches, such an id has had at most one of the two outcomes,
    a successful cancel or a dispatching expiry, and:
    - either none yet, and then the timer is pending: the id is registered,
      its task has neither finished nor been cancelled, a cancel issued now
      returns True, and the end of the delay puts the timer's event on the
      queue;
    - or exactly one, and then the id is not registered: the race is
      decided, for good. *)
Lemma timer_created_once_has_exactly_one_outcome rt timer_id :
  reachable lua_execute rt →
  creates timer_id (history rt) = 1 →
  cancel_successes timer_id (history rt) + expiry_dispatches timer_id (history rt) ≤ 1
  ∧ ((cancel_successes timer_id (history rt) = 0
      ∧ expiry_dispatches timer_id (history rt) = 0
      ∧ ∃ task t,
          timer_tasks rt !! timer_id = Some task
          ∧ all_tasks rt !! task = Some t
          ∧ state t ≠ Finished
          ∧ must_cancel t = false
          ∧ (∃ rt', python_cancel_timer timer_id rt = (Returned true, rt')
                    ∧ cancel_successes timer_id (history rt') = 1)
          ∧ (∀ p, state t = Suspended p →
               ∃ rt', resume lua_execute task rt = Some rt'
                 ∧ callback_queue rt'
                   = callback_queue rt
                     ++ [{| type := "timer"; callback_id := timer_id; data := None |}]
                 ∧ expiry_dispatches timer_id (history rt') = 1))
     ∨ (cancel_successes timer_id (history rt) + expiry_dispatches timer_id (history rt) = 1
        ∧ timer_tasks rt !! timer_id = None)).
Proof.
  intros Hr Hone.
  pose proof (outcomes_bounded_by_creations rt timer_id Hr) as Hle.
  split; [lia|].
  destruct (reachable_fresh timer_id rt Hr) as [_ _ Ho].
  destruct Ho as [(task & t & d & He & Ht & Hco & Hst & Hmc & Hcs & Hed)
                 | (He & Hn & _)]; [lia| |right; split; [lia|done]].
  left. split; [done|]. split; [done|]. exists task, t.
  split; [done|]. split; [done|]. split; [done|]. split; [done|]. split.
  - eexists. split; [by apply python_cancel_timer_found_eq|].
    cbv zeta. cbn [history set_history].
    unfold cancel_successes in *. simpl. rewrite bool_decide_eq_true_2 by done.
    assert (history (snd (task_cancel task rt)) = history rt) as ->
      by by destruct (task_cancel_cases task rt) as [-> | (? & _ & _ & ->)].
    lia.
  - intros p Hp.
    eexists. split; [by eapply resume_sleeping_timer|].
    destruct (set_task_state_frame task Finished
                (snd (timer_task_wake task timer_id (must_cancel t) rt)))
      as (-> & -> & _).
    rewrite timer_task_wake_eq, Hmc, He. split; [done|].
    unfold expiry_dispatches in *. simpl. rewrite bool_decide_eq_true_2 by done. lia.
Qed.

(** * Further properties of the runtime and of the interpreter *)

(** ** Calls made off the event loop *)

(** X1: nothing is scheduled from a thread that has no running event loop.
    [python_timer] raises RuntimeError.  [queue_lua_callback] raises
    RuntimeError when the callback loop is not running (never started, or
    done); when it is running, the call returns normally and the callback is
    dropped: both attempts to create the [_queue_callback] task fail and the
    second failure is swallowed.  In every case the runtime is left as it
    was: no task, no timer, no queue entry. *)
Theorem nothing_is_scheduled_off_the_event_loop rt :
  let stale := match callback_task rt with
               | None => true
               | Some task => task_done task rt
               end in
  (∀ timer_id delay_ms,
     python_timer false timer_id delay_ms rt
     = (Raised (RuntimeError "no running event loop"), rt))
  ∧ (∀ callback_id result_data,
       queue_lua_callback false callback_id result_data rt
       = (if stale then Raised (RuntimeError "no running event loop") else Returned tt,
          rt)).
Proof.
  cbv zeta. split.
  - intros timer_id delay_ms.
    unfold python_timer, _ensure_callback_loop_running, create_timer. py_unfold.
    destruct (callback_task rt) as [task|]; [destruct (task_done task rt)|]; done.
  - intros callback_id result_data.
    unfold queue_lua_callback, _ensure_callback_loop_running. py_unfold.
    destruct (callback_task rt) as [task|]; [destruct (task_done task rt)|]; done.
Qed.

(** ** Errors of the engine *)

Lemma run_lua_result r rt :
  (∃ v, fst (run_lua r rt) = Returned v)
  ∨ (∃ msg, fst (run_lua r rt) = Raised (LuaError msg)).
Proof.
  revert rt. induction r as [s v|s msg|timer_id delay_ms k IH|timer_id k IH];
    intros rt; simpl; eauto.
  - unfold py_bind. rewrite python_timer_on_loop, create_timer_on_loop. apply IH.
  - unfold py_bind.
    destruct (python_cancel_timer_returns timer_id rt) as [found Hf].
    destruct (python_cancel_timer timer_id rt) as [res rt1]. simpl in *. subst res.
    apply IH.
Qed.

Lemma run_lua_initialized r rt : is_Some (lua (interpreter (snd (run_lua r rt)))).
Proof.
  revert rt. induction r as [s v|s msg|timer_id delay_ms k IH|timer_id k IH];
    intros rt; simpl; eauto.
  - unfold py_bind. rewrite python_timer_on_loop, create_timer_on_loop. apply IH.
  - unfold py_bind.
    destruct (python_cancel_timer_returns timer_id rt) as [found Hf].
    destruct (python_cancel_timer timer_id rt) as [res rt1]. simpl in *. subst res.
    apply IH.
Qed.

(** X2: on an initialized interpreter, [execute_file] hands the file to the
    main-file hook and ignores its arguments [debugging] and [debug].  It
    never lets a Lua error through: if the hook fails with error [e], the
    caller gets RuntimeError "main_file_hook failed for <filepath>: <e>",
    and what the hook did to the runtime before it failed stays done. *)
Theorem execute_file_wraps_engine_errors rt s filepath debugging debug :
  lua (interpreter rt) = Some s →
  let run := lua_runtime_execute lua_execute s (chunk_main_file_hook filepath) rt in
  execute_file lua_execute filepath debugging debug rt
  = (match fst run with
     | Returned _ => Returned tt
     | Raised e =>
         Raised (RuntimeError ("main_file_hook failed for " +:+ filepath +:+ ": "
                               +:+ exception_str e))
     end, snd run)
  ∧ (∀ msg, fst (execute_file lua_execute filepath debugging debug rt)
            ≠ Raised (LuaError msg))
  ∧ execute_file lua_execute filepath debugging debug rt
    = execute_file lua_execute filepath false false rt.
Proof.
  intros Hs run.
  assert (execute_file lua_execute filepath debugging debug rt
          = (match fst run with
             | Returned _ => Returned tt
             | Raised e =>
                 Raised (RuntimeError ("main_file_hook failed for " +:+ filepath +:+ ": "
                                       +:+ exception_str e))
             end, snd run)) as Heq.
  { unfold execute_file. py_unfold. rewrite Hs. unfold run, lua_runtime_execute.
    destruct (run_lua_result (lua_execute s (chunk_main_file_hook filepath)) rt)
      as [[v Hv]|[msg Hm]];
      destruct (run_lua _ rt) as [res rt1]; simpl in *; by subst res. }
  split; [done|]. split; [|done].
  intros msg. rewrite Heq. simpl. by destruct (fst run).
Qed.

(** X3: [initialize] stores the new engine in [self.lua] before it runs
    init.lua.  So the interpreter counts as initialized after the call even
    when init.lua failed and [initialize] raised: the entry points no longer
    refuse to run, and [execute_script] enters the engine with the state the
    failed initialization left. *)
Theorem failed_initialize_leaves_the_interpreter_initialized s0 rt :
  let rt' := snd (initialize lua_execute s0 rt) in
  ∃ s, lua (interpreter rt') = Some s
    ∧ ∀ script debugging debug,
        execute_script lua_execute script None debugging debug rt'
        = (match fst (lua_runtime_execute lua_execute s (chunk_run_wrapped script) rt') with
           | Returned _ => Returned tt
           | Raised e => Raised e
           end,
           snd (lua_runtime_execute lua_execute s (chunk_run_wrapped script) rt')).
Proof.
  cbv zeta.
  assert (is_Some (lua (interpreter (snd (initialize lua_execute s0 rt))))) as [s Hs].
  { unfold initialize, lua_runtime_execute. py_unfold.
    pose proof (run_lua_initialized (lua_execute s0 chunk_init) (set_lua (Some s0) rt)) as H.
    by destruct (run_lua _ _) as [[]]. }
  exists s. split; [done|]. intros script debugging debug.
  unfold execute_script. py_unfold. rewrite Hs.
  by destruct (lua_runtime_execute _ _ _ _) as [[]].
Qed.

(** ** A timer that is cancelled before its task has run *)

(** X4: [python_timer] followed at once by [python_cancel_timer] of the same
    id, both on the event loop.  The cancel returns True and the registry is
    what it was before, without the id; the queue and the semaphore are
    untouched.  The timer's task is still in its first state, with its
    cancellation requested: when the event loop reaches it, it ends without
    entering the body, so it never sleeps and never fires.  A second cancel
    returns False. *)
Theorem timer_cancelled_before_it_starts_never_fires rt timer_id delay_ms :
  ∃ task rt1 rt2,
    python_timer true timer_id delay_ms rt = (Returned task, rt1)
    ∧ python_cancel_timer timer_id rt1 = (Returned true, rt2)
    ∧ timer_tasks rt2 = delete timer_id (timer_tasks rt)
    ∧ callback_queue rt2 = callback_queue rt
    ∧ timer_semaphore rt2 = timer_semaphore rt
    ∧ all_tasks rt2 !! task
      = Some {| coro := timer_task timer_id delay_ms; state := Scheduled;
                must_cancel := true |}
    ∧ resume lua_execute task rt2 = Some (set_task_state task Finished rt2)
    ∧ callback_queue (set_task_state task Finished rt2) = callback_queue rt
    ∧ timer_semaphore (set_task_state task Finished rt2) = timer_semaphore rt
    ∧ fst (python_cancel_timer timer_id rt2) = Returned false
    ∧ fst (python_cancel_timer timer_id (set_task_state task Finished rt2))
      = Returned false.
Proof.
  rewrite python_timer_on_loop, create_timer_on_loop.
  set (rt0 := snd (_ensure_callback_loop_running true rt)).
  assert (timer_tasks rt0 = timer_tasks rt ∧ callback_queue rt0 = callback_queue rt
          ∧ timer_semaphore rt0 = timer_semaphore rt) as (Htt & Hq & Hsem).
  { unfold rt0. by destruct (ensure_callback_loop_running_on_loop rt) as [-> | ->]. }
  set (task := length (all_tasks rt0)).
  set (t := {| coro := timer_task timer_id delay_ms; state := Scheduled;
               must_cancel := false |}).
  set (rt1 := set_history _ _).
  assert (timer_tasks rt1 !! timer_id = Some task) as Hreg
    by (simpl; apply lookup_insert_eq).
  assert (all_tasks rt1 !! task = Some t) as Ht.
  { simpl. by rewrite lookup_app_r, Nat.sub_diag. }
  assert (task_cancel task rt1
          = (Returned tt,
             set_all_tasks
               (<[task := {| coro := coro t; state := state t; must_cancel := true |}]>
                  (all_tasks rt1)) rt1)) as Hcancel.
  { unfold task_cancel. py_unfold. by rewrite Ht. }
  eexists task, rt1, _. split; [done|].
  split; [by apply python_cancel_timer_found_eq|].
  rewrite Hcancel. cbn [snd]. cbv zeta.
  set (rt2 := set_history _ _).
  assert (all_tasks rt2 !! task
          = Some {| coro := timer_task timer_id delay_ms; state := Scheduled;
                    must_cancel := true |}) as Ht2.
  { simpl. apply list_lookup_insert_eq. rewrite length_app. simpl. unfold task. lia. }
  assert (timer_tasks rt2 !! timer_id = None) as Hdead
    by (simpl; apply lookup_delete_eq).
  split_and!.
  - simpl. by rewrite delete_insert_eq, Htt.
  - done.
  - done.
  - done.
  - unfold resume. by rewrite Ht2.
  - by rewrite (proj1 (set_task_state_frame _ _ _)).
  - by rewrite (proj1 (proj2 (proj2 (set_task_state_frame _ _ _)))).
  - by rewrite (python_cancel_timer_not_found _ _ Hdead).
  - rewrite python_cancel_timer_not_found; [done|].
    by rewrite (proj1 (proj2 (proj2 (proj2 (set_task_state_frame _ _ _))))).
Qed.

(** ** Reported failures *)

(** X5: in every state the system reaches, the callback errors that the
    dispatch loop has printed are exactly the engine invocations that
    raised, with the callback's id and the exception, in the same order:
    every failure is printed once and nothing else is reported. *)
Theorem every_callback_failure_is_printed_once rt :
  reachable lua_execute rt →
  reported (stdout rt) = failures (history rt).
Proof. intros Hr. by destruct (reachable_inv rt Hr). Qed.


(** ** A new callback loop takes over the queue *)

(** X21: whatever was queued and not yet dispatched, for instance because
    [stop] had ended the callback loop, is not lost: in every state the
    system reaches, the loop that [start_callback_loop] creates is alive,
    and resumed once per queued callback it takes all of them, in the order
    in which they were queued, and is alive afterwards. *)
Theorem new_callback_loop_drains_the_queue rt :
  reachable lua_execute rt →
  let c := length (all_tasks rt) in
  ∃ rt1 rt',
    start_callback_loop rt = (Returned tt, rt1)
    ∧ callback_task rt1 = Some c
    ∧ callback_queue rt1 = callback_queue rt
    ∧ loop_ready rt1 c
    ∧ run_actions lua_execute (repeat (run c) (length (callback_queue rt))) rt1 = Some rt'
    ∧ callback_queue rt' = []
    ∧ rev (gets (history rt')) = rev (gets (history rt)) ++ callback_queue rt
    ∧ rev (invoked (history rt')) = callback_id <$> rev (gets (history rt'))
    ∧ loop_ready rt' c.
Proof.
  intros Hr c.
  set (rt1 := set_callback_task (Some c)
                (set_all_tasks (all_tasks rt ++ [new_task run_timer_callbacks_loop]) rt)).
  assert (start_callback_loop rt = (Returned tt, rt1)) as Hstart by done.
  assert (reachable lua_execute rt1) as Hr1.
  { by apply (reachable_step _ rt call_start_callback_loop). }
  assert (loop_ready rt1 c) as Hready.
  { exists (new_task run_timer_callbacks_loop). simpl.
    rewrite lookup_app_r, Nat.sub_diag by done. split_and!; auto. }
  destruct (ready_loop_drains rt1 c (callback_queue rt) rt1
              (good_refl rt1 (reachable_inv rt1 Hr1)) Hready eq_refl)
    as (rt' & Hrun & [Hinv' _] & Hready' & Hq' & Hgets).
  exists rt1, rt'. split_and!; try done.
  by rewrite (inv_invoked rt' Hinv'), fmap_rev.
Qed.


(** ** A submission between [stop] and the end of the callback loop *)

(** X22: [_ensure_callback_loop_running] takes a callback loop whose
    cancellation is requested but not yet delivered for a running one.  A
    callback submitted in this state, on the event loop, gets its
    [_queue_callback] task and no new callback loop.  When the event loop
    then delivers the cancellation and runs the new task, the callback is
    on the queue with the semaphore released for it, and the callback task
    of the runtime is done: the callback waits until a later submission or
    [start_callback_loop] starts a loop. *)
Theorem submission_before_the_loop_has_ended_starts_no_loop rt c t callback_id
    result_data :
  callback_task rt = Some c →
  all_tasks rt !! c = Some t →
  coro t = run_timer_callbacks_loop →
  done t = false →
  must_cancel t = true →
  let cb := {| type := "lua_callback"; callback_id := callback_id;
               data := result_data |} in
  let submitted := length (all_tasks rt) in
  ∃ rt1 rt2,
    queue_lua_callback true callback_id result_data rt = (Returned tt, rt1)
    ∧ callback_task rt1 = Some c
    ∧ all_tasks rt1 = all_tasks rt ++ [new_task (_queue_callback cb)]
    ∧ run_actions lua_execute [run c; run submitted] rt1 = Some rt2
    ∧ callback_queue rt2 = callback_queue rt ++ [cb]
    ∧ timer_semaphore rt2 = S (timer_semaphore rt)
    ∧ callback_task rt2 = Some c
    ∧ task_done c rt2 = true
    ∧ history rt2 = ev_release :: ev_put cb :: history rt.
Proof.
  intros Hc Ht Hco Hd Hm cb submitted.
  assert (_ensure_callback_loop_running true rt = (Returned tt, rt)) as Hens.
  { unfold _ensure_callback_loop_running, task_done. py_unfold. by rewrite Hc, Ht, Hd. }
  set (rt1 := set_all_tasks (all_tasks rt ++ [new_task (_queue_callback cb)]) rt).
  assert (queue_lua_callback true callback_id result_data rt = (Returned tt, rt1)) as Hq.
  { rewrite queue_lua_callback_on_loop, Hens. done. }
  assert (c < length (all_tasks rt)) as Hlt by (by eapply lookup_lt_Some).
  assert (all_tasks rt1 !! c = Some t) as Ht1 by (by apply lookup_app_l_Some).
  assert (state t ≠ Finished) as Hst by (unfold done in Hd; by destruct (state t)).
  set (rt1' := set_task_state c Finished rt1).
  assert (resume lua_execute c rt1 = Some rt1') as Hres1.
  { unfold resume. rewrite Ht1, Hco, Hm. by destruct (state t). }
  assert (all_tasks rt1' !! submitted = Some (new_task (_queue_callback cb))) as Hsub.
  { unfold rt1', set_task_state. rewrite Ht1. simpl.
    rewrite list_lookup_insert_ne by (unfold submitted; lia).
    by rewrite lookup_app_r, Nat.sub_diag. }
  assert (all_tasks rt1' !! c
          = Some {| coro := coro t; state := Finished; must_cancel := must_cancel t |})
    as Hc1'.
  { unfold rt1', set_task_state. rewrite Ht1. simpl.
    apply list_lookup_insert_eq. rewrite length_app. lia. }
  set (rt2 := set_task_state submitted Finished (snd (queue_callback_body cb rt1'))).
  assert (resume lua_execute submitted rt1' = Some rt2) as Hres2.
  { unfold resume. by rewrite Hsub. }
  exists rt1, rt2. split; [done|]. split; [done|]. split; [done|].
  split; [simpl; by rewrite Hres1, Hres2|].
  assert (callback_queue rt1' = callback_queue rt ∧ timer_semaphore rt1' = timer_semaphore rt
          ∧ history rt1' = history rt ∧ callback_task rt1' = Some c) as (Hq1 & Hs1 & Hh1 & Hc1).
  { unfold rt1', set_task_state. by rewrite Ht1. }
  assert (all_tasks (snd (queue_callback_body cb rt1')) = all_tasks rt1') as Hall by done.
  unfold rt2, set_task_state. rewrite Hall, Hsub. simpl.
  rewrite Hq1, Hs1, Hh1, Hc1. split_and!; try done.
  unfold task_done. simpl.
  rewrite list_lookup_insert_ne by (unfold submitted; lia). by rewrite Hc1'.
Qed.

(** ** The registry holds pending timers only, and a timer callback is
    queued once per expiry *)

Local Arguments timer_puts : simpl never.

Lemma silent_counts (e : event Any) h timer_id :
  silent e →
  timer_puts timer_id (e :: h) = timer_puts timer_id h
  ∧ expiry_dispatches timer_id (e :: h) = expiry_dispatches timer_id h.
Proof.
  intros He. destruct (He timer_id) as [H1 H2].
  unfold timer_puts, expiry_dispatches. simpl. by rewrite H1, H2.
Qed.

Lemma host_event_silent (e : event Any) : is_host_event e = true → silent e.
Proof. by destruct e. Qed.

Lemma reg_ext rt rt' :
  all_tasks rt' = all_tasks rt →
  timer_tasks rt' = timer_tasks rt →
  history rt' = history rt →
  registry_inv rt → registry_inv rt'.
Proof. intros Ha Ht Hh [H1 H2 H3]. split; rewrite ?Ha, ?Ht, ?Hh; done. Qed.

Lemma reg_ghost (e : event Any) rt :
  silent e → registry_inv rt → registry_inv (set_history (e :: history rt) rt).
Proof.
  intros He [H1 H2 H3]. split; [done|done|]. intros timer_id. simpl.
  destruct (silent_counts e (history rt) timer_id He) as [-> ->]. apply H3.
Qed.

Lemma reg_events evs rt rt' :
  Forall silent evs →
  all_tasks rt' = all_tasks rt →
  timer_tasks rt' = timer_tasks rt →
  history rt' = evs ++ history rt →
  registry_inv rt → registry_inv rt'.
Proof.
  intros Hevs Ha Ht Hh Hreg.
  apply (reg_ext (set_history (evs ++ history rt) rt)); try done.
  clear Hh. induction Hevs as [|e evs He _ IH]; simpl.
  - by apply (reg_ext rt).
  - by apply (reg_ghost e (set_history (evs ++ history rt) rt)).
Qed.

Lemma reg_spawn (c : coroutine Any) rt :
  (∀ cb, c = _queue_callback cb → type cb = "lua_callback") →
  registry_inv rt →
  registry_inv (set_all_tasks (all_tasks rt ++ [new_task c]) rt).
Proof.
  intros Hc [H1 H2 H3]. split; simpl; [| |done].
  - intros timer_id task (t & d & Ht & Hrest)%H1.
    exists t, d. split; [by apply lookup_app_l_Some|done].
  - intros task t cb [H | [_ H]]%lookup_app_Some Hco; [by eapply H2|].
    apply list_lookup_singleton_Some in H as [_ <-]. by apply Hc.
Qed.

Lemma reg_update_task task t t' rt :
  all_tasks rt !! task = Some t →
  coro t' = coro t →
  (∀ timer_id, timer_tasks rt !! timer_id = Some task →
     state t' ≠ Finished ∧ must_cancel t' = false) →
  registry_inv rt →
  registry_inv (set_all_tasks (<[task := t']> (all_tasks rt)) rt).
Proof.
  intros Htask Hco Hsafe [H1 H2 H3]. split; simpl; [| |done].
  - intros timer_id task0 Hreg. destruct (H1 _ _ Hreg) as (t0 & d & Ht0 & Hc0 & Hrest).
    destruct (decide (task0 = task)) as [-> | Hne].
    + assert (t0 = t) as -> by congruence.
      destruct (Hsafe _ Hreg) as [Hs Hm].
      exists t', d. split; [apply list_lookup_insert_eq; by eapply lookup_lt_Some|].
      split; [congruence|done].
    + exists t0, d. by rewrite list_lookup_insert_ne.
  - intros i ti cb [(<- & <- & _) | [Hne H]]%list_lookup_insert_Some Hci.
    + eapply H2; [exact Htask|congruence].
    + by eapply H2.
Qed.

Lemma reg_set_task_state task s rt :
  s ≠ Finished ∨ not_registered rt task →
  registry_inv rt → registry_inv (set_task_state task s rt).
Proof.
  intros Hsafe Hreg. unfold set_task_state.
  destruct (all_tasks rt !! task) as [t|] eqn:Ht; [|done].
  apply (reg_update_task task t); try done.
  intros timer_id Hl. simpl.
  destruct Hsafe as [Hs | Hnot]; [|by destruct (Hnot timer_id)].
  split; [done|].
  destruct (reg_pending rt Hreg _ _ Hl) as (t0 & d & Ht0 & _ & _ & Hm0). congruence.
Qed.

Lemma not_timer_not_registered task t rt :
  registry_inv rt → all_tasks rt !! task = Some t →
  is_timer_task (coro t) = false ∨ must_cancel t = true ∨ state t = Finished →
  not_registered rt task.
Proof.
  intros Hreg Ht Hcase timer_id Hl.
  destruct (reg_pending rt Hreg _ _ Hl) as (t0 & d & Ht0 & Hc0 & Hs0 & Hm0).
  assert (t0 = t) as -> by congruence. rewrite Hc0 in Hcase. simpl in Hcase.
  destruct Hcase as [|[|]]; congruence.
Qed.

Lemma reg_task_cancel task rt :
  not_registered rt task → registry_inv rt → registry_inv (snd (task_cancel task rt)).
Proof.
  intros Hnot Hreg.
  destruct (task_cancel_cases task rt) as [-> | (t & Ht & _ & ->)]; [done|].
  apply (reg_update_task task t); [done|done| |done].
  intros timer_id Hl. by destruct (Hnot timer_id).
Qed.

Lemma reg_delete timer_id rt :
  registry_inv rt →
  registry_inv (set_timer_tasks (delete timer_id (timer_tasks rt)) rt).
Proof.
  intros [H1 H2 H3]. split; simpl; [|done|done].
  intros i task [_ Hl]%lookup_delete_Some. by apply H1.
Qed.

Lemma reg_create_timer timer_id delay_ms rt :
  registry_inv rt → registry_inv (snd (create_timer true timer_id delay_ms rt)).
Proof.
  intros Hreg. rewrite create_timer_on_loop. cbn [snd].
  apply (reg_events [ev_create timer_id (length (all_tasks rt))]
           (set_timer_tasks (<[timer_id := length (all_tasks rt)]> (timer_tasks rt))
              (set_all_tasks (all_tasks rt ++ [new_task (timer_task timer_id delay_ms)]) rt)));
    [repeat constructor; by apply host_event_silent|done|done|done|].
  pose proof (reg_spawn (timer_task timer_id delay_ms) rt) as Hsp.
  destruct Hsp as [H1 H2 H3]; [done|done|]. split; simpl; [|done|done].
  intros i task [[<- <-] | [Hne Hl]]%lookup_insert_Some.
  - exists (new_task (timer_task timer_id delay_ms)), delay_ms.
    split; [by rewrite lookup_app_r, Nat.sub_diag|done].
  - by apply H1.
Qed.

Lemma reg_cancel_timer timer_id rt :
  registry_inv rt → registry_inv (snd (python_cancel_timer timer_id rt)).
Proof.
  intros Hreg. destruct (timer_tasks rt !! timer_id) as [task|] eqn:Hl.
  - rewrite (python_cancel_timer_found_eq _ _ _ Hl). cbn [snd]. cbv zeta.
    set (rt1 := snd (task_cancel task rt)).
    apply (reg_events [ev_cancel timer_id (Some task)]
             (set_timer_tasks (delete timer_id (timer_tasks rt1)) rt1));
      [repeat constructor; by apply host_event_silent|done|done|done|].
    destruct (reg_pending rt Hreg _ _ Hl) as (t & d & Ht & Hc & Hs & Hm).
    assert (rt1 = set_all_tasks
              (<[task := {| coro := coro t; state := state t; must_cancel := true |}]>
                 (all_tasks rt)) rt) as ->.
    { unfold rt1, task_cancel. py_unfold. rewrite Ht. unfold done.
      by destruct (state t). }
    destruct Hreg as [H1 H2 H3]. split; simpl; [| |done].
    + intros i task0 [Hne Hl0]%lookup_delete_Some.
      destruct (H1 _ _ Hl0) as (t0 & d0 & Ht0 & Hc0 & Hrest).
      exists t0, d0. split; [|done].
      rewrite list_lookup_insert_ne; [done|]. intros <-.
      assert (t0 = t) as -> by congruence. congruence.
    + intros i ti cb [(<- & <- & _) | [Hne H]]%list_lookup_insert_Some Hci.
      * eapply H2; [exact Ht|done].
      * by eapply H2.
  - rewrite (python_cancel_timer_not_found _ _ Hl). cbn [snd].
    apply reg_ghost; [|done]. by apply host_event_silent.
Qed.

Lemma reg_host_stable rt0 :
  host_stable (λ rt, (tasks_ok rt ∧ keeps rt0 rt) ∧ registry_inv rt).
Proof.
  pose proof (tasks_ok_keeps_stable rt0) as HS. split.
  - intros l rt [Hok Hr]. split; [by apply (stable_set_lua _ HS)|].
    by apply (reg_ext rt).
  - intros s rt [Hok Hr]. split; [by apply (stable_print_text _ HS)|].
    by apply (reg_ext rt).
  - intros rt [Hok Hr]. split; [by apply (stable_start_loop _ HS)|].
    apply (reg_ext (set_all_tasks (all_tasks rt ++ [new_task run_timer_callbacks_loop]) rt));
      try done.
    by apply reg_spawn.
  - intros i d rt [Hok Hr]. split; [by apply (stable_create_timer _ HS)|].
    by apply reg_create_timer.
  - intros i rt [Hok Hr]. split; [by apply (stable_cancel_timer _ HS)|].
    by apply reg_cancel_timer.
Qed.

Lemma reg_enqueue_lua_callback cb rt :
  type cb = "lua_callback" →
  registry_inv rt → registry_inv (snd (queue_callback_body cb rt)).
Proof.
  intros Hty Hreg.
  apply (reg_events [ev_release; ev_put cb] rt); [|done|done|done|done].
  apply Forall_cons. split; [by intros i|]. apply Forall_cons. split; [|by apply Forall_nil].
  intros i. split; [|done]. simpl. apply bool_decide_eq_false.
  intros [H _]. by rewrite Hty in H.
Qed.

Lemma reg_timer_task_wake task t timer_id delay_ms rt :
  registry_inv rt →
  all_tasks rt !! task = Some t →
  coro t = timer_task timer_id delay_ms →
  let rt' := snd (timer_task_wake task timer_id (must_cancel t) rt) in
  registry_inv rt' ∧ not_registered rt' task.
Proof.
  intros Hreg Ht Hco rt'.
  assert (∀ rt1, all_tasks rt1 = all_tasks rt → registry_inv rt1 →
            not_registered (set_timer_tasks (delete timer_id (timer_tasks rt1)) rt1) task)
    as Hnot.
  { intros rt1 Ha Hreg1 i. simpl. intros [Hne Hl]%lookup_delete_Some.
    destruct (reg_pending rt1 Hreg1 _ _ Hl) as (t0 & d & Ht0 & Hc0 & _).
    rewrite Ha in Ht0. assert (t0 = t) as -> by congruence. congruence. }
  unfold rt'. rewrite timer_task_wake_eq.
  destruct (must_cancel t) eqn:Hm.
  - destruct (timer_tasks rt !! timer_id) as [owner|] eqn:Hl.
    + split; [by apply reg_delete|by apply Hnot].
    + split; [done|]. eapply not_timer_not_registered; eauto.
  - destruct (timer_tasks rt !! timer_id) as [owner|] eqn:Hl.
    + cbv zeta.
      set (rt1 := snd (queue_callback_body _ _)).
      assert (registry_inv rt1) as Hreg1.
      { destruct Hreg as [H1 H2 H3]. split; [done|done|].
        intros i. unfold rt1, queue_callback_body, callback_queue_put,
          timer_semaphore_release. py_unfold. simpl.
        unfold timer_puts, expiry_dispatches in *. simpl. rewrite H3.
        destruct (decide (timer_id = i)) as [-> | Hne].
        - by rewrite !bool_decide_eq_true_2.
        - rewrite !bool_decide_eq_false_2; [done|congruence|by intros [_ ?]]. }
      split; [by apply reg_delete|by apply Hnot].
    + split.
      * apply reg_ghost; [|done]. by intros i.
      * intros i Hi. simpl in Hi.
        destruct (reg_pending rt Hreg _ _ Hi) as (t0 & d & Ht0 & Hc0 & _).
        assert (t0 = t) as -> by congruence. congruence.
Qed.

Lemma reg_loop_iteration task t rt rt' :
  inv rt → registry_inv rt →
  all_tasks rt !! task = Some t → coro t = run_timer_callbacks_loop →
  loop_iteration lua_execute task rt = Some rt' →
  registry_inv rt'.
Proof.
  intros Hinv Hreg Ht Hco. pose proof Hinv as [Hsem Hok Hty _ _ _ _ _ _].
  destruct (timer_semaphore rt) as [|n] eqn:Hn; [unfold loop_iteration; by rewrite Hn|].
  destruct (callback_queue rt) as [|cb q] eqn:Hq; [done|].
  rewrite (loop_iteration_eq task rt n cb q Hn Hq). intros [= <-].
  apply Forall_cons in Hty as [Hcb Hty].
  set (rt2 := set_history (ev_get cb :: ev_acquire :: history rt)
                (set_callback_queue q (set_timer_semaphore n rt))).
  assert (tasks_ok rt2) as Hok2 by exact Hok.
  destruct (dispatch_effect cb rt2 Hcb Hok2)
    as (rt1 & evs & Hd & _ & _ & _ & _ & _ & _ & Hk & Heq).
  fold rt2. rewrite Hd. cbn [snd].
  assert (registry_inv rt1) as Hr1.
  { rewrite Heq. cbv zeta.
    set (rt_invoke := set_history (ev_invoke (callback_id cb) :: history rt2) rt2).
    assert ((tasks_ok rt_invoke ∧ keeps rt_invoke rt_invoke) ∧ registry_inv rt_invoke)
      as Hstart.
    { split; [split; [exact Hok|apply keeps_refl]|].
      apply (reg_events [ev_invoke (callback_id cb); ev_get cb; ev_acquire] rt);
        try done. by repeat constructor. }
    pose proof (execute_lua_callback_stable _ (reg_host_stable rt_invoke)
                  (callback_id cb) (dispatched_data cb) rt_invoke Hstart) as [_ Hf].
    set (res := execute_lua_callback lua_execute (callback_id cb) (dispatched_data cb)
                  rt_invoke) in *.
    set (r := match fst res with Raised e => Some e | Returned _ => None end).
    assert (registry_inv
              (set_history (ev_invoke_end (callback_id cb) r :: history (snd res)) (snd res)))
      as Hf' by (by apply reg_ghost).
    destruct r; [|done]. by eapply reg_ext; [..|exact Hf']. }
  apply reg_set_task_state; [by left|done].
Qed.

Lemma reg_resume task rt rt' :
  inv rt → registry_inv rt →
  resume lua_execute task rt = Some rt' →
  registry_inv rt'.
Proof.
  intros Hinv Hreg Hres.
  destruct (all_tasks rt !! task) as [t|] eqn:Ht; [|unfold resume in Hres; by rewrite Ht in Hres].
  unfold resume in Hres. rewrite Ht in Hres.
  destruct (coro t) as [i d| |cb] eqn:Hco.
  - destruct (state t) as [|p|] eqn:Hst; [| |done].
    + destruct (must_cancel t) eqn:Hm; injection Hres as <-.
      * apply reg_set_task_state; [right|done].
        eapply not_timer_not_registered; eauto.
      * apply reg_set_task_state; [by left|done].
    + injection Hres as <-.
      destruct (reg_timer_task_wake task t i d rt Hreg Ht Hco) as [Hr Hnot].
      apply reg_set_task_state; [by right|done].
  - assert (not_registered rt task) as Hnot.
    { eapply not_timer_not_registered; eauto. rewrite Hco. by left. }
    destruct (state t) as [|p|] eqn:Hst; [| |done].
    + destruct (must_cancel t); [injection Hres as <-; by apply reg_set_task_state; [right|]|].
      destruct (loop_iteration lua_execute task rt) as [rt1|] eqn:Hit.
      * injection Hres as <-. by eapply reg_loop_iteration.
      * injection Hres as <-. apply reg_set_task_state; [by left|done].
    + destruct (must_cancel t); [injection Hres as <-; by apply reg_set_task_state; [right|]|].
      destruct p; try by eapply reg_loop_iteration.
      destruct Hinv as [_ [Hg _] _ _ _ _ _ _ _]. by destruct (Hg _ _ Ht) as [Hne _].
  - assert (not_registered rt task) as Hnot.
    { eapply not_timer_not_registered; eauto. rewrite Hco. by left. }
    destruct (state t); [|done|done].
    destruct (must_cancel t); injection Hres as <-.
    + by apply reg_set_task_state; [right|].
    + apply reg_set_task_state.
      * right. intros i. apply Hnot.
      * apply reg_enqueue_lua_callback; [|done]. by eapply (reg_submitted rt Hreg).
Qed.

Lemma reg_step a rt rt' :
  inv rt → fresh_inv 0 rt → registry_inv rt →
  step lua_execute a rt = Some rt' →
  registry_inv rt'.
Proof.
  intros Hinv Hfresh Hreg.
  pose proof (reg_host_stable rt) as HS.
  assert ((tasks_ok rt ∧ keeps rt rt) ∧ registry_inv rt) as Hstart.
  { split; [split; [apply Hinv|apply keeps_refl]|done]. }
  destruct a as [task|s0|script source_name debugging debug|filepath debugging debug
                |debug|[] timer_id' delay_ms|timer_id'|[] callback_id result_data| |]; simpl.
  - by apply reg_resume.
  - intros [= <-]. by apply (initialize_stable _ HS).
  - intros [= <-]. by apply (execute_script_stable _ HS).
  - intros [= <-]. by apply (execute_file_stable _ HS).
  - intros [= <-]. by apply (execute_debug_main_stable _ HS).
  - intros [= <-]. by apply (python_timer_stable _ HS).
  - intros [= <-]. by destruct (python_timer_off_loop timer_id' delay_ms rt) as [msg ->].
  - intros [= <-]. by apply (stable_cancel_timer _ HS).
  - intros [= <-]. rewrite queue_lua_callback_on_loop. cbn [snd]. cbv zeta.
    apply reg_spawn; [by intros cb [= <-]|].
    destruct (ensure_callback_loop_running_on_loop rt) as [-> | ->]; [done|].
    by apply (stable_start_loop _ HS).
  - intros [= <-]. by rewrite queue_lua_callback_off_loop.
  - intros [= <-]. by apply (stable_start_loop _ HS).
  - intros [= <-]. rewrite stop_eq. cbn [snd]. cbv zeta.
    destruct (callback_task rt) as [c|] eqn:Hc; [|by apply (reg_ext rt)].
    apply (reg_ext (snd (task_cancel c rt))); try done.
    apply reg_task_cancel; [|done].
    destruct (fresh_loop _ _ Hfresh c Hc) as (t' & Ht' & Hlo).
    eapply not_timer_not_registered; eauto. rewrite Hlo. by left.
Qed.

Lemma reg_init : registry_inv (@init LuaState Any).
Proof. by split. Qed.

Lemma reachable_registry rt : reachable lua_execute rt → registry_inv rt.
Proof.
  induction 1 as [|rt a rt' Hr IH Hstep]; [apply reg_init|].
  by apply (reg_step a rt rt' (reachable_inv rt Hr) (reachable_fresh 0 rt Hr)).
Qed.

(** X6: in every state the system reaches, a timer id that is registered
    points to the task of a timer of this id that is not done and whose
    cancellation has not been requested.  So the test [task.done()] of
    [python_cancel_timer] never finds a finished task: a cancel that finds
    the id always requests the cancellation of a live task. *)
Theorem registered_timers_are_pending rt timer_id task :
  reachable lua_execute rt →
  timer_tasks rt !! timer_id = Some task →
  ∃ t delay_ms,
    all_tasks rt !! task = Some t
    ∧ coro t = timer_task timer_id delay_ms
    ∧ done t = false
    ∧ must_cancel t = false
    ∧ task_done task rt = false
    ∧ ∃ rt', python_cancel_timer timer_id rt = (Returned true, rt')
        ∧ all_tasks rt' !! task
          = Some {| coro := coro t; state := state t; must_cancel := true |}.
Proof.
  intros Hr Hl.
  destruct (reg_pending rt (reachable_registry rt Hr) _ _ Hl) as (t & d & Ht & Hc & Hs & Hm).
  assert (done t = false) as Hd by (unfold done; by destruct (state t)).
  exists t, d. split_and!; try done.
  - unfold task_done. by rewrite Ht.
  - eexists. split; [by apply python_cancel_timer_found_eq|].
    cbv zeta. unfold task_cancel. py_unfold. rewrite Ht, Hd. simpl.
    apply list_lookup_insert_eq. by eapply lookup_lt_Some.
Qed.

(** X7: in every state the system reaches, for every timer id, the timer
    callbacks of the id that were put on the queue are as many as the
    expiries that found the id registered; together with the successful
    cancels of the id, and one more while the id is registered, they are at
    most the creations of the id.  A timer callback is queued at most once
    per [create_timer], and only by the expiry of a timer. *)
Theorem timer_callbacks_are_bounded_by_creations rt timer_id :
  reachable lua_execute rt →
  timer_puts timer_id (history rt) = expiry_dispatches timer_id (history rt)
  ∧ timer_puts timer_id (history rt) + cancel_successes timer_id (history rt)
      + live (timer_tasks rt) timer_id
    ≤ creates timer_id (history rt).
Proof.
  intros Hr. pose proof (reg_fired rt (reachable_registry rt Hr) timer_id) as Hf.
  pose proof (outcomes_bounded_by_creations rt timer_id Hr) as Hle.
  split; [done|lia].
Qed.

(** ** The entry point [start] *)

Section lifecycle_properties.

Context (lua_execute_debugger : LuaState → string → Z → bool → lua_run LuaState).

Lemma kept_by_bind {A B} (P : runtime → Prop) (c : py LuaState Any A)
    (k : A → py LuaState Any B) :
  kept_by P c → (∀ a, kept_by P (k a)) → kept_by P (py_bind c k).
Proof.
  intros Hc Hk rt H. unfold py_bind. specialize (Hc rt H).
  destruct (c rt) as [[a|e] rt1]; simpl in *; [by apply Hk|done].
Qed.

Lemma kept_by_ret {A} (P : runtime → Prop) (a : A) : kept_by P (py_ret a).
Proof. by intros rt H. Qed.

Lemma kept_by_try {A} (P : runtime → Prop) (c : py LuaState Any A) catches handler :
  kept_by P c → (∀ e, kept_by P (handler e)) → kept_by P (py_try c catches handler).
Proof.
  intros Hc Hh rt H. unfold py_try. specialize (Hc rt H).
  destruct (c rt) as [[a|e] rt1]; simpl in *; [done|].
  destruct (catches e); [by apply Hh|done].
Qed.

Lemma py_bind_returned {A B} (c : py LuaState Any A) (k : A → py LuaState Any B)
    rt b rt' :
  py_bind c k rt = (Returned b, rt') →
  ∃ a rt1, c rt = (Returned a, rt1) ∧ k a rt1 = (Returned b, rt').
Proof.
  unfold py_bind. destruct (c rt) as [[a|e] rt1]; [|done]. eauto.
Qed.

(** *** What running scripts keeps *)

Section kept.

Context (P : runtime → Prop) (HP : host_stable P).

Lemma print_text_kept s : kept_by P (print (out_text s)).
Proof using HP. intros rt H. by apply (stable_print_text P HP). Qed.

Lemma announce_kept (b : bool) s :
  kept_by P (if b then print (out_text s) else py_ret tt).
Proof using HP. destruct b; [apply print_text_kept|apply kept_by_ret]. Qed.

Lemma start_debugger_kept dhost dport ddebug :
  kept_by P (start_debugger lua_execute_debugger dhost dport ddebug).
Proof using HP.
  unfold start_debugger. apply kept_by_try; [|intros e; apply kept_by_ret].
  intros rt H. py_unfold. destruct (lua (interpreter rt)) as [s|]; [|done].
  pose proof (run_lua_stable P HP (lua_execute_debugger s dhost dport ddebug) rt H).
  by destruct (run_lua _ _) as [[]].
Qed.

Lemma execute_fragments_kept ddebug total i fragments :
  kept_by P (execute_fragments lua_execute ddebug total i fragments).
Proof using HP.
  revert i. induction fragments as [|fragment rest IH]; intros i; simpl.
  - apply kept_by_ret.
  - apply kept_by_bind; [apply announce_kept|intros _].
    apply kept_by_bind; [|intros _; apply IH].
    intros rt H. by apply execute_script_stable.
Qed.

Lemma run_scripts_kept script_fragments main_script main_file debugger source_name :
  kept_by P
    (run_scripts lua_execute lua_execute_debugger script_fragments main_script
       main_file debugger source_name None).
Proof using HP.
  assert (∀ d, kept_by P (execute_debug_main lua_execute d)) as Hdm
    by (intros d rt H; by apply execute_debug_main_stable).
  assert (∀ f a b, kept_by P (execute_file lua_execute f a b)) as Hf
    by (intros f a b rt H; by apply execute_file_stable).
  assert (∀ s n a b, kept_by P (execute_script lua_execute s n a b)) as Hs
    by (intros s n a b rt H; by apply execute_script_stable).
  unfold run_scripts. destruct debugger as [cfg|].
  - apply kept_by_bind; [apply start_debugger_kept|intros _].
    apply kept_by_bind; [apply execute_fragments_kept|intros _].
    apply kept_by_bind; [apply kept_by_ret|intros _].
    destruct (truthy_str main_file); [|destruct (truthy_str main_script)].
    + repeat (apply kept_by_bind; [first [apply announce_kept|apply Hf]|intros _]).
      apply Hdm.
    + repeat (apply kept_by_bind; [first [apply announce_kept|apply Hs]|intros _]).
      apply Hdm.
    + apply kept_by_ret.
  - apply kept_by_bind; [apply execute_fragments_kept|intros _].
    apply kept_by_bind; [apply kept_by_ret|intros _].
    destruct (truthy_str main_file); [apply Hf|].
    destruct (truthy_str main_script); [apply Hs|apply kept_by_ret].
Qed.

End kept.

(** *** The interpreter stays initialized *)

Lemma lua_runtime_execute_initialized s chunk rt :
  initialized (snd (lua_runtime_execute lua_execute s chunk rt)).
Proof. apply run_lua_initialized. Qed.

Lemma execute_script_initialized script source_name debugging ddebug :
  kept_by initialized (execute_script lua_execute script source_name debugging ddebug).
Proof.
  intros rt H. unfold execute_script. py_unfold.
  destruct (lua (interpreter rt)) as [s|]; [|done].
  destruct source_name as [[|c n]|].
  - pose proof (lua_runtime_execute_initialized s (chunk_run_wrapped script) rt).
    by destruct (lua_runtime_execute _ _ _ _) as [[]].
  - destruct ddebug; simpl;
      match goal with |- context [lua_runtime_execute _ ?s ?c ?r] =>
        pose proof (lua_runtime_execute_initialized s c r) end;
      by destruct (lua_runtime_execute _ _ _ _) as [[]].
  - pose proof (lua_runtime_execute_initialized s (chunk_run_wrapped script) rt).
    by destruct (lua_runtime_execute _ _ _ _) as [[]].
Qed.

Lemma execute_file_initialized filepath debugging ddebug :
  kept_by initialized (execute_file lua_execute filepath debugging ddebug).
Proof.
  intros rt H. unfold execute_file. py_unfold.
  destruct (lua (interpreter rt)) as [s|]; [|done].
  pose proof (lua_runtime_execute_initialized s (chunk_main_file_hook filepath) rt).
  destruct (lua_runtime_execute _ _ _ _) as [[|e]]; simpl; [done|].
  by destruct (is_Exception e).
Qed.

Lemma execute_debug_main_initialized ddebug :
  kept_by initialized (execute_debug_main lua_execute ddebug).
Proof.
  intros rt H. unfold execute_debug_main. py_unfold.
  destruct (lua (interpreter rt)) as [s|]; [|done].
  destruct ddebug; simpl;
    match goal with |- context [lua_runtime_execute _ ?s ?c ?r] =>
      pose proof (lua_runtime_execute_initialized s c r) as H2 end;
    (destruct (lua_runtime_execute _ _ _ _) as [[has|e] rt2]; simpl in *; [|done]);
    (destruct has; simpl; [|done]);
    (destruct (lua rt2.(interpreter)) as [s'|] eqn:Hs'; [|by rewrite ?Hs']);
    match goal with |- context [lua_runtime_execute _ ?s ?c ?r] =>
      pose proof (lua_runtime_execute_initialized s c r) end;
    by destruct (lua_runtime_execute _ _ _ _) as [[]].
Qed.

Lemma start_debugger_initialized dhost dport ddebug :
  kept_by initialized (start_debugger (Any:=Any) lua_execute_debugger dhost dport ddebug).
Proof.
  unfold start_debugger. apply kept_by_try; [|intros e; apply kept_by_ret].
  intros rt H. py_unfold. destruct (lua (interpreter rt)) as [s|]; [|done].
  pose proof (run_lua_initialized (lua_execute_debugger s dhost dport ddebug) rt).
  by destruct (run_lua _ _) as [[]].
Qed.

Lemma announce_initialized (b : bool) s :
  kept_by (initialized : runtime → Prop) (if b then print (out_text s) else py_ret tt).
Proof. destruct b; intros rt H; exact H. Qed.

Lemma execute_fragments_initialized ddebug total i fragments :
  kept_by initialized (execute_fragments lua_execute ddebug total i fragments).
Proof.
  revert i. induction fragments as [|fragment rest IH]; intros i; simpl.
  - apply kept_by_ret.
  - apply kept_by_bind; [apply announce_initialized|intros _].
    apply kept_by_bind; [apply execute_script_initialized|intros _; apply IH].
Qed.

Lemma run_scripts_initialized script_fragments main_script main_file debugger
    source_name :
  kept_by initialized
    (run_scripts lua_execute lua_execute_debugger script_fragments main_script
       main_file debugger source_name None).
Proof.
  unfold run_scripts. destruct debugger as [cfg|].
  - apply kept_by_bind; [apply start_debugger_initialized|intros _].
    apply kept_by_bind; [apply execute_fragments_initialized|intros _].
    apply kept_by_bind; [apply kept_by_ret|intros _].
    destruct (truthy_str main_file); [|destruct (truthy_str main_script)].
    + repeat (apply kept_by_bind;
                [first [apply announce_initialized|apply execute_file_initialized]
                |intros _]).
      apply execute_debug_main_initialized.
    + repeat (apply kept_by_bind;
                [first [apply announce_initialized|apply execute_script_initialized]
                |intros _]).
      apply execute_debug_main_initialized.
    + apply kept_by_ret.
  - apply kept_by_bind; [apply execute_fragments_initialized|intros _].
    apply kept_by_bind; [apply kept_by_ret|intros _].
    destruct (truthy_str main_file); [apply execute_file_initialized|].
    destruct (truthy_str main_script);
      [apply execute_script_initialized|apply kept_by_ret].
Qed.

(** *** The callback loop that [start] starts *)

Lemma tasks_only_grow_stable n :
  host_stable (λ rt : runtime, n ≤ length (all_tasks rt)).
Proof.
  split; try done.
  - intros rt Hle. simpl. rewrite length_app. lia.
  - intros i d rt Hle. rewrite create_timer_on_loop. simpl. rewrite length_app. lia.
  - intros i rt Hle.
    destruct (timer_tasks rt !! i) as [task|] eqn:Hl.
    + rewrite (python_cancel_timer_found_eq _ _ _ Hl). simpl.
      destruct (task_cancel_cases task rt) as [-> | (? & _ & _ & ->)]; [done|].
      simpl. by rewrite length_insert.
    + by rewrite (python_cancel_timer_not_found _ _ Hl).
Qed.

Lemma loop_running_stable n rt0 :
  host_stable (λ rt, (tasks_ok rt ∧ keeps rt0 rt) ∧ loop_running n rt).
Proof.
  pose proof (tasks_ok_keeps_stable rt0) as HS.
  assert (∀ rt c (l : list (Task Any)), loop_ready rt c →
            loop_ready (set_all_tasks (all_tasks rt ++ l) rt) c) as Happ.
  { intros rt c l (t & Ht & Hrest). exists t. split; [by apply lookup_app_l_Some|done]. }
  split.
  - intros l rt [Hok Hl]. split; [by apply (stable_set_lua _ HS)|done].
  - intros s rt [Hok Hl]. split; [by apply (stable_print_text _ HS)|done].
  - intros rt [Hok (c & Hc & Hr & Hn)]. split; [by apply (stable_start_loop _ HS)|].
    exists (length (all_tasks rt)). split; [done|]. split.
    + exists (new_task run_timer_callbacks_loop). simpl.
      rewrite lookup_app_r, Nat.sub_diag by done. split_and!; auto.
    + destruct Hr as (t & Ht%lookup_lt_Some & _). lia.
  - intros i d rt [Hok (c & Hc & Hr & Hn)].
    split; [by apply (stable_create_timer _ HS)|].
    rewrite create_timer_on_loop. exists c. split; [done|]. split; [|done].
    by apply (Happ rt c [_]).
  - intros i rt [[Hok Hk] (c & Hc & Hr & Hn)].
    split; [by apply (stable_cancel_timer _ HS)|].
    destruct (timer_tasks rt !! i) as [task|] eqn:Hl.
    + rewrite (python_cancel_timer_found_eq _ _ _ Hl). cbn [snd]. cbv zeta.
      exists c. split.
      { simpl. by destruct (task_cancel_cases task rt) as [-> | (? & _ & _ & ->)]. }
      split; [|done]. destruct Hr as (t & Ht & Hco & Hrest).
      exists t. split; [|done]. simpl.
      destruct (task_cancel_cases task rt) as [-> | (t' & Ht' & _ & ->)]; [done|]. simpl.
      rewrite list_lookup_insert_ne; [done|]. intros <-.
      destruct Hok as [_ Hreg]. destruct (Hreg _ _ Hl) as (t0 & d0 & Ht0 & Hc0).
      congruence.
    + rewrite (python_cancel_timer_not_found _ _ Hl). by exists c.
Qed.

(** *** The three ways in which [start] goes on *)

Lemma stop_stopped rt :
  ∃ rt', stop rt = (Returned tt, rt')
    ∧ stdout rt' = out_runtime_stopped :: stdout rt
    ∧ interpreter rt' = interpreter rt
    ∧ timer_tasks rt' = timer_tasks rt
    ∧ callback_queue rt' = callback_queue rt
    ∧ timer_semaphore rt' = timer_semaphore rt
    ∧ callback_task rt' = callback_task rt
    ∧ length (all_tasks rt') = length (all_tasks rt)
    ∧ ∀ c t, callback_task rt' = Some c → all_tasks rt' !! c = Some t →
             done t = true ∨ must_cancel t = true.
Proof.
  eexists. split; [apply stop_eq|]. simpl.
  destruct (callback_task rt) as [c|] eqn:Hc;
    [|split_and!; try done; intros c t H; simpl in H; congruence].
  destruct (task_cancel_cases c rt) as [Hno | (t0 & Ht0 & Hd0 & Heq)].
  - rewrite Hno. simpl. split_and!; try done.
    intros c' t Hc' Ht. assert (c' = c) as -> by congruence. destruct (done t) eqn:Hd; [by left|].
    unfold task_cancel in Hno. py_unfold. rewrite Ht, Hd in Hno. simpl in Hno.
    injection Hno as Hno.
    assert (all_tasks rt !! c
            = Some {| coro := coro t; state := state t; must_cancel := true |}) as Ht'.
    { rewrite <-Hno at 1. simpl. apply list_lookup_insert_eq. by eapply lookup_lt_Some. }
    right. rewrite Ht in Ht'. by injection Ht' as ->.
  - rewrite Heq. simpl. split_and!; try done; [by rewrite length_insert|].
    intros c' t Hc' Ht. assert (c' = c) as -> by congruence. right.
    rewrite list_lookup_insert_eq in Ht by (by eapply lookup_lt_Some).
    by injection Ht as <-.
Qed.

(** X9: [start] with nothing to execute (no script fragment, no main script
    and no main file, each absent or empty) prints "No script provided to
    execute", runs [stop] and returns.  The interpreter is not initialized,
    no callback loop and no other task is created, and the timers and the
    queue are untouched. *)
Theorem start_without_a_script_only_prints s0 script_fragments main_script main_file
    duration debugger source_name api_server rt :
  truthy_list script_fragments = false →
  truthy_str main_script = false →
  truthy_str main_file = false →
  ∃ rt', start lua_execute lua_execute_debugger s0 script_fragments main_script
           main_file duration debugger source_name api_server rt
         = (Returned None, rt')
    ∧ stdout rt'
      = out_runtime_stopped :: out_text "No script provided to execute" :: stdout rt
    ∧ interpreter rt' = interpreter rt
    ∧ length (all_tasks rt') = length (all_tasks rt)
    ∧ callback_task rt' = callback_task rt
    ∧ timer_tasks rt' = timer_tasks rt
    ∧ callback_queue rt' = callback_queue rt
    ∧ timer_semaphore rt' = timer_semaphore rt.
Proof.
  intros Hf Hs Hm. unfold start, start_body. rewrite Hf, Hs, Hm. simpl. py_unfold.
  destruct (stop_stopped
              (set_stdout (out_text "No script provided to execute" :: stdout rt) rt))
    as (rt' & -> & Ho & Hi & Ht & Hq & Hsem & Hc & Hl & _).
  exists rt'. by split_and!.
Qed.

(** X10: [stop] runs whenever [start] ends.  If [start] returns or raises
    before it awaits its monitor task, and likewise when the awaited
    monitor has ended, whatever its outcome, the stop message is the last
    line printed and the callback task, if there is one, is done or has its
    cancellation requested; an exception of the body or of the monitor
    still reaches the caller. *)
Theorem start_always_stops_the_runtime s0 script_fragments main_script main_file
    duration debugger source_name api_server rt :
  let stopped rt' :=
    (∃ rest, stdout rt' = out_runtime_stopped :: rest)
    ∧ ∀ c t, callback_task rt' = Some c → all_tasks rt' !! c = Some t →
             done t = true ∨ must_cancel t = true in
  (∀ r rt',
     start lua_execute lua_execute_debugger s0 script_fragments main_script
       main_file duration debugger source_name api_server rt = (r, rt') →
     match r with
     | Returned (Some _) => True
     | _ =>
         stopped rt'
         ∧ r = fst (start_body lua_execute lua_execute_debugger s0 script_fragments
                      main_script main_file duration debugger source_name
                      api_server rt)
     end)
  ∧ (∀ outcome, fst (start_end outcome rt) = outcome
                ∧ stopped (snd (start_end outcome rt))).
Proof.
  intros stopped.
  assert (∀ rt1, ∃ rt2, stop rt1 = (Returned tt, rt2) ∧ stopped rt2) as Hstop.
  { intros rt1. destruct (stop_stopped rt1) as (rt2 & Heq & Ho & _ & _ & _ & _ & _ & _ & Hc).
    exists rt2. split; [done|]. split; [eauto|done]. }
  split.
  - intros r rt'. unfold start.
    destruct (start_body _ _ _ _ _ _ _ _ _ _ _) as [[[m|]|e] rt1]; simpl.
    + by intros [= <- <-].
    + destruct (Hstop rt1) as (rt2 & -> & Hs). by intros [= <- <-].
    + destruct (Hstop rt1) as (rt2 & -> & Hs). by intros [= <- <-].
  - intros outcome. unfold start_end, py_finally.
    destruct (Hstop rt) as (rt2 & -> & Hs). done.
Qed.

(** X11: when [start], called without an API server in a state the system
    reaches, gets as far as awaiting its monitor task, the monitor is the
    duration monitor exactly for a duration other than None and 0, the
    interpreter is initialized, and the callback task is a dispatch loop
    created during this call that is alive: not done, not cancelled, at the
    top of its loop.  No script that ran in between can have stopped or
    replaced it by anything else. *)
Theorem start_reaches_monitoring_with_a_running_loop s0 script_fragments main_script
    main_file duration debugger source_name rt m rt' :
  reachable lua_execute rt →
  start lua_execute lua_execute_debugger s0 script_fragments main_script
    main_file duration debugger source_name None rt = (Returned (Some m), rt') →
  m = monitor_for duration
  ∧ initialized rt'
  ∧ ∃ c, callback_task rt' = Some c
      ∧ loop_ready rt' c
      ∧ length (all_tasks rt) ≤ c.
Proof.
  intros Hr. unfold start.
  destruct (start_body _ _ _ _ _ _ _ _ _ _ _) as [[[m'|]|e] rt1] eqn:Hbody; simpl;
    [|by destruct (stop rt1) as [[]]..].
  intros [= -> ->]. unfold start_body in Hbody.
  destruct (negb (truthy_list script_fragments) && negb (truthy_str main_script)
            && negb (truthy_str main_file)); [done|].
  apply py_bind_returned in Hbody as ([] & rt2 & Hinit & Hbody).
  apply py_bind_returned in Hbody as ([] & rt3 & Hloop & Hbody).
  apply py_bind_returned in Hbody as ([] & rt4 & Hrun & Hbody).
  injection Hbody as <- <-. split; [done|].
  pose proof (reachable_inv rt Hr) as Hinv.
  assert (tasks_ok rt2 ∧ length (all_tasks rt) ≤ length (all_tasks rt2)
          ∧ initialized rt2) as (Hok2 & Hlen2 & Hi2).
  { assert (initialized (snd (initialize_lua lua_execute s0 rt))) as Hi.
    { unfold initialize_lua, initialize, lua_runtime_execute. py_unfold.
      pose proof (run_lua_initialized (lua_execute s0 chunk_init) (set_lua (Some s0) rt)).
      by destruct (run_lua _ _) as [[]]. }
    pose proof (initialize_stable _
                  (host_stable_and _ _ (tasks_ok_keeps_stable rt)
                     (tasks_only_grow_stable (length (all_tasks rt))))
                  s0 rt) as H.
    unfold initialize_lua in Hinit, Hi. rewrite Hinit in H, Hi.
    destruct H as [[Hok _] Hlen]; [|done].
    split; [split; [apply Hinv|apply keeps_refl]|done]. }
  unfold start_callback_loop in Hloop. py_unfold. injection Hloop as <-.
  set (rt3 := set_callback_task _ _) in *.
  assert ((tasks_ok rt3 ∧ keeps rt3 rt3) ∧ loop_running (length (all_tasks rt)) rt3)
    as Hstart.
  { pose proof (stable_start_loop _ (tasks_ok_keeps_stable rt2) rt2
                  (conj Hok2 (keeps_refl rt2))) as [Hok3 _].
    split; [split; [exact Hok3|apply keeps_refl]|].
    exists (length (all_tasks rt2)). split; [done|]. split; [|done].
    exists (new_task run_timer_callbacks_loop). simpl.
    rewrite lookup_app_r, Nat.sub_diag by done. split_and!; auto. }
  pose proof (run_scripts_kept _ (loop_running_stable (length (all_tasks rt)) rt3)
                script_fragments main_script main_file debugger source_name rt3 Hstart)
    as [_ Hrunning].
  pose proof (run_scripts_initialized script_fragments main_script main_file debugger
                source_name rt3 Hi2) as Hi4.
  rewrite Hrun in Hrunning, Hi4. split; [done|].
  destruct Hrunning as (c & Hc & Hready & Hn). eauto.
Qed.

End lifecycle_properties.

End properties.

(** ** The buffer of refresh-state events *)

Module RefreshFacts.
Import Refresh.

Section events.
Context {Event : Type}.
Implicit Types evs : list Event.
Implicit Types g : globals Event.

Lemma add_all_snoc evs event g :
  add_all (evs ++ [event]) g = addEvent event (add_all evs g).
Proof. unfold add_all. by rewrite foldl_app. Qed.

Lemma numbered_length n evs : length (numbered n evs) = length evs.
Proof. revert n. induction evs as [|e evs IH]; intros n; simpl; [done|]. by rewrite IH. Qed.

Lemma numbered_app n evs1 evs2 :
  numbered n (evs1 ++ evs2)
  = numbered n evs1 ++ numbered (n + Z.of_nat (length evs1)) evs2.
Proof.
  revert n. induction evs1 as [|e evs1 IH]; intros n; simpl.
  - by rewrite Z.add_0_r.
  - rewrite IH. do 3 f_equal. lia.
Qed.

Lemma numbered_events n evs : key_event <$> numbered n evs = evs.
Proof. revert n. induction evs as [|e evs IH]; intros n; simpl; [done|]. by rewrite IH. Qed.

Lemma numbered_drop k n evs :
  drop k (numbered n evs) = numbered (n + Z.of_nat (k `min` length evs)) (drop k evs).
Proof.
  revert n evs. induction k as [|k IH]; intros n evs.
  - rewrite !drop_0. f_equal. lia.
  - destruct evs as [|e evs]; simpl; [done|].
    rewrite IH. f_equal. lia.
Qed.

(** The closed form of the buffer after [evs] were added to the fresh
    module. *)
Lemma add_all_loaded evs :
  add_all evs loaded
  = {| _events := drop (length evs - MAX_EVENTS) (numbered 0 evs);
       _event_count := Z.of_nat (length evs) |}.
Proof.
  induction evs as [|event evs IH] using rev_ind; [done|].
  rewrite add_all_snoc, IH. unfold addEvent, deque_append. simpl.
  rewrite length_app, length_drop, numbered_length, length_app. simpl.
  f_equal; [|lia].
  rewrite numbered_app. simpl.
  replace (Z.of_nat (length evs) + 1)%Z with (0 + Z.of_nat (length evs) + 1)%Z by lia.
  case_decide as Hfull.
  - rewrite <-drop_app_le by (rewrite numbered_length; lia).
    rewrite drop_drop. f_equal. unfold MAX_EVENTS in *. lia.
  - rewrite <-drop_app_le by (rewrite numbered_length; lia).
    f_equal. unfold MAX_EVENTS in *. lia.
Qed.

Lemma numbered_lasts n evs :
  key_last <$> numbered n evs = seqZ (n + 1) (Z.of_nat (length evs)).
Proof.
  revert n. induction evs as [|e evs IH]; intros n; [done|].
  cbn [numbered fmap list_fmap length]. rewrite Nat2Z.inj_succ, seqZ_cons by lia.
  f_equal. fold (fmap (M:=list) (@key_last Event)). rewrite IH. f_equal; lia.
Qed.

Lemma numbered_last n evs event :
  last (numbered n (evs ++ [event]))
  = Some {| key_last := n + Z.of_nat (length evs) + 1; key_event := event |}.
Proof. rewrite numbered_app. simpl. by rewrite last_snoc. Qed.

Lemma numbered_filter counter n evs :
  key_event <$> filter (λ e, (counter < key_last e)%Z) (numbered n evs)
  = drop (Z.to_nat (counter - n)) evs.
Proof.
  revert n. induction evs as [|event evs IH]; intros n; [by rewrite drop_nil|].
  cbn [numbered]. destruct (decide (counter < n + 1)%Z) as [Hlt|Hge].
  - rewrite filter_cons_True by done.
    replace (Z.to_nat (counter - n)) with 0 by lia.
    rewrite drop_0, fmap_cons, IH. simpl.
    replace (Z.to_nat (counter - (n + 1))) with 0 by lia. by rewrite drop_0.
  - rewrite filter_cons_False by done. rewrite IH.
    replace (Z.to_nat (counter - n)) with (S (Z.to_nat (counter - (n + 1)))) by lia.
    done.
Qed.

(** X12: the buffer holds the newest events, at most [MAX_EVENTS] of them, in
    the order they were added, and numbers them consecutively up to
    [_event_count], which counts every event ever added. *)
Theorem event_buffer_keeps_the_newest_events evs :
  let g := add_all evs loaded in
  let dropped := length evs - MAX_EVENTS in
  _event_count g = Z.of_nat (length evs)
  ∧ length (_events g) = length evs `min` MAX_EVENTS
  ∧ key_event <$> _events g = drop dropped evs
  ∧ key_last <$> _events g
    = seqZ (Z.of_nat dropped + 1) (Z.of_nat (length evs - dropped)).
Proof.
  cbv zeta. rewrite add_all_loaded. cbn [_events _event_count].
  rewrite numbered_drop, numbered_events, numbered_lasts, length_drop, numbered_length.
  split_and!; [done|rewrite length_drop; unfold MAX_EVENTS; lia|done|].
  f_equal; unfold MAX_EVENTS; lia.
Qed.

Lemma getEvents_add_all evs counter :
  getEvents counter (add_all evs loaded)
  = {| res_events := drop (Z.to_nat counter `max` (length evs - MAX_EVENTS)) evs;
       res_last := Z.of_nat (length evs) |}.
Proof.
  rewrite add_all_loaded. unfold getEvents. cbn [_events]. f_equal.
  - rewrite numbered_drop, numbered_filter, drop_drop. f_equal. unfold MAX_EVENTS. lia.
  - destruct evs as [|event evs _] using rev_ind; [done|].
    rewrite last_lookup, lookup_drop, length_drop, numbered_length, length_app. simpl.
    replace (length evs + 1 - MAX_EVENTS + pred (length evs + 1 - (length evs + 1 - MAX_EVENTS)))
      with (pred (length (numbered 0 (evs ++ [event]))))
      by (rewrite numbered_length, length_app; simpl; unfold MAX_EVENTS; lia).
    rewrite <-last_lookup, numbered_last. simpl. lia.
Qed.

(** X13: [getEvents] reports as ['last'] the number of events ever added, and
    as ['events'] the events numbered above [counter] that the buffer still
    holds, oldest first. *)
Theorem getEvents_returns_the_events_after_counter evs counter :
  let r := getEvents counter (add_all evs loaded) in
  res_last r = Z.of_nat (length evs)
  ∧ res_events r = drop (Z.to_nat counter `max` (length evs - MAX_EVENTS)) evs.
Proof. cbv zeta. by rewrite getEvents_add_all. Qed.

(** X14: polling.  A reader that passes the ['last'] of its previous call as
    [counter] gets exactly the events added since that call, in order, as
    long as no more than [MAX_EVENTS] were added in between; if more were
    added, it gets the newest [MAX_EVENTS] of them and the older ones are
    lost.  No event is delivered twice. *)
Theorem polling_with_last_returns_the_new_events (old new : list Event) counter :
  let g := add_all old loaded in
  let r := getEvents counter g in
  let r' := getEvents (res_last r) (add_all new g) in
  res_events r' = drop (length new - MAX_EVENTS) new
  ∧ res_last r' = (res_last r + Z.of_nat (length new))%Z
  ∧ (length new ≤ MAX_EVENTS → res_events r' = new)
  ∧ res_events (getEvents (res_last r') (add_all new g)) = [].
Proof.
  cbv zeta.
  assert (add_all new (add_all old loaded) = add_all (old ++ new) loaded) as ->
    by (unfold add_all; by rewrite foldl_app).
  rewrite !getEvents_add_all. cbn [res_events res_last].
  rewrite length_app.
  assert (drop (Z.to_nat (Z.of_nat (length old)) `max` (length old + length new - MAX_EVENTS))
            (old ++ new) = drop (length new - MAX_EVENTS) new) as Heq.
  { rewrite drop_app_ge by lia. f_equal. lia. }
  split_and!.
  - done.
  - lia.
  - intros Hle. rewrite Heq. replace (length new - MAX_EVENTS) with 0 by lia. done.
  - apply drop_ge. rewrite length_app. lia.
Qed.

End events.
End RefreshFacts.

(** ** Python dicts with string keys *)

Module DictFacts.

Import Dict.

Lemma dict_get_set {V} k (v : V) d : dict_get k (dict_set k v d) = Some v.
Proof.
  induction d as [|[k' v'] d IH]; simpl; [by rewrite decide_True|].
  destruct (decide (k' = k)); simpl; [by rewrite decide_True|by rewrite decide_False].
Qed.

Lemma dict_get_set_ne {V} k k' (v : V) d :
  k' ≠ k → dict_get k' (dict_set k v d) = dict_get k' d.
Proof.
  intros Hne. induction d as [|[k0 v0] d IH]; simpl.
  - by rewrite decide_False.
  - destruct (decide (k0 = k)) as [->|]; simpl.
    + by rewrite !decide_False.
    + by rewrite IH.
Qed.

Lemma keys_set {V} k (v : V) d :
  keys (dict_set k v d) = if decide (k ∈ keys d) then keys d else keys d ++ [k].
Proof.
  unfold keys. induction d as [|[k0 v0] d IH]; [done|].
  cbn [dict_set]. destruct (decide (k0 = k)) as [->|Hne].
  - rewrite !fmap_cons. cbn [fst]. rewrite decide_True; [done|]. by left.
  - rewrite !fmap_cons, IH. cbn [fst]. destruct (decide (k ∈ d.*1)) as [Hin|Hnin].
    + rewrite decide_True; [done|]. by right.
    + rewrite decide_False; [done|]. by intros [->|]%elem_of_cons.
Qed.

Lemma keys_set_NoDup {V} k (v : V) d : NoDup (keys d) → NoDup (keys (dict_set k v d)).
Proof.
  intros Hd. rewrite keys_set. case_decide; [done|].
  apply NoDup_app. split_and!; [done| |apply NoDup_singleton].
  intros x Hx ->%list_elem_of_singleton. done.
Qed.

Lemma dict_get_None {V} k (d : dict V) : dict_get k d = None ↔ k ∉ keys d.
Proof.
  unfold keys. induction d as [|[k0 v0] d IH]; simpl.
  - split; [intros _; apply not_elem_of_nil|done].
  - destruct (decide (k0 = k)) as [->|Hne].
    + split; [done|]. intros []. by left.
    + rewrite IH, not_elem_of_cons. split; [by intros ?; split|by intros [_ ?]].
Qed.

End DictFacts.

(** ** The registry of exported functions *)

Module ExporterFacts.
Import Dict DictFacts Exporter.

Lemma after_exports_snoc calls c :
  after_exports (calls ++ [c]) = run_export (after_exports calls) c.
Proof. unfold after_exports. by rewrite foldl_app. Qed.

Lemma latest_snoc name calls c :
  latest name (calls ++ [c])
  = if decide (lua_name c = name) then Some c else latest name calls.
Proof.
  unfold latest. rewrite filter_app.
  destruct (decide (lua_name c = name)) as [Heq|Hne].
  - rewrite filter_cons_True, filter_nil by done. by rewrite last_snoc.
  - rewrite filter_cons_False, filter_nil by done. by rewrite app_nil_r.
Qed.

Lemma grouped_snoc md name m :
  grouped (md ++ [(name, m)])
  = let categories :=
      match dict_get (category m) (grouped md) with
      | None => dict_set (category m) [] (grouped md)
      | Some _ => grouped md
      end in
    dict_set (category m)
      (default [] (dict_get (category m) categories) ++ [name]) categories.
Proof. unfold grouped, list_functions_by_category. simpl. by rewrite foldl_app. Qed.

Lemma grouped_get md c :
  dict_get c (grouped md)
  = match (filter (λ p, category p.2 = c) md).*1 with
    | [] => None
    | names => Some names
    end.
Proof.
  induction md as [|[name m] md IH] using rev_ind; [done|].
  rewrite grouped_snoc. cbv zeta. rewrite filter_app, fmap_app.
  destruct (decide (category m = c)) as [<-|Hne].
  - rewrite filter_cons_True, filter_nil by done. rewrite dict_get_set, IH.
    destruct ((filter _ md).*1) as [|n names] eqn:Hf; cbv iota.
    + by rewrite dict_get_set.
    + by rewrite IH.
  - rewrite filter_cons_False, filter_nil by done. rewrite app_nil_r.
    rewrite dict_get_set_ne by done.
    destruct (dict_get (category m) (grouped md)); [done|].
    by rewrite dict_get_set_ne.
Qed.

Lemma grouped_keys_NoDup md : NoDup (keys (grouped md)).
Proof.
  induction md as [|[name m] md IH] using rev_ind; [apply NoDup_nil_2|].
  rewrite grouped_snoc. cbv zeta. apply keys_set_NoDup.
  destruct (dict_get (category m) (grouped md)); [done|]. by apply keys_set_NoDup.
Qed.

Lemma registry_after_exports calls :
  keys (exported_functions (after_exports calls))
  = keys (function_metadata (after_exports calls))
  ∧ NoDup (keys (function_metadata (after_exports calls)))
  ∧ (∀ name,
       dict_get name (function_metadata (after_exports calls))
       = (λ c, {| description :=
                    or_str (call_description c)
                      (or_str (__doc__ (call_func c)) "No description available");
                  category := call_category c;
                  inject_runtime := call_inject_runtime c |})
         <$> latest name calls)
  ∧ (∀ name,
       dict_get name (exported_functions (after_exports calls))
       = (λ c, {| wrapped := call_func c; injects_runtime := call_inject_runtime c |})
         <$> latest name calls).
Proof.
  induction calls as [|c calls IH] using rev_ind.
  - split; [done|]. split; [apply NoDup_nil_2|done].
  - destruct IH as (Hk & Hnd & Hget & Hfun). rewrite after_exports_snoc.
    unfold run_export, export. cbn [exported_functions function_metadata].
    fold (lua_name c). split_and!.
    + by rewrite !keys_set, Hk.
    + by apply keys_set_NoDup.
    + intros name. rewrite latest_snoc.
      destruct (decide (lua_name c = name)) as [<-|Hne].
      * by rewrite dict_get_set.
      * rewrite dict_get_set_ne by done. apply Hget.
    + intros name. rewrite latest_snoc.
      destruct (decide (lua_name c = name)) as [<-|Hne].
      * by rewrite dict_get_set.
      * rewrite dict_get_set_ne by done. apply Hfun.
Qed.

(** X15: after any run of [export] decorators the two dicts of the exporter
    have the same names in the same order, each name once.  Under a name
    the exporter holds the function and the metadata of the latest export
    with this name: exporting under a name that is taken replaces the
    earlier function.  The description falls back to the docstring and then
    to "No description available". *)
Theorem export_keeps_the_latest_function_of_a_name calls :
  let self := after_exports calls in
  keys (exported_functions self) = keys (function_metadata self)
  ∧ NoDup (keys (exported_functions self))
  ∧ ∀ name,
      match latest name calls with
      | Some c =>
          dict_get name (exported_functions self)
          = Some {| wrapped := call_func c; injects_runtime := call_inject_runtime c |}
          ∧ dict_get name (function_metadata self)
            = Some {| description :=
                        or_str (call_description c)
                          (or_str (__doc__ (call_func c)) "No description available");
                      category := call_category c;
                      inject_runtime := call_inject_runtime c |}
      | None =>
          (name ∉ keys (exported_functions self))
          ∧ (name ∉ keys (function_metadata self))
      end.
Proof.
  cbv zeta. destruct (registry_after_exports calls) as (Hk & Hnd & Hget & Hfun).
  split; [done|]. split; [by rewrite Hk|].
  intros name. specialize (Hget name). specialize (Hfun name).
  destruct (latest name calls) as [c|]; simpl in *; [done|].
  by rewrite <-!dict_get_None.
Qed.

(** X16: after any run of [export] decorators, [list_functions_by_category]
    lists a name under a category exactly when the latest export of that
    name gave this category: every exported name is listed once, under one
    category, a category is listed once, and only categories that have a
    function are listed. *)
Theorem list_functions_by_category_partitions_the_names calls :
  let self := after_exports calls in
  let categories := list_functions_by_category self in
  NoDup (keys categories)
  ∧ (∀ c names, dict_get c categories = Some names → names ≠ [] ∧ NoDup names)
  ∧ (∀ name c,
       (∃ names, dict_get c categories = Some names ∧ name ∈ names)
       ↔ call_category <$> latest name calls = Some c).
Proof.
  cbv zeta. destruct (registry_after_exports calls) as (_ & Hnd & Hget & _).
  set (md := function_metadata (after_exports calls)) in *.
  assert (list_functions_by_category (after_exports calls) = grouped md) as -> by done.
  split; [apply grouped_keys_NoDup|]. split.
  - intros c names. rewrite grouped_get.
    destruct ((filter _ md).*1) as [|n l] eqn:Hf; [done|]. intros [= <-]. split; [done|].
    rewrite <-Hf. eapply sublist_NoDup; [exact Hnd|].
    apply fmap_sublist, sublist_filter.
  - intros name c. rewrite grouped_get.
    assert (name ∈ (filter (λ p, category p.2 = c) md).*1
            ↔ category <$> dict_get name md = Some c) as Hin.
    { clear Hget. unfold keys in Hnd. induction md as [|[k m] md IH]; simpl.
      - split; [by intros ?%elem_of_nil|done].
      - apply NoDup_cons in Hnd as [Hk Hnd]. simpl in Hk.
        destruct (decide (k = name)) as [->|Hne]; simpl.
        + destruct (decide (category m = c)) as [Hc|Hc].
          * rewrite filter_cons_True by done. simpl. rewrite Hc.
            split; [done|]. intros _. by left.
          * rewrite filter_cons_False by done. split; [|congruence].
            intros Hin. exfalso. apply Hk.
            apply list_elem_of_fmap in Hin as ([k' m'] & -> & Hin).
            apply list_elem_of_filter in Hin as [_ Hin].
            apply list_elem_of_fmap. by exists (k', m').
        + rewrite <-(IH Hnd).
          destruct (decide (category m = c)).
          * rewrite filter_cons_True by done. simpl. rewrite elem_of_cons.
            split; [by intros [->|]|by right].
          * by rewrite filter_cons_False. }
    rewrite Hget in Hin. rewrite <-option_fmap_compose in Hin. simpl in Hin.
    rewrite <-Hin. split.
    + intros (names & Hsome & Hel).
      destruct ((filter _ md).*1) as [|n l]; [done|]. by injection Hsome as <-.
    + intros Hel. destruct ((filter _ md).*1) as [|n l]; [by apply elem_of_nil in Hel|].
      eauto.
Qed.

End ExporterFacts.

(** ** The print function given to Lua and the output buffer *)

Module LuaPrintFacts.

Import Stdlib.Strings.Ascii.
Import LuaPrint.

Section lua_print.

Context (html2console : string → option string).

Lemma print_all_effect prints self :
  let self' := print_all html2console prints self in
  output_buffer self' = output_buffer self ++ (String.concat " " <$> prints)
  ∧ web_mode self' = web_mode self
  ∧ printed self'
    = printed self
        ++ (if web_mode self then [] else terminal_line html2console <$> prints).
Proof.
  cbv zeta. revert self. induction prints as [|args prints IH]; intros self.
  - unfold print_all. simpl. destruct (web_mode self); by rewrite !app_nil_r.
  - unfold print_all in *. cbn [foldl].
    destruct (IH (lua_print html2console args self)) as (-> & -> & ->).
    unfold lua_print, terminal_line. cbn [web_mode output_buffer printed].
    destruct (web_mode self); cbn [web_mode output_buffer printed];
      rewrite ?fmap_cons, <-?app_assoc; done.
Qed.

(** The matcher [has_html] is the regular expression of line 63: the
    text splits into a prefix, a '<', a part [b] that is not empty and holds
    no '>', a '>', and a rest. *)
Lemma contains_gt_app a b : contains_gt (a +:+ b) = contains_gt a || contains_gt b.
Proof. induction a as [|c a IH]; simpl; [done|]. by rewrite IH, orb_assoc. Qed.

Lemma contains_gt_first s :
  contains_gt s = true →
  ∃ b c, s = b +:+ String ">"%char c ∧ contains_gt b = false.
Proof.
  induction s as [|ch s IH]; simpl; [done|].
  destruct (Ascii.eqb ch ">"%char) eqn:Hch; simpl.
  - intros _. apply Ascii.eqb_eq in Hch as ->. by exists "", s.
  - intros (b & c & -> & Hb)%IH. exists (String ch b), c. simpl. by rewrite Hch.
Qed.

Lemma has_html_spec s :
  has_html s = true
  ↔ ∃ a b c, s = a +:+ String "<"%char (b +:+ String ">"%char c)
             ∧ b ≠ "" ∧ contains_gt b = false.
Proof.
  split.
  - induction s as [|ch s IH]; simpl; [done|].
    intros [[Hch Hbody]%andb_true_iff | (a & b & c & -> & Hb)%IH]%orb_true_iff.
    + apply Ascii.eqb_eq in Hch as ->.
      destruct s as [|c0 s]; simpl in Hbody; [done|].
      apply andb_true_iff in Hbody as [Hc0%negb_true_iff (b & c & -> & Hb)%contains_gt_first].
      exists "", (String c0 b), c. simpl. by rewrite Hc0.
    + by exists (String ch a), b, c.
  - intros (a & b & c & -> & Hne & Hb). induction a as [|ch a IH]; simpl.
    + destruct b as [|c0 b]; [done|]. simpl in *.
      apply orb_false_iff in Hb as [Hc0 Hb].
      rewrite Hc0, contains_gt_app, Hb. simpl. by rewrite ?Ascii.eqb_refl.
    + rewrite IH. apply orb_true_r.
Qed.

(** X17: the output buffer captures every call of the print function, in
    order, whatever the mode and whether or not the text holds HTML:
    after the calls [prints] on an emptied buffer, [get_output_buffer]
    returns the texts, each the arguments joined by a blank, joined by
    newlines, and empties the buffer, so a second call returns the empty
    string.  In web mode nothing is written to the terminal; otherwise
    every call writes one line, the converted text if the text holds an HTML
    tag and the conversion succeeds, the text itself if not. *)
Theorem output_buffer_captures_every_print prints self :
  let self' := print_all html2console prints (clear_output_buffer self) in
  fst (get_output_buffer self')
  = String.concat newline (String.concat " " <$> prints)
  ∧ fst (get_output_buffer (snd (get_output_buffer self'))) = ""
  ∧ printed self'
    = printed self
        ++ (if web_mode self then [] else terminal_line html2console <$> prints)
  ∧ printed (snd (get_output_buffer self')) = printed self'.
Proof.
  cbv zeta.
  destruct (print_all_effect prints (clear_output_buffer self)) as (Hb & Hw & Hp).
  unfold get_output_buffer. simpl in *. rewrite Hb, Hp. done.
Qed.

(** X18: outside web mode the print function writes the text unchanged
    unless the text holds an HTML tag, that is, splits into a prefix, a '<',
    a part that is not empty and has no '>', a '>' and a rest; for a text
    with a tag it writes the result of the conversion, and the text itself
    when the conversion fails. *)
Theorem lua_print_converts_only_text_with_a_tag args :
  let output := String.concat " " args in
  let tagged := ∃ a b c, output = a +:+ String "<"%char (b +:+ String ">"%char c)
                         ∧ b ≠ "" ∧ contains_gt b = false in
  (tagged → terminal_line html2console args = default output (html2console output))
  ∧ (¬ tagged → terminal_line html2console args = output)
  ∧ (terminal_line html2console args ≠ output → tagged).
Proof.
  cbv zeta. unfold terminal_line.
  destruct (has_html (String.concat " " args)) eqn:Hh.
  - apply has_html_spec in Hh. split; [done|]. split; [by intros []|done].
  - assert (¬ ∃ a b c, String.concat " " args
                         = a +:+ String "<"%char (b +:+ String ">"%char c)
                       ∧ b ≠ "" ∧ contains_gt b = false) as Hno.
    { intros H%has_html_spec. congruence. }
    split; [by intros ?|]. split; [done|]. by intros [].
Qed.

End lua_print.

End LuaPrintFacts.

(** ** From Lua values to Python values *)

Module LuaToPythonFacts.

Import Dict DictFacts LuaToPython.

Section lua_to_python.

Context {float other : Type}.
Context (float_str : float → string) (other_str : other → string)
  (table_str : N → string).

Local Abbreviation lua_value := (@lua_value float other).
Local Abbreviation py_value := (@py_value float).
Local Abbreviation convert := (_lua_to_python float_str other_str table_str).

Implicit Types items : list (lua_value * lua_value).

(** The items with their values converted. *)
Lemma lua_to_python_table address items :
  convert (LuaTable address items)
  = table_to_python float_str other_str table_str (prod_map id convert <$> items).
Proof.
  simpl. f_equal. induction items as [|[key value] items IH]; [done|].
  by rewrite fmap_cons, <-IH.
Qed.

Lemma int_keys_Some {V} (items : list (lua_value * V)) (l : list (Z * V)) :
  int_keys items = Some l ↔
  is_int <$> items.*1 = Some <$> l.*1 ∧ items.*2 = l.*2.
Proof.
  revert l. induction items as [|[key value] items IH]; intros l.
  - simpl. split; [by intros [= <-]|]. intros [H _]. by destruct l.
  - cbn [int_keys]. rewrite !fmap_cons. cbn [fst snd].
    destruct (is_int key) as [n|] eqn:Hk; [destruct (int_keys items) as [r|] eqn:Hr|].
    + split.
      * intros [= <-]. destruct (proj1 (IH r) eq_refl) as [H1 H2].
        rewrite !fmap_cons. cbn [fst snd]. by rewrite H1, H2.
      * destruct l as [|[n' v'] l]; [by intros [? _]|].
        rewrite !fmap_cons. cbn [fst snd]. intros [[= -> H1] [= -> H2]].
        assert (Some r = Some l) as [= ->] by (by apply IH). done.
    + split; [done|]. destruct l as [|[n' v'] l]; [by intros [? _]|].
      rewrite !fmap_cons. cbn [fst snd]. intros [[= -> H1] [= -> H2]].
      assert (None = Some l) as [=] by (by apply IH).
    + split; [done|]. destruct l as [|[n' v'] l]; by intros [? _].
Qed.

Lemma int_keys_None {V} (items : list (lua_value * V)) :
  int_keys items = None ↔ ∃ key, key ∈ items.*1 ∧ is_int key = None.
Proof.
  induction items as [|[key value] items IH].
  - simpl. split; [done|]. by intros (? & ?%elem_of_nil & _).
  - cbn [int_keys]. rewrite fmap_cons. cbn [fst].
    destruct (is_int key) as [n|] eqn:Hk; [destruct (int_keys items) as [r|] eqn:Hr|].
    + split; [done|]. intros (k & [->|Hin]%elem_of_cons & Hno); [congruence|].
      assert (Some r = None) as [=]. apply IH. eauto.
    + split; [|done]. intros _. destruct (proj1 IH eq_refl) as (k & Hin & Hno).
      exists k. split; [by right|done].
    + split; [|done]. intros _. exists key. split; [by left|done].
Qed.

Lemma insert_by_key_Permutation {V} (x : Z * V) l : insert_by_key x l ≡ₚ x :: l.
Proof.
  induction l as [|y l IH]; simpl; [done|].
  case_decide; [done|]. rewrite IH. apply Permutation_swap.
Qed.

Lemma sorted_Permutation {V} (l : list (Z * V)) : sorted l ≡ₚ l.
Proof.
  induction l as [|x l IH]; simpl; [done|].
  by rewrite insert_by_key_Permutation, IH.
Qed.

Lemma insert_by_key_keys {V} (x : Z * V) l :
  Sorted Z.le l.*1 → Sorted Z.le (insert_by_key x l).*1.
Proof.
  induction l as [|y l IH]; simpl; [by repeat constructor|].
  intros Hs. case_decide as Hle; simpl.
  - constructor; [done|]. by constructor.
  - apply Sorted_inv in Hs as [Hs Hhd]. constructor; [by apply IH|].
    destruct l as [|z l]; simpl.
    + constructor. lia.
    + case_decide; simpl; constructor; [lia|]. by apply HdRel_inv in Hhd.
Qed.

Lemma sorted_keys_Sorted {V} (l : list (Z * V)) : Sorted Z.le (sorted l).*1.
Proof.
  induction l as [|x l IH]; simpl; [constructor|]. by apply insert_by_key_keys.
Qed.

Lemma seqZ_Sorted m n : Sorted Z.le (seqZ m n).
Proof.
  destruct (decide (0 ≤ n)%Z) as [Hn|Hn]; [|rewrite seqZ_nil by lia; constructor].
  rewrite <-(Z2Nat.id n) by done. generalize (Z.to_nat n). clear. intros k.
  revert m. induction k as [|k IH]; intros m; [constructor|].
  rewrite Nat2Z.inj_succ, seqZ_cons, Z.pred_succ by lia.
  constructor; [apply IH|].
  destruct k; [constructor|]. rewrite Nat2Z.inj_succ, seqZ_cons by lia.
  constructor. lia.
Qed.

Lemma omap_Some {A} (l : list A) : omap id (Some <$> l) = l.
Proof. induction l as [|x l IH]; [done|]. rewrite fmap_cons. cbn [omap list_omap id]. by f_equal. Qed.

(** The test of lines 371-374 succeeds exactly on the tables that are
    array-like. *)
Lemma array_test items (l : list (Z * py_value)) :
  int_keys (prod_map id convert <$> items) = Some l →
  (sorted l).*1 = seqZ 1 (Z.of_nat (length (sorted l)))
  ↔ is_int <$> items.*1 ≡ₚ Some <$> seqZ 1 (Z.of_nat (length items)).
Proof.
  intros [Hk Hv]%int_keys_Some.
  assert ((prod_map id convert <$> items).*1 = items.*1) as Hfst.
  { rewrite <-list_fmap_compose. by apply list_fmap_ext; intros ? []. }
  rewrite Hfst in Hk.
  assert (length l = length items) as Hlen.
  { rewrite <-(length_fmap fst l), <-(length_fmap Some), <-Hk, !length_fmap. done. }
  assert (length (sorted l) = length items) as Hlen'
    by (by rewrite sorted_Permutation).
  rewrite Hlen', Hk. split.
  - intros <-. by rewrite sorted_Permutation.
  - intros Hp. apply (omap_Permutation id) in Hp. rewrite !omap_Some in Hp.
    apply (Sorted_unique Z.le).
    + apply sorted_keys_Sorted.
    + apply seqZ_Sorted.
    + by rewrite sorted_Permutation.
Qed.

Lemma int_keys_elem {V} (items : list (lua_value * V)) l key value :
  int_keys items = Some l → (key, value) ∈ items →
  ∃ n, is_int key = Some n ∧ (n, value) ∈ l.
Proof.
  revert l. induction items as [|[k v] items IH]; intros l; [by intros _ ?%elem_of_nil|].
  cbn [int_keys]. destruct (is_int k) as [n|] eqn:Hk; [|done].
  destruct (int_keys items) as [r|]; [|done]. intros [= <-].
  intros [[= -> ->]|Hin]%elem_of_cons.
  - exists n. split; [done|by left].
  - destruct (IH r eq_refl Hin) as (m & Hm & Hel). exists m. split; [done|by right].
Qed.

Lemma as_dict_snoc (items : list (lua_value * py_value)) key value :
  as_dict float_str other_str table_str (items ++ [(key, value)])
  = dict_set (key_str float_str other_str table_str key) value
      (as_dict float_str other_str table_str items).
Proof. unfold as_dict. by rewrite foldl_app. Qed.

Lemma as_dict_spec (items : list (lua_value * py_value)) :
  NoDup (keys (as_dict float_str other_str table_str items))
  ∧ ∀ name,
      dict_get name (as_dict float_str other_str table_str items)
      = snd <$> last (filter (λ it, key_str float_str other_str table_str it.1 = name)
                        items).
Proof.
  induction items as [|[key value] items [IH1 IH2]] using rev_ind.
  - split; [apply NoDup_nil_2|done].
  - rewrite as_dict_snoc. split; [by apply keys_set_NoDup|].
    intros name. rewrite filter_app.
    destruct (decide (key_str float_str other_str table_str key = name)) as [<-|Hne].
    + rewrite filter_cons_True, filter_nil by done. by rewrite dict_get_set, last_snoc.
    + rewrite filter_cons_False, filter_nil, app_nil_r by done.
      rewrite dict_get_set_ne by done. apply IH2.
Qed.

Lemma converted_length items :
  length (prod_map id convert <$> items) = length items.
Proof. by rewrite length_fmap. Qed.

(** X19: a table whose keys are the ints from 1 to its size, in whatever
    order [keys()] lists them, and that is not empty, becomes a Python list
    as long as the table, with the converted value of key [n] at position
    [n - 1].  (A key True counts as 1, as it does for Python.) *)
Theorem array_like_table_becomes_a_list address items :
  array_like items →
  ∃ l, convert (LuaTable address items) = PyList l
    ∧ length l = length items
    ∧ ∀ key value, (key, value) ∈ items →
        ∃ n, is_int key = Some n
          ∧ (1 ≤ n ≤ Z.of_nat (length items))%Z
          ∧ l !! Z.to_nat (n - 1) = Some (convert value).
Proof.
  intros [Hne Hperm]. rewrite lua_to_python_table.
  set (citems := prod_map id convert <$> items).
  assert (citems.*1 = items.*1) as Hfst.
  { unfold citems. rewrite <-list_fmap_compose. by apply list_fmap_ext; intros ? []. }
  destruct (int_keys citems) as [l0|] eqn:Hk.
  2:{ apply int_keys_None in Hk as (key & Hin & Hno). rewrite Hfst in Hin.
      assert (None ∈ is_int <$> items.*1) as Hel.
      { rewrite <-Hno. by apply list_elem_of_fmap_2. }
      rewrite Hperm in Hel. by apply list_elem_of_fmap in Hel as (? & [=] & _). }
  pose proof (proj2 (array_test items l0 Hk) Hperm) as Htest.
  assert (length l0 = length items) as Hlen.
  { apply int_keys_Some in Hk as [_ Hv].
    rewrite <-(length_fmap snd l0), <-Hv. unfold citems. by rewrite !length_fmap. }
  assert (length (sorted l0) = length items) as Hlen'
    by (by rewrite sorted_Permutation).
  unfold table_to_python. rewrite Hk.
  destruct l0 as [|k ks]; [destruct items; [done|discriminate Hlen]|].
  cbv zeta. rewrite decide_True by done.
  exists (sorted (k :: ks)).*2. split; [done|]. split; [by rewrite length_fmap|].
  intros key value Hin.
  assert ((key, convert value) ∈ citems) as Hin'.
  { unfold citems. apply list_elem_of_fmap. by exists (key, value). }
  destruct (int_keys_elem citems _ key (convert value) Hk Hin') as (n & Hn & Hel).
  rewrite <-sorted_Permutation in Hel.
  apply list_elem_of_lookup in Hel as [j Hj].
  assert ((sorted (k :: ks)).*1 !! j = Some n) as Hj1 by (by rewrite list_lookup_fmap, Hj).
  rewrite Htest, Hlen' in Hj1. apply lookup_seqZ in Hj1 as [-> Hlt].
  exists (1 + Z.of_nat j)%Z. split; [done|]. split; [lia|].
  replace (Z.to_nat (1 + Z.of_nat j - 1)) with j by lia.
  by rewrite list_lookup_fmap, Hj.
Qed.

(** X20: every other table, the empty table among them, becomes a Python
    dict.  Its keys are the [str] of the keys of the table (a key that is a
    string stays as it is), each once; under a name it holds the converted
    value of the last item of the table whose key has this name, so when
    two keys of the table have the same [str], as 1 and "1" have, the one
    that [keys()] lists later wins and the other value is lost. *)
Theorem other_table_becomes_a_dict address items :
  ¬ array_like items →
  ∃ d, convert (LuaTable address items) = PyDict d
    ∧ NoDup (keys d)
    ∧ ∀ name,
        dict_get name d
        = (λ it, convert it.2)
          <$> last (filter (λ it, key_str float_str other_str table_str it.1 = name)
                      items).
Proof.
  intros Hnot. rewrite lua_to_python_table.
  set (citems := prod_map id convert <$> items).
  assert (table_to_python float_str other_str table_str citems
          = PyDict (as_dict float_str other_str table_str citems)) as ->.
  { unfold table_to_python. destruct (int_keys citems) as [[|k ks]|] eqn:Hk; [done| |done].
    cbv zeta. case_decide as Htest; [|done]. exfalso. apply Hnot.
    pose proof (proj1 (array_test items _ Hk) Htest) as Hperm.
    split; [|done]. intros ->. done. }
  destruct (as_dict_spec citems) as [Hnd Hget].
  eexists. split; [done|]. split; [done|].
  intros name. rewrite Hget. unfold citems.
  clear. induction items as [|[key value] items IH] using rev_ind; [done|].
  rewrite fmap_app, !filter_app, !fmap_cons, !fmap_nil. cbn [prod_map fst snd id].
  destruct (decide (key_str float_str other_str table_str key = name)) as [Heq|Hne].
  - rewrite !filter_cons_True, !filter_nil by done. by rewrite !last_snoc.
  - rewrite !filter_cons_False, !filter_nil, !app_nil_r by done. apply IH.
Qed.

End lua_to_python.

End LuaToPythonFacts.

(** * The properties on the scenarios *)

Module Checks.

Import Scenario.

Local Open Scope Z_scope.

Lemma after_reachable acts rt :
  run_actions engine acts start = Some rt → reachable engine rt.
Proof. apply run_actions_reachable, reachable_init. Qed.

(** C1, on the code: a timer whose id is reused right after a cancel gets
    neither outcome.  In [reuse_after_cancel] the id 1 is created twice
    (tasks 1 and 2).  The cancel succeeds for task 1.  The cleanup of the
    cancelled task 1 then removes the entry that by now belongs to task 2:
    the later cancel of timer 1 returns False although the delay of task 2
    has not ended, and when it ends task 2 finds its id unregistered and
    returns without enqueueing anything. *)
Theorem reused_timer_id_gets_neither_outcome :
  history (after reuse_after_cancel)
  = [ev_expire 2 1 false; ev_cancel 1 None;
     ev_create 1 2; ev_cancel 1 (Some 1%nat); ev_create 1 1]
  ∧ all_tasks (after reuse_after_cancel) !! 2%nat
    = Some {| coro := timer_task 1 50; state := Finished; must_cancel := false |}
  ∧ callback_queue (after reuse_after_cancel) = []
  ∧ timer_semaphore (after reuse_after_cancel) = 0%nat
  ∧ creates 1 (history (after reuse_after_cancel)) = 2%nat
  ∧ cancel_successes 1 (history (after reuse_after_cancel)) = 1%nat
  ∧ expiry_dispatches 1 (history (after reuse_after_cancel)) = 0%nat.
Proof. vm_compute. by split_and!. Qed.

(** The interpreter of [start] is not initialized. *)
Lemma uninitialized_entry_points_raise_witness :
  lua (interpreter start) = None
  ∧ execute_script engine "print(1)" None false false start
    = (Raised (RuntimeError "Lua runtime not initialized. Call initialize() first."), start)
  ∧ execute_lua_callback engine 3 None start
    = (Raised (RuntimeError "Lua runtime not initialized."), start).
Proof.
  split; [reflexivity|].
  destruct (uninitialized_entry_points_raise engine start eq_refl) as (Hs & _ & _ & Hc).
  split; [apply Hs|apply Hc].
Defined.

(** The delay of timer 1 ends while the id is registered. *)
Lemma timer_expiry_witness :
  all_tasks (after sleeping_trace) !! 1%nat
  = Some {| coro := timer_task 1 50; state := Suspended await_sleep; must_cancel := false |}
  ∧ timer_tasks (after sleeping_trace) !! 1 = Some 1%nat
  ∧ ∃ rt', resume engine 1 (after sleeping_trace) = Some rt'
      ∧ timer_tasks rt' = delete 1 (timer_tasks (after sleeping_trace))
      ∧ callback_queue rt' = [{| type := "timer"; callback_id := 1; data := None |}]
      ∧ timer_semaphore rt' = 1%nat.
Proof.
  split; [reflexivity|]. split; [reflexivity|].
  destruct (timer_expiry engine (after sleeping_trace) 1
              {| coro := timer_task 1 50; state := Suspended await_sleep;
                 must_cancel := false |} 1 50 await_sleep
              eq_refl eq_refl eq_refl) as (rt' & Hres & _ & H).
  exists rt'. split; [exact Hres|]. cbn [must_cancel] in H.
  change (timer_tasks (after sleeping_trace) !! 1) with (Some 1%nat) in H.
  destruct H as (Ht & Hq & Hs & _). split; [exact Ht|]. split; [exact Hq|exact Hs].
Defined.

Lemma enqueue_is_followed_by_one_release_witness :
  reachable engine (after queued_trace)
  ∧ timer_semaphore (after queued_trace) = 2%nat
  ∧ timer_semaphore (after queued_trace) = length (callback_queue (after queued_trace))
  ∧ ∀ task t, all_tasks (after queued_trace) !! task = Some t →
              state t ≠ Suspended await_get.
Proof.
  assert (reachable engine (after queued_trace)) as Hr.
  { apply (after_reachable queued_trace). vm_compute. reflexivity. }
  split; [exact Hr|]. split; [reflexivity|].
  destruct (enqueue_is_followed_by_one_release engine (after queued_trace) Hr)
    as (_ & _ & _ & Heq & _ & Hget).
  split; [exact Heq|exact Hget].
Defined.

Lemma dispatch_is_fifo_and_serial_witness :
  reachable engine (after (queued_trace ++ [run 0%nat]))
  ∧ rev (puts (history (after (queued_trace ++ [run 0%nat]))))
    = rev (gets (history (after (queued_trace ++ [run 0%nat]))))
        ++ [{| type := "lua_callback"; callback_id := 8; data := Some 3%nat |}]
  ∧ serial (history (after (queued_trace ++ [run 0%nat]))) = true.
Proof.
  assert (reachable engine (after (queued_trace ++ [run 0%nat]))) as Hr.
  { apply (after_reachable (queued_trace ++ [run 0%nat])). vm_compute. reflexivity. }
  split; [exact Hr|].
  destruct (dispatch_is_fifo_and_serial engine _ Hr) as (Hfifo & _ & Hser & _).
  split; [exact Hfifo|exact Hser].
Defined.

(** The callback with id -7 fails; the loop goes on to the callback with id
    8 and is alive afterwards. *)
Lemma failing_callback_does_not_stop_the_loop_witness :
  reachable engine (after queued_trace)
  ∧ loop_ready (after queued_trace) 0
  ∧ ∃ rt', run_actions engine [run 0%nat; run 0%nat] (after queued_trace) = Some rt'
      ∧ loop_ready rt' 0
      ∧ callback_queue rt' = []
      ∧ failures (history rt') = reported (stdout rt').
Proof.
  assert (reachable engine (after queued_trace)) as Hr.
  { apply (after_reachable queued_trace). vm_compute. reflexivity. }
  assert (loop_ready (after queued_trace) 0) as Hready.
  { exists {| coro := run_timer_callbacks_loop; state := Scheduled; must_cancel := false |}.
    split; [reflexivity|]. split; [reflexivity|]. split; [reflexivity|]. left. reflexivity. }
  split; [exact Hr|]. split; [exact Hready|].
  destruct (failing_callback_does_not_stop_the_loop engine _ 0 Hr Hready)
    as (_ & rt' & Hrun & Hready' & Hq & _ & _ & Hrep).
  exists rt'. split; [exact Hrun|]. split; [exact Hready'|]. split; [exact Hq|exact Hrep].
Defined.

(** What the two iterations leave behind: both callbacks were handed to the
    engine, the failure of -7 was printed with its id. *)
Example failing_callback_is_reported :
  invoked (history (after (queued_trace ++ [run 0%nat; run 0%nat]))) = [8; -7]
  ∧ stdout (after (queued_trace ++ [run 0%nat; run 0%nat]))
    = [out_callback_error (-7) (LuaError "attempt to call a nil value")].
Proof. vm_compute. by split. Qed.

Lemma python_cancel_timer_spec_witness :
  reachable engine (after sleeping_trace)
  ∧ ∃ rt', python_cancel_timer 1 (after sleeping_trace) = (Returned true, rt')
      ∧ timer_tasks rt' = delete 1 (timer_tasks (after sleeping_trace))
      ∧ ∃ rt'', python_cancel_timer 1 rt' = (Returned false, rt'').
Proof.
  assert (reachable engine (after sleeping_trace)) as Hr.
  { apply (after_reachable sleeping_trace). vm_compute. reflexivity. }
  split; [exact Hr|].
  destruct (python_cancel_timer_spec engine (after sleeping_trace) 1 Hr)
    as (found & rt' & Heq & Hfound & Hdel & _ & Hagain & _).
  assert (found = true) as ->.
  { apply Hfound. exists 1%nat. reflexivity. }
  exists rt'. split; [exact Heq|]. split; [exact Hdel|].
  exact (Hagain [] rt' eq_refl eq_refl).
Defined.

(** C7, on the code: [stop] leaves a sleeping timer registered and not
    cancelled and a queued callback in the queue, so the timer set and the
    queue are not empty after it; and the timer then fires: its task, resumed
    after [stop], puts its event on the queue. *)
Lemma stop_leaves_timers_and_queue :
  timer_tasks (after stop_with_pending_work) !! 1 = Some 1%nat
  ∧ all_tasks (after stop_with_pending_work) !! 1%nat
    = Some {| coro := timer_task 1 50; state := Suspended await_sleep;
              must_cancel := false |}
  ∧ callback_queue (after stop_with_pending_work)
    = [{| type := "lua_callback"; callback_id := 7; data := None |}]
  ∧ stdout (after stop_with_pending_work) = [out_runtime_stopped]
  ∧ callback_queue (after (stop_with_pending_work ++ [run 1%nat]))
    = [{| type := "lua_callback"; callback_id := 7; data := None |};
       {| type := "timer"; callback_id := 1; data := None |}]
  ∧ ¬ (timer_tasks (after stop_with_pending_work) = ∅
       ∧ callback_queue (after stop_with_pending_work) = []).
Proof.
  split_and!; try (vm_compute; reflexivity).
  intros [_ H]. vm_compute in H. discriminate H.
Qed.

(** C8, on the code: a callback submitted after [stop] is dispatched.  In
    [stopped_trace] the runtime is stopped and nothing was ever handed to the
    engine; the submission of callback 7 that follows starts a new callback
    loop, and that loop hands callback 7 to the engine. *)
Lemma submission_after_stop_is_dispatched :
  stdout (after stopped_trace) = [out_runtime_stopped]
  ∧ all_tasks (after stopped_trace) !! 0%nat
    = Some {| coro := run_timer_callbacks_loop; state := Finished; must_cancel := true |}
  ∧ invoked (history (after stopped_trace)) = []
  ∧ queue_lua_callback true 7 (Some 3%nat) (after stopped_trace)
    = (Returned tt, after (stopped_trace ++ [call_queue_lua_callback true 7 (Some 3%nat)]))
  ∧ callback_task (after (stopped_trace ++ submit_after_stop)) = Some 1%nat
  ∧ invoked (history (after (stopped_trace ++ submit_after_stop))) = [7]
  ∧ history (after (stopped_trace ++ submit_after_stop))
    = [ev_invoke_end 7 None; ev_invoke 7;
       ev_get {| type := "lua_callback"; callback_id := 7; data := Some 3%nat |};
       ev_acquire; ev_release;
       ev_put {| type := "lua_callback"; callback_id := 7; data := Some 3%nat |}].
Proof. split_and!; vm_compute; reflexivity. Qed.

Lemma submission_after_stop_restarts_the_loop_witness :
  callback_task (after stopped_trace) = Some 0%nat
  ∧ task_done 0 (after stopped_trace) = true
  ∧ (∃ rt', queue_lua_callback true 7 (Some 3%nat) (after stopped_trace) = (Returned tt, rt')
       ∧ callback_task rt' = Some 1%nat)
  ∧ (∃ rt', python_timer true 4 50 (after stopped_trace) = (Returned 2%nat, rt')
       ∧ callback_task rt' = Some 1%nat).
Proof.
  split; [reflexivity|]. split; [reflexivity|].
  destruct (submission_after_stop_restarts_the_loop engine (after stopped_trace) eq_refl)
    as [Hq Ht].
  split.
  - destruct (Hq 7 (Some 3%nat)) as (rt' & Heq & Hct & _). exists rt'. split; [exact Heq|exact Hct].
  - destruct (Ht 4 50) as (rt' & Heq & Hct & _). exists rt'. split; [exact Heq|exact Hct].
Defined.

(** C9, on the code: a second [python_timer] for the id 1, made while timer
    1 sleeps, is accepted: it returns a new task (task 2) and no error, the
    id now points to task 2, and the first task keeps sleeping with its
    cancellation never requested. *)
Lemma duplicate_timer_id_is_accepted :
  timer_tasks (after sleeping_trace) !! 1 = Some 1%nat
  ∧ fst (python_timer true 1 20 (after sleeping_trace)) = Returned 2%nat
  ∧ timer_tasks (snd (python_timer true 1 20 (after sleeping_trace))) !! 1 = Some 2%nat
  ∧ all_tasks (snd (python_timer true 1 20 (after sleeping_trace))) !! 1%nat
    = Some {| coro := timer_task 1 50; state := Suspended await_sleep;
              must_cancel := false |}
  ∧ stdout (snd (python_timer true 1 20 (after sleeping_trace))) = []
  ∧ ¬ ∃ e, fst (python_timer true 1 20 (after sleeping_trace)) = Raised e.
Proof.
  split_and!; try (vm_compute; reflexivity).
  intros [e H]. vm_compute in H. discriminate H.
Qed.

Lemma create_timer_overwrites_live_id_witness :
  timer_tasks (after sleeping_trace) !! 1 = Some 1%nat
  ∧ ∃ rt', create_timer true 1 20 (after sleeping_trace) = (Returned 2%nat, rt')
      ∧ timer_tasks rt' !! 1 = Some 2%nat.
Proof.
  split; [reflexivity|].
  destruct (create_timer_overwrites_live_id (after sleeping_trace) 1 20 1%nat eq_refl)
    as [(rt' & Heq & _ & Hl & _) _].
  exists rt'. split; [exact Heq|exact Hl].
Defined.

End Checks.

(** * Further properties on the scenarios *)

Module MoreChecks.

Import Session.

Local Open Scope Z_scope.

Lemma session_reachable acts rt :
  run_actions Scenario.engine acts Scenario.start = Some rt → reachable Scenario.engine rt.
Proof. apply run_actions_reachable, reachable_init. Qed.

(** The main-file hook of [Scenario.engine] succeeds on the initialized interpreter. *)
Lemma execute_file_wraps_engine_errors_witness :
  lua (interpreter (Scenario.after initialized_trace)) = Some 1%nat
  ∧ fst (execute_file Scenario.engine "main.lua" true true (Scenario.after initialized_trace)) = Returned tt
  ∧ execute_file Scenario.engine "main.lua" true true (Scenario.after initialized_trace)
    = execute_file Scenario.engine "main.lua" false false (Scenario.after initialized_trace).
Proof.
  split; [reflexivity|].
  destruct (execute_file_wraps_engine_errors Scenario.engine (Scenario.after initialized_trace) 1%nat
              "main.lua" true true eq_refl) as (Heq & _ & Hflags).
  split; [|exact Hflags]. rewrite Heq. reflexivity.
Defined.

Lemma every_callback_failure_is_printed_once_witness :
  reachable Scenario.engine (Scenario.after dispatched_trace)
  ∧ failures (history (Scenario.after dispatched_trace))
    = [(-7, LuaError "attempt to call a nil value")]
  ∧ reported (stdout (Scenario.after dispatched_trace))
    = failures (history (Scenario.after dispatched_trace)).
Proof.
  assert (reachable Scenario.engine (Scenario.after dispatched_trace)) as Hr.
  { apply (session_reachable dispatched_trace). vm_compute. reflexivity. }
  split; [exact Hr|]. split; [reflexivity|].
  exact (every_callback_failure_is_printed_once Scenario.engine _ Hr).
Defined.

(** Timer 1 sleeps: its id is registered with task 1. *)
Lemma registered_timers_are_pending_witness :
  reachable Scenario.engine (Scenario.after Scenario.sleeping_trace)
  ∧ timer_tasks (Scenario.after Scenario.sleeping_trace) !! 1 = Some 1%nat
  ∧ task_done 1 (Scenario.after Scenario.sleeping_trace) = false.
Proof.
  assert (reachable Scenario.engine (Scenario.after Scenario.sleeping_trace)) as Hr.
  { apply (session_reachable Scenario.sleeping_trace). vm_compute. reflexivity. }
  split; [exact Hr|]. split; [reflexivity|].
  destruct (registered_timers_are_pending Scenario.engine (Scenario.after Scenario.sleeping_trace) 1 1%nat Hr eq_refl)
    as (t & d & _ & _ & _ & _ & Hdone & _).
  exact Hdone.
Defined.

(** Timer 1 has expired: one timer callback was queued for one creation. *)
Lemma timer_callbacks_are_bounded_by_creations_witness :
  reachable Scenario.engine (Scenario.after expired_trace)
  ∧ creates 1 (history (Scenario.after expired_trace)) = 1%nat
  ∧ timer_puts 1 (history (Scenario.after expired_trace))
    = expiry_dispatches 1 (history (Scenario.after expired_trace))
  ∧ (timer_puts 1 (history (Scenario.after expired_trace))
     + cancel_successes 1 (history (Scenario.after expired_trace))
     + live (timer_tasks (Scenario.after expired_trace)) 1
     ≤ creates 1 (history (Scenario.after expired_trace)))%nat.
Proof.
  assert (reachable Scenario.engine (Scenario.after expired_trace)) as Hr.
  { apply (session_reachable expired_trace). vm_compute. reflexivity. }
  split; [exact Hr|]. split; [reflexivity|].
  exact (timer_callbacks_are_bounded_by_creations Scenario.engine _ 1 Hr).
Defined.

(** Timer 1 was created once and sleeps: it is pending. *)
Lemma timer_created_once_has_exactly_one_outcome_witness :
  reachable Scenario.engine (Scenario.after Scenario.sleeping_trace)
  ∧ creates 1 (history (Scenario.after Scenario.sleeping_trace)) = 1%nat
  ∧ (cancel_successes 1 (history (Scenario.after Scenario.sleeping_trace))
     + expiry_dispatches 1 (history (Scenario.after Scenario.sleeping_trace)) ≤ 1)%nat.
Proof.
  assert (reachable Scenario.engine (Scenario.after Scenario.sleeping_trace)) as Hr.
  { apply (session_reachable Scenario.sleeping_trace). vm_compute. reflexivity. }
  split; [exact Hr|]. split; [reflexivity|].
  destruct (timer_created_once_has_exactly_one_outcome Scenario.engine (Scenario.after Scenario.sleeping_trace) 1
              Hr eq_refl) as [Hle _].
  exact Hle.
Defined.

(** An empty list of fragments and an empty main script are nothing to
    execute. *)
Lemma start_without_a_script_only_prints_witness :
  ∃ rt', start Scenario.engine debugger_engine 0%nat (Some []) (Some "") None
           (Some 30) None None None Scenario.start
         = (Returned None, rt')
    ∧ stdout rt' = [out_runtime_stopped; out_text "No script provided to execute"]
    ∧ length (all_tasks rt') = 0%nat.
Proof.
  destruct (start_without_a_script_only_prints Scenario.engine debugger_engine 0%nat
              (Some []) (Some "") None (Some 30) None None None Scenario.start
              eq_refl eq_refl eq_refl)
    as (rt' & Heq & Hout & _ & Hlen & _).
  exists rt'. split; [exact Heq|]. split; [exact Hout|exact Hlen].
Defined.

(** A main script, run for 30 seconds under the debugger: [start] gets to
    its monitor with the callback loop (task 0) alive. *)
Lemma start_reaches_monitoring_with_a_running_loop_witness :
  ∃ rt', start Scenario.engine debugger_engine 0%nat None (Some "print(1)") None
           (Some 30) (Some {| host := "localhost"; port := 8172; debug := true |})
           (Some "main.lua") None Scenario.start
         = (Returned (Some (duration_monitor 30)), rt')
    ∧ initialized rt'
    ∧ ∃ c, callback_task rt' = Some c ∧ loop_ready rt' c.
Proof.
  eexists. split; [vm_compute; reflexivity|].
  destruct (start_reaches_monitoring_with_a_running_loop Scenario.engine debugger_engine
              0%nat None (Some "print(1)") None (Some 30)
              (Some {| host := "localhost"; port := 8172; debug := true |})
              (Some "main.lua") Scenario.start _ _
              (reachable_init Scenario.engine) eq_refl)
    as (_ & Hi & c & Hc & Hready & _).
  split; [exact Hi|]. exists c. split; [exact Hc|exact Hready].
Defined.

(** The table [{"b", "a"}] with its keys listed as 2, 1. *)
Lemma array_like_table_becomes_a_list_witness :
  LuaToPython._lua_to_python (float:=unit) (other:=unit)
    (λ _, "0.0") (λ _, "function") (λ _, "table")
    (LuaToPython.LuaTable 7
       [(LuaToPython.LuaInt 2, LuaToPython.LuaStr "b");
        (LuaToPython.LuaInt 1, LuaToPython.LuaStr "a")])
  = LuaToPython.PyList [LuaToPython.PyStr "a"; LuaToPython.PyStr "b"].
Proof.
  destruct (LuaToPythonFacts.array_like_table_becomes_a_list (float:=unit) (other:=unit)
              (λ _, "0.0") (λ _, "function") (λ _, "table") 7%N
              [(LuaToPython.LuaInt 2, LuaToPython.LuaStr "b");
               (LuaToPython.LuaInt 1, LuaToPython.LuaStr "a")])
    as (l & Heq & Hlen & Hl).
  { split; [discriminate|]. vm_compute. apply Permutation_swap. }
  rewrite Heq. f_equal.
  destruct (Hl (LuaToPython.LuaInt 1) (LuaToPython.LuaStr "a")) as (n1 & Hn1 & _ & H1).
  { right. left. }
  destruct (Hl (LuaToPython.LuaInt 2) (LuaToPython.LuaStr "b")) as (n2 & Hn2 & _ & H2).
  { left. }
  injection Hn1 as <-. injection Hn2 as <-.
  destruct l as [|x [|y [|z l]]]; try discriminate Hlen.
  injection H1 as ->. injection H2 as ->. reflexivity.
Defined.

(** The table with the items 1 = "a" and "1" = "b": both keys have the
    name "1", and the later one wins. *)
Lemma other_table_becomes_a_dict_witness :
  ∃ d, LuaToPython._lua_to_python (float:=unit) (other:=unit)
         (λ _, "0.0") (λ _, "function") (λ _, "table")
         (LuaToPython.LuaTable 7
            [(LuaToPython.LuaInt 1, LuaToPython.LuaStr "a");
             (LuaToPython.LuaStr "1", LuaToPython.LuaStr "b")])
       = LuaToPython.PyDict d
    ∧ Dict.dict_get "1" d = Some (LuaToPython.PyStr "b")
    ∧ Dict.dict_get "2" d = None.
Proof.
  destruct (LuaToPythonFacts.other_table_becomes_a_dict (float:=unit) (other:=unit)
              (λ _, "0.0") (λ _, "function") (λ _, "table") 7%N
              [(LuaToPython.LuaInt 1, LuaToPython.LuaStr "a");
               (LuaToPython.LuaStr "1", LuaToPython.LuaStr "b")])
    as (d & Heq & _ & Hget).
  { intros [_ Hperm]. vm_compute in Hperm.
    assert (None ∈ [Some 1; Some 2]) as Hin by (rewrite <-Hperm; right; left).
    apply elem_of_cons in Hin as [Hin|Hin]; [discriminate Hin|].
    apply elem_of_cons in Hin as [Hin|Hin]; [discriminate Hin|].
    by apply elem_of_nil in Hin. }
  exists d. split; [exact Heq|]. rewrite !Hget. split; reflexivity.
Defined.

(** After [Scenario.stop_with_pending_work] a callback is queued and the
    callback loop has been told to stop: a new loop (task 3) dispatches
    it. *)
Lemma new_callback_loop_drains_the_queue_witness :
  reachable Scenario.engine (Scenario.after Scenario.stop_with_pending_work)
  ∧ callback_queue (Scenario.after Scenario.stop_with_pending_work)
    = [{| type := "lua_callback"; callback_id := 7; data := None |}]
  ∧ ∃ rt1 rt',
      start_callback_loop (Scenario.after Scenario.stop_with_pending_work)
      = (Returned tt, rt1)
      ∧ run_actions Scenario.engine [run 3%nat] rt1 = Some rt'
      ∧ callback_queue rt' = []
      ∧ loop_ready rt' 3.
Proof.
  assert (reachable Scenario.engine (Scenario.after Scenario.stop_with_pending_work))
    as Hr.
  { apply (session_reachable Scenario.stop_with_pending_work). vm_compute. reflexivity. }
  split; [exact Hr|]. split; [reflexivity|].
  destruct (new_callback_loop_drains_the_queue Scenario.engine _ Hr)
    as (rt1 & rt' & Hstart & _ & _ & _ & Hrun & Hq & _ & _ & Hready).
  exists rt1, rt'. split; [exact Hstart|]. split; [exact Hrun|].
  split; [exact Hq|exact Hready].
Defined.

(** A callback is submitted after [stop], before the callback loop has
    ended. *)
Lemma submission_before_the_loop_has_ended_starts_no_loop_witness :
  ∃ rt1 rt2,
    queue_lua_callback true 7 (Some 3%nat) (Scenario.after stopping_trace)
    = (Returned tt, rt1)
    ∧ run_actions Scenario.engine [run 0%nat; run 1%nat] rt1 = Some rt2
    ∧ callback_queue rt2
      = [{| type := "lua_callback"; callback_id := 7; data := Some 3%nat |}]
    ∧ callback_task rt2 = Some 0%nat
    ∧ task_done 0 rt2 = true.
Proof.
  destruct (submission_before_the_loop_has_ended_starts_no_loop Scenario.engine
              (Scenario.after stopping_trace) 0%nat
              {| coro := run_timer_callbacks_loop; state := Suspended await_acquire;
                 must_cancel := true |} 7 (Some 3%nat)
              eq_refl eq_refl eq_refl eq_refl eq_refl)
    as (rt1 & rt2 & Hq & _ & _ & Hrun & Hqueue & _ & Hc & Hdone & _).
  exists rt1, rt2. split; [exact Hq|]. split; [exact Hrun|].
  split; [exact Hqueue|]. split; [exact Hc|exact Hdone].
Defined.

End MoreChecks.
